(** * comfypod: the model downloader worker and the orchestration poller

    A shallow embedding of [downloader.ts] (the worker that runs on the CPU
    pod) and of the polling and retry loop of [commands/setup.ts], followed
    by the size probe and the text helpers of the worker, the [estimate]
    command, and the waiting and retrying loops of [commands/setup.ts] and
    [runpod.ts].

    Conventions.
    - JavaScript numbers that hold byte counts, HTTP codes and millisecond
      time stamps are integers and are modelled by [Z]; the one quotient the
      worker computes (the throughput) is modelled exactly in [Q].
    - A string used as a condition is true iff it is non-empty ([truthy]).
    - Everything the worker learns from outside (file system, HTTP responses,
      stream chunks, the wall clock) is an explicit input: an argument of the
      function, an event of the step function, or the clock oracle.
    - The worker is single threaded; its state changes only in the
      synchronous code that runs when an awaited operation settles.  One
      [step] is one such resumption. *)

From Stdlib Require Import ZArith QArith Qround String Ascii List DecimalString
  DecimalPos Lia.
From stdpp Require Import base list strings.

Local Open Scope Z_scope.

(** ** JavaScript primitives used by the sources *)

(** [if (s)] for a string [s]. *)
Definition truthy (s : string) : bool :=
  match s with
  | EmptyString => false
  | String _ _ => true
  end.

(** [if (o)] for an optional string property: absent and empty are both false. *)
Definition truthy_opt (o : option string) : bool :=
  match o with
  | Some s => truthy s
  | None => false
  end.

(** Template-literal rendering of an integer. *)
Definition show (z : Z) : string := NilZero.string_of_int (Z.to_int z).

(** [s.includes(needle)]. *)
Fixpoint includes (s needle : string) : bool :=
  String.prefix needle s ||
  match s with
  | EmptyString => false
  | String _ s' => includes s' needle
  end.

(** *** [new URL(url).hostname]

    The platform URL parser is modelled for absolute hierarchical URLs
    [scheme://[userinfo@]host[:port][/path][?query][#fragment]]: the host is
    what stands between the last [@] of the authority and the port, in lower
    case.  [None] stands for the [TypeError] the constructor throws.  IPv6
    literals, IDNA and percent-decoding are outside this model. *)

Definition is_authority_end (c : ascii) : bool :=
  (Ascii.eqb c "/" || Ascii.eqb c "?" || Ascii.eqb c "#")%char.

Fixpoint take_until (stop : ascii -> bool) (s : string) : string :=
  match s with
  | EmptyString => EmptyString
  | String c s' => if stop c then EmptyString else String c (take_until stop s')
  end.

(** The text after the first [://], provided no authority delimiter precedes it. *)
Fixpoint after_scheme (s : string) : option string :=
  match s with
  | EmptyString => None
  | String c s' =>
      if String.prefix "://" s then Some (String.substring 3 (String.length s - 3) s)
      else if is_authority_end c then None
      else after_scheme s'
  end.

(** The text after the last occurrence of [c], or the whole string. *)
Fixpoint after_last (c : ascii) (s : string) : string :=
  match s with
  | EmptyString => EmptyString
  | String d s' =>
      if Ascii.eqb c d && negb (includes s' (String c EmptyString))
      then s'
      else if includes s (String c EmptyString) then after_last c s' else s
  end.

Definition to_lower (c : ascii) : ascii :=
  let n := nat_of_ascii c in
  if (Nat.leb 65 n && Nat.leb n 90)%nat then ascii_of_nat (n + 32) else c.

Fixpoint lowercase (s : string) : string :=
  match s with
  | EmptyString => EmptyString
  | String c s' => String (to_lower c) (lowercase s')
  end.

Definition hostname (url : string) : option string :=
  match after_scheme url with
  | None => None
  | Some rest =>
      let authority := take_until is_authority_end rest in
      let hostport := after_last "@" authority in
      let host := take_until (Ascii.eqb ":") hostport in
      if truthy host && truthy (take_until (Ascii.eqb ":") url)
      then Some (lowercase host) else None
  end.

(** ** Data model of [downloader.ts] *)

Record Model := {
  url : string;
  dest : string;
  sha256 : option string;
}.

(** [interface ModelWithSize extends Model]. *)
Record ModelWithSize := {
  model :> Model;
  size : Z;
}.

Module FileStatus.
Inductive t := success | failed | skipped.
Definition eqb (a b : t) : bool :=
  match a, b with
  | success, success | failed, failed | skipped, skipped => true
  | _, _ => false
  end.
End FileStatus.

Module FileResult.
Record t := {
  file : string;
  status : FileStatus.t;
  reason : option string;
}.
End FileResult.

Module Phase.
Inductive t := preflight | downloading | completed | failed.
Definition terminal (p : t) : bool :=
  match p with
  | completed | failed => true
  | _ => false
  end.
End Phase.

Record StatusInternal := {
  phase : Phase.t;
  currentFiles : list string;
  totalFiles : Z;
  overallDownloadedBytes : Z;
  overallTotalBytes : Z;
  speed : Q;
  results : list FileResult.t;
  error : option string;
}.

(** The module-level [status] object as it is created. *)
Definition status0 : StatusInternal := {|
  phase := Phase.preflight;
  currentFiles := [];
  totalFiles := 0;
  overallDownloadedBytes := 0;
  overallTotalBytes := 0;
  speed := 0%Q;
  results := [];
  error := None;
|}.

Definition count_status (s : FileStatus.t) (rs : list FileResult.t) : nat :=
  length (filter (fun r => FileStatus.eqb (FileResult.status r) s = true) rs).

(** The document [serializeStatus] builds: the status record spread, plus
    the three counters. *)
Record StatusDocument := {
  doc : StatusInternal;
  success : nat;
  failed : nat;
  skipped : nat;
}.

Definition serializeStatus (st : StatusInternal) : StatusDocument := {|
  doc := st;
  success := count_status FileStatus.success (results st);
  failed := count_status FileStatus.failed (results st);
  skipped := count_status FileStatus.skipped (results st);
|}.

(** The process environment, after the [|| default] of the constants. *)
Record Env := {
  TARGET_DIR : string;
  HF_TOKEN : string;
  CIVITAI_TOKEN : string;
  STATUS_TOKEN : string;
}.

Definition PORT : Z := 8080.
Definition SPEED_WINDOW_MS : Z := 60000.

(** ** The local file system as the worker observes it

    [existsSync], [statSync(..).size] and [computeSha256] are the only
    reads.  A path maps to what those three calls answer for it. *)
Module Fs.
Record stat := { size : Z; sha256 : string }.
Definition t := string -> option stat.
Definition empty : t := fun _ => None.
Definition add (path : string) (st : stat) (fs : t) : t :=
  fun p => if String.eqb p path then Some st else fs p.
End Fs.

(** ** HTTP messages *)
Definition Headers := list (string * string).

Module Http.
(** What the status server reads of an incoming request. *)
Record Request := {
  method : string;
  url : string;
  authorization : option string;
}.

Inductive Body :=
| Empty
| Json (d : StatusDocument).

Record Reply := {
  code : Z;
  headers : Headers;
  body : Body;
}.

(** What [downloadModel] reads of a [fetch] response. *)
Record Response := {
  ok : bool;
  status : Z;
  statusText : string;
  hasBody : bool;
}.
End Http.

Definition opt_string_eqb (a b : option string) : bool :=
  match a, b with
  | Some x, Some y => String.eqb x y
  | None, None => true
  | _, _ => false
  end.

(** ** Throughput samples *)
Record Sample := { time : Z; bytes : Z }.

(** The [while] loop of [getRecentSpeed]: shift while the head is older than
    the cutoff. *)
Fixpoint shiftExpired (cutoff : Z) (samples : list Sample) : list Sample :=
  match samples with
  | [] => []
  | s :: rest => if time s <? cutoff then shiftExpired cutoff rest else samples
  end.

Definition sumBytes (samples : list Sample) : Z :=
  fold_left (fun sum s => sum + bytes s) samples 0.

(** [getRecentSpeed] with the clock reading and the sample array explicit:
    the returned speed and the array it leaves behind. *)
Definition recentSpeed (now : Z) (speedSamples : list Sample) : Q * list Sample :=
  let cutoff := now - SPEED_WINDOW_MS in
  let kept := shiftExpired cutoff speedSamples in
  match kept with
  | [] => (0%Q, kept)
  | oldest :: _ =>
      let totalBytes := sumBytes kept in
      let elapsed := (inject_Z (now - time oldest) / 1000)%Q in
      (if Qlt_le_dec 0 elapsed then (inject_Z totalBytes / elapsed)%Q else 0%Q, kept)
  end.

(** ** Pure functions that depend on the environment constants *)
Section Functions.
Variable env : Env.

Definition bearer (token : string) : Headers :=
  [("Authorization", "Bearer " +:+ token)].

Definition getAuthHeaders (url : string) : Headers :=
  if includes url "huggingface.co" && truthy (HF_TOKEN env) then bearer (HF_TOKEN env)
  else if includes url "civitai.com" && truthy (CIVITAI_TOKEN env) then bearer (CIVITAI_TOKEN env)
  else [].

Definition getDomain (url : string) : option string := hostname url.

(** The request listener of [startStatusServer].  It receives the status
    record and hands it back, so that what it does to it is visible. *)
Definition statusListener (st : StatusInternal) (req : Http.Request)
  : StatusInternal * Http.Reply :=
  if truthy (STATUS_TOKEN env) &&
     negb (opt_string_eqb (Http.authorization req) (Some ("Bearer " +:+ STATUS_TOKEN env)))
  then (st, {| Http.code := 401; Http.headers := []; Http.body := Http.Empty |})
  else if String.eqb (Http.url req) "/status"
  then (st, {| Http.code := 200;
               Http.headers := [("Content-Type", "application/json")];
               Http.body := Http.Json (serializeStatus st) |})
  else (st, {| Http.code := 404; Http.headers := []; Http.body := Http.Empty |}).

Record SkipDecision := { skip : bool; reason : option string }.

Definition destPathOf (m : Model) : string := TARGET_DIR env +:+ "/" +:+ dest m.

Definition checkNeedsDownload (fs : Fs.t) (m : Model) (remoteSize : Z) : SkipDecision :=
  let destPath := destPathOf m in
  match fs destPath with
  | None => {| skip := false; reason := None |}
  | Some st =>
      let localSize := Fs.size st in
      if truthy_opt (sha256 m) then
        let hash := Fs.sha256 st in
        if opt_string_eqb (Some hash) (sha256 m)
        then {| skip := true; reason := Some "hash match" |}
        else {| skip := false; reason := None |}
      else if (0 <? remoteSize) && (localSize =? remoteSize)
      then {| skip := true; reason := Some "size match" |}
      else if (0 <? remoteSize) && negb (localSize =? remoteSize)
      then {| skip := false; reason := None |}
      else {| skip := true; reason := Some "file exists" |}
  end.
End Functions.

(** ** [downloadModel] as a resumable computation

    [downloadModel] suspends at four kinds of [await].  [Await] says where a
    call is suspended (with the value of [totalWritten] where it is live),
    [Settle] is what the awaited operation delivers, and [Resume] is what the
    synchronous code that runs next ends in. *)

Module DownloadStatus.
Inductive t := success | failed.
Definition to_file (s : t) : FileStatus.t :=
  match s with
  | success => FileStatus.success
  | failed => FileStatus.failed
  end.
End DownloadStatus.

Module DownloadResult.
Record t := {
  status : DownloadStatus.t;
  reason : option string;
}.
Definition ok : t := {| status := DownloadStatus.success; reason := None |}.
Definition fail (why : string) : t :=
  {| status := DownloadStatus.failed; reason := Some why |}.
End DownloadResult.

Inductive Await :=
| AwaitFetch                          (* await fetch(model.url, ...) *)
| AwaitRead (totalWritten : Z)        (* await reader.read() *)
| AwaitFinished (totalWritten : Z)    (* await finished(fileStream) *)
| AwaitHash.                          (* await computeSha256(destPath) *)

Inductive Settle :=
| Responded (res : Http.Response)     (* fetch resolved *)
| Chunk (length : Z)                  (* read resolved: done false, value.length *)
| Done                                (* read resolved: done true *)
| Finished                            (* the write stream finished *)
| Hashed (hash : string)              (* the digest of the written file *)
| Rejected.                           (* the awaited promise rejected *)

Inductive Resume :=
| Suspend (a : Await) (progress : option Z)   (* next await; the onProgress argument, if called *)
| Return (result : DownloadResult.t)
| Throw.

(** One resumption of [downloadModel].  [None]: this settlement cannot
    arrive at this suspension point. *)
Definition downloadModel (m : ModelWithSize) (a : Await) (s : Settle) : option Resume :=
  match a, s with
  | _, Rejected => Some Throw
  | AwaitFetch, Responded res =>
      if negb (Http.ok res)
      then Some (Return (DownloadResult.fail
                           (show (Http.status res) +:+ " " +:+ Http.statusText res)))
      else if negb (Http.hasBody res)
      then Some (Return (DownloadResult.fail "no response body"))
      else Some (Suspend (AwaitRead 0) None)
  | AwaitRead totalWritten, Chunk len =>
      Some (Suspend (AwaitRead (totalWritten + len)) (Some len))
  | AwaitRead totalWritten, Done =>
      Some (Suspend (AwaitFinished totalWritten) None)
  | AwaitFinished totalWritten, Finished =>
      if (0 <? size m) && negb (totalWritten =? size m)
      then Some (Return (DownloadResult.fail
                           ("size mismatch: expected " +:+ show (size m) +:+
                            ", got " +:+ show totalWritten)))
      else if truthy_opt (sha256 m)
      then Some (Suspend AwaitHash None)
      else Some (Return DownloadResult.ok)
  | AwaitHash, Hashed hash =>
      if negb (opt_string_eqb (Some hash) (sha256 m))
      then Some (Return (DownloadResult.fail "hash mismatch"))
      else Some (Return DownloadResult.ok)
  | _, _ => None
  end.

(** A whole call, driven by the settlements it receives in order. *)
Inductive Outcome :=
| Pending (a : Await)
| Returned (result : DownloadResult.t)
| Threw
| Stuck.

Fixpoint runDownload (m : ModelWithSize) (a : Await) (settles : list Settle) : Outcome :=
  match settles with
  | [] => Pending a
  | s :: rest =>
      match downloadModel m a s with
      | None => Stuck
      | Some (Suspend a' _) => runDownload m a' rest
      | Some (Return result) => match rest with [] => Returned result | _ => Stuck end
      | Some Throw => match rest with [] => Threw | _ => Stuck end
      end
  end.

(** The settlements of a transfer that delivers the chunks [lens] in full. *)
Definition transfer (res : Http.Response) (lens : list Z) : list Settle :=
  Responded res :: map Chunk lens ++ [Done; Finished].

Definition totalLength (lens : list Z) : Z := fold_right Z.add 0 lens.

(** ** The worker's mutable state *)

(** A JavaScript [Set] of strings keeps insertion order. *)
Definition Set_add (x : string) (s : list string) : list string :=
  if decide (x ∈ s) then s else s ++ [x].
Definition Set_delete (x : string) (s : list string) : list string :=
  filter (fun y => y ≠ x) s.

Record World := {
  status : StatusInternal;
  speedSamples : list Sample;
  downloadStartTime : Z;
  activeFiles : list string;
  ticks : nat;                     (* how many times Date.now() was read *)
}.

Definition world0 : World := {|
  status := status0;
  speedSamples := [];
  downloadStartTime := 0;
  activeFiles := [];
  ticks := 0;
|}.

Definition with_status (f : StatusInternal -> StatusInternal) (w : World) : World :=
  {| status := f (status w); speedSamples := speedSamples w;
     downloadStartTime := downloadStartTime w; activeFiles := activeFiles w;
     ticks := ticks w |}.
Definition with_speedSamples (l : list Sample) (w : World) : World :=
  {| status := status w; speedSamples := l;
     downloadStartTime := downloadStartTime w; activeFiles := activeFiles w;
     ticks := ticks w |}.
Definition with_downloadStartTime (t : Z) (w : World) : World :=
  {| status := status w; speedSamples := speedSamples w;
     downloadStartTime := t; activeFiles := activeFiles w; ticks := ticks w |}.
Definition with_activeFiles (s : list string) (w : World) : World :=
  {| status := status w; speedSamples := speedSamples w;
     downloadStartTime := downloadStartTime w; activeFiles := s; ticks := ticks w |}.
Definition with_ticks (n : nat) (w : World) : World :=
  {| status := status w; speedSamples := speedSamples w;
     downloadStartTime := downloadStartTime w; activeFiles := activeFiles w;
     ticks := n |}.

Definition set_phase (p : Phase.t) (st : StatusInternal) : StatusInternal :=
  {| phase := p; currentFiles := currentFiles st; totalFiles := totalFiles st;
     overallDownloadedBytes := overallDownloadedBytes st;
     overallTotalBytes := overallTotalBytes st; speed := speed st;
     results := results st; error := error st |}.
Definition set_error (e : string) (st : StatusInternal) : StatusInternal :=
  {| phase := phase st; currentFiles := currentFiles st; totalFiles := totalFiles st;
     overallDownloadedBytes := overallDownloadedBytes st;
     overallTotalBytes := overallTotalBytes st; speed := speed st;
     results := results st; error := Some e |}.
Definition set_totalFiles (n : Z) (st : StatusInternal) : StatusInternal :=
  {| phase := phase st; currentFiles := currentFiles st; totalFiles := n;
     overallDownloadedBytes := overallDownloadedBytes st;
     overallTotalBytes := overallTotalBytes st; speed := speed st;
     results := results st; error := error st |}.
Definition set_speed_files (v : Q) (files : list string) (st : StatusInternal)
  : StatusInternal :=
  {| phase := phase st; currentFiles := files; totalFiles := totalFiles st;
     overallDownloadedBytes := overallDownloadedBytes st;
     overallTotalBytes := overallTotalBytes st; speed := v;
     results := results st; error := error st |}.
Definition add_downloaded (n : Z) (st : StatusInternal) : StatusInternal :=
  {| phase := phase st; currentFiles := currentFiles st; totalFiles := totalFiles st;
     overallDownloadedBytes := overallDownloadedBytes st + n;
     overallTotalBytes := overallTotalBytes st; speed := speed st;
     results := results st; error := error st |}.
Definition add_total (n : Z) (st : StatusInternal) : StatusInternal :=
  {| phase := phase st; currentFiles := currentFiles st; totalFiles := totalFiles st;
     overallDownloadedBytes := overallDownloadedBytes st;
     overallTotalBytes := overallTotalBytes st + n; speed := speed st;
     results := results st; error := error st |}.
Definition push_result (r : FileResult.t) (st : StatusInternal) : StatusInternal :=
  {| phase := phase st; currentFiles := currentFiles st; totalFiles := totalFiles st;
     overallDownloadedBytes := overallDownloadedBytes st;
     overallTotalBytes := overallTotalBytes st; speed := speed st;
     results := results st ++ [r]; error := error st |}.

(** ** [Map.groupBy]

    Keys in order of first appearance, every group in input order.  The key
    function may throw ([None]), and then so does [groupBy]. *)
Section GroupBy.
Context {A : Type}.

Fixpoint group_add (k : string) (x : A) (groups : list (string * list A))
  : list (string * list A) :=
  match groups with
  | [] => [(k, [x])]
  | (k', xs) :: rest =>
      if String.eqb k' k then (k', xs ++ [x]) :: rest
      else (k', xs) :: group_add k x rest
  end.

Fixpoint groupBy_from (key : A -> option string) (items : list A)
         (groups : list (string * list A)) : option (list (string * list A)) :=
  match items with
  | [] => Some groups
  | x :: rest =>
      match key x with
      | None => None
      | Some k => groupBy_from key rest (group_add k x groups)
      end
  end.

Definition groupBy (items : list A) (key : A -> option string)
  : option (list (string * list A)) :=
  groupBy_from key items [].
End GroupBy.

(** ** The worker process

    One activation of [downloadDomainQueue] is a [for ... of] loop over its
    array: [visited] are the elements the loop is past, [current] is the
    element whose [downloadModel] call is suspended (and where), [remaining]
    are the elements not reached yet.  [current = None] means the loop and
    the activation have ended. *)
Record Queue := {
  visited : list ModelWithSize;
  current : option (ModelWithSize * Await);
  remaining : list ModelWithSize;
}.

Inductive JobInput :=
| Unset                              (* MODELS is missing or empty *)
| Malformed                          (* JSON.parse throws *)
| Jobs (models : list Model).

(** Where [main] is suspended. *)
Inductive Main :=
| Boot (input : JobInput)            (* await startStatusServer() *)
| PreflightLoop (seen todo : list Model) (modelsWithSize : list ModelWithSize)
                                     (* inside the first loop, before [todo]'s head *)
| Downloading (modelsWithSize : list ModelWithSize) (queues : list Queue)
                                     (* await Promise.all(domainPromises) *)
| Exited                             (* main returned *)
| Crashed.                           (* main's promise rejected; the process dies *)

Record Config := { world : World; main : Main }.

(** What the outside delivers; each event resumes the worker once. *)
Inductive Event :=
| Listening                          (* the status server listens *)
| Probed (size : Z) (fs : Fs.t)      (* fetchFileSize answered [size]; the file
                                        system as checkNeedsDownload reads it *)
| Settled (q : nat) (s : Settle).    (* the operation queue [q] awaits settled *)

Definition initial (input : JobInput) : Config :=
  {| world := world0; main := Boot input |}.

Definition queueDone (q : Queue) : bool :=
  match current q with
  | None => true
  | Some _ => false
  end.

Section Worker.
Variable env : Env.
(** [clock n] is what the [n]-th call of [Date.now()] returns. *)
Variable clock : nat -> Z.

Definition Date_now (w : World) : Z * World :=
  (clock (ticks w), with_ticks (S (ticks w)) w).

Definition recordBytes (bytes : Z) (w : World) : World :=
  let '(now, w) := Date_now w in
  with_speedSamples (speedSamples w ++ [{| time := now; bytes := bytes |}]) w.

Definition getRecentSpeed (w : World) : Q * World :=
  let '(now, w) := Date_now w in
  let r := recentSpeed now (speedSamples w) in
  (fst r, with_speedSamples (snd r) w).

Definition updateStatus (currentFiles : list string) (w : World) : World :=
  let r := getRecentSpeed w in
  with_status (set_speed_files (fst r) currentFiles) (snd r).

(** The [onProgress] callback [downloadDomainQueue] passes down. *)
Definition onProgress (bytes : Z) (w : World) : World :=
  let w := with_status (add_downloaded bytes) w in
  let w := recordBytes bytes w in
  updateStatus (activeFiles w) w.

(** The head of the loop of [downloadDomainQueue], up to the first
    [await] inside [downloadModel]. *)
Definition enterLoop (q : Queue) (w : World) : Queue * World :=
  match remaining q with
  | [] => ({| visited := visited q; current := None; remaining := [] |}, w)
  | m :: rest =>
      let w := with_activeFiles (Set_add (dest m) (activeFiles w)) w in
      let w := updateStatus (activeFiles w) w in
      ({| visited := visited q; current := Some (m, AwaitFetch); remaining := rest |}, w)
  end.

(** The rest of the loop body once [downloadModel] has returned, and on
    to the next element. *)
Definition recordResult (m : ModelWithSize) (result : DownloadResult.t)
           (q : Queue) (w : World) : Queue * World :=
  let w := with_status
             (push_result {| FileResult.file := dest m;
                             FileResult.status :=
                               DownloadStatus.to_file (DownloadResult.status result);
                             FileResult.reason := DownloadResult.reason result |}) w in
  let w := with_activeFiles (Set_delete (dest m) (activeFiles w)) w in
  let w := updateStatus (activeFiles w) w in
  enterLoop {| visited := visited q ++ [m]; current := None; remaining := remaining q |} w.

(** [domainPromises]: every activation runs up to its first [await], in
    the order of the groups. *)
Fixpoint startQueues (groups : list (list ModelWithSize)) (w : World)
  : list Queue * World :=
  match groups with
  | [] => ([], w)
  | g :: rest =>
      let first := enterLoop {| visited := []; current := None; remaining := g |} w in
      let others := startQueues rest (snd first) in
      (fst first :: fst others, snd others)
  end.

(** What follows [await Promise.all(domainPromises)]. *)
Definition epilogue (w : World) : Config :=
  let finalStatus := serializeStatus (status w) in
  let '(_, w) := Date_now w in
  let p := if Nat.ltb 0 (failed finalStatus) then Phase.failed else Phase.completed in
  {| world := with_status (set_phase p) w; main := Exited |}.

(** [await Promise.all]: stay suspended while an activation is running. *)
Definition joinAll (modelsWithSize : list ModelWithSize) (queues : list Queue)
           (w : World) : Config :=
  if forallb queueDone queues then epilogue w
  else {| world := w; main := Downloading modelsWithSize queues |}.

(** [main] from the end of the first loop to [await Promise.all]. *)
Definition afterPreflight (modelsWithSize : list ModelWithSize) (w : World) : Config :=
  match modelsWithSize with
  | [] => {| world := with_status (set_phase Phase.completed) w; main := Exited |}
  | _ :: _ =>
      let w := with_status (set_phase Phase.downloading) w in
      let '(now, w) := Date_now w in
      let w := with_downloadStartTime now w in
      match groupBy modelsWithSize (fun m => getDomain (url m)) with
      | None => {| world := w; main := Crashed |}
      | Some byDomain =>
          let w := with_activeFiles [] w in
          let started := startQueues (map snd byDomain) w in
          joinAll modelsWithSize (fst started) (snd started)
      end
  end.

Definition continuePreflight (seen todo : list Model)
           (modelsWithSize : list ModelWithSize) (w : World) : Config :=
  match todo with
  | [] => afterPreflight modelsWithSize w
  | _ :: _ => {| world := w; main := PreflightLoop seen todo modelsWithSize |}
  end.

(** The body of the first loop of [main] for the entry [m]. *)
Definition preflightBody (m : Model) (size : Z) (fs : Fs.t)
           (modelsWithSize : list ModelWithSize) (w : World)
  : list ModelWithSize * World :=
  let d := checkNeedsDownload env fs m size in
  if skip d
  then (modelsWithSize,
        with_status (push_result {| FileResult.file := dest m;
                                    FileResult.status := FileStatus.skipped;
                                    FileResult.reason := reason d |}) w)
  else (modelsWithSize ++ [{| model := m; size := size |}],
        with_status (add_total size) w).

(** [main] from the listening server to the first probe. *)
Definition boot (input : JobInput) (w : World) : Config :=
  match input with
  | Unset =>
      let w := with_status (set_phase Phase.failed) w in
      let w := with_status (set_error "MODELS environment variable is not set") w in
      {| world := w; main := Exited |}
  | Malformed => {| world := w; main := Crashed |}
  | Jobs models =>
      let w := with_status (set_totalFiles (Z.of_nat (length models))) w in
      continuePreflight [] models [] w
  end.

Definition resumeQueue (modelsWithSize : list ModelWithSize) (queues : list Queue)
           (i : nat) (s : Settle) (w : World) : option Config :=
  match queues !! i with
  | None => None
  | Some q =>
      match current q with
      | None => None
      | Some (m, a) =>
          match downloadModel m a s with
          | None => None
          | Some Throw => Some {| world := w; main := Crashed |}
          | Some (Suspend a' progress) =>
              let w := match progress with
                       | Some bytes => onProgress bytes w
                       | None => w
                       end in
              let q' := {| visited := visited q; current := Some (m, a');
                           remaining := remaining q |} in
              Some {| world := w; main := Downloading modelsWithSize (<[i := q']> queues) |}
          | Some (Return result) =>
              let r := recordResult m result q w in
              Some (joinAll modelsWithSize (<[i := fst r]> queues) (snd r))
          end
      end
  end.

Definition step (c : Config) (e : Event) : option Config :=
  match main c, e with
  | Boot input, Listening => Some (boot input (world c))
  | PreflightLoop seen (m :: todo) modelsWithSize, Probed size fs =>
      let r := preflightBody m size fs modelsWithSize (world c) in
      Some (continuePreflight (seen ++ [m]) todo (fst r) (snd r))
  | Downloading modelsWithSize queues, Settled i s =>
      resumeQueue modelsWithSize queues i s (world c)
  | _, _ => None
  end.

Fixpoint run (c : Config) (events : list Event) : option Config :=
  match events with
  | [] => Some c
  | e :: rest =>
      match step c e with
      | None => None
      | Some c' => run c' rest
      end
  end.

(** The ticker's percentage, before rounding. *)
Definition percent (st : StatusInternal) : Q :=
  if 0 <? overallTotalBytes st
  then (inject_Z (overallDownloadedBytes st) / inject_Z (overallTotalBytes st) * 100)%Q
  else 0%Q.
End Worker.

(** ** The orchestration poller ([commands/setup.ts])

    The part of [setup] that follows the bundling of the worker: the retry
    loop, [pollDownloadProgress], and the final report.  The calls to the
    cloud client are recorded as [Action]s; what they and the clock answer is
    an input, and every call is taken to answer (a call that throws ends
    [setup] at once and is not part of this model). *)
Module Poller.

(** The fields of the polled status document the control flow reads. *)
Record DownloadStatus := {
  phase : Phase.t;
  failed : option Z;
  results : option (list FileResult.t);
  error : option string;
}.

(** One round of the polling loop: what [fetchStatus] returned ([None] for
    a network error, a non-2xx answer or a timeout) and the [Date.now()]
    read in that round. *)
Record Poll := { answer : option DownloadStatus; at_ : Z }.

Inductive PollResult :=
| Terminal (st : DownloadStatus)
| Unresponsive.

Definition UNRESPONSIVE_TIMEOUT_MS : Z := 180000.
Definition maxAttempts : nat := 5.

(** The [for (;;)] loop.  [None]: the rounds given do not end it. *)
Fixpoint pollLoop (unresponsiveTimeoutMs lastSuccessTime : Z) (polls : list Poll)
  : option PollResult :=
  match polls with
  | [] => None
  | p :: rest =>
      match answer p with
      | Some st =>
          if Phase.terminal (phase st) then Some (Terminal st)
          else pollLoop unresponsiveTimeoutMs (at_ p) rest
      | None =>
          if unresponsiveTimeoutMs <=? at_ p - lastSuccessTime
          then Some Unresponsive
          else pollLoop unresponsiveTimeoutMs lastSuccessTime rest
      end
  end.

(** [started] is the first [Date.now()], read before the loop. *)
Definition pollDownloadProgress (started : Z) (polls : list Poll) : option PollResult :=
  pollLoop UNRESPONSIVE_TIMEOUT_MS started polls.

Record Pod := {
  id : string;
  desiredStatus : string;
  STATUS_TOKEN_of : option string;       (* env?.STATUS_TOKEN *)
}.

(** What one pass of the retry loop meets. *)
Record Attempt := {
  existingPod : option Pod;              (* findPodByName *)
  randomToken : string;                  (* randomBytes(16).toString("hex") *)
  createdId : string;                    (* the id of the pod createPod returns *)
  running : bool;                        (* waitForPodRunning *)
  pollStarted : Z;
  polls : list Poll;
}.

Inductive Action :=
| DeletePod (podId : string)
| CreatePod (statusToken podId : string)
| WaitForPodRunning (podId : string)
| PollStatus (podId statusToken : string).

Inductive AttemptEnd :=
| Continue                               (* [continue]: on to the next attempt *)
| Break (finalStatus : DownloadStatus)
| Raise (message : string)
| Hang.                                  (* the polling loop does not end *)

Definition live (p : Pod) : bool := negb (String.eqb (desiredStatus p) "TERMINATED").

(** After the pod to use is known. *)
Definition useHost (a : Attempt) (cpuPodId statusToken : string)
  : list Action * AttemptEnd :=
  if negb (running a)
  then ([WaitForPodRunning cpuPodId; DeletePod cpuPodId], Continue)
  else
    match pollDownloadProgress (pollStarted a) (polls a) with
    | None => ([WaitForPodRunning cpuPodId; PollStatus cpuPodId statusToken], Hang)
    | Some Unresponsive =>
        ([WaitForPodRunning cpuPodId; PollStatus cpuPodId statusToken;
          DeletePod cpuPodId], Continue)
    | Some (Terminal st) =>
        ([WaitForPodRunning cpuPodId; PollStatus cpuPodId statusToken;
          DeletePod cpuPodId], Break st)
    end.

Definition prepend (acts : list Action) (r : list Action * AttemptEnd)
  : list Action * AttemptEnd :=
  (acts ++ fst r, snd r).

(** [existingPod && existingPod.desiredStatus !== "TERMINATED"]. *)
Definition liveExisting (a : Attempt) : option Pod :=
  match existingPod a with
  | Some p => if live p then Some p else None
  | None => None
  end.

Definition createAndUse (a : Attempt) : list Action * AttemptEnd :=
  prepend [CreatePod (randomToken a) (createdId a)]
          (useHost a (createdId a) (randomToken a)).

(** The body of the [for] loop for the given attempt number. *)
Definition runAttempt (attempt : nat) (a : Attempt) : list Action * AttemptEnd :=
  let deleted :=
    match liveExisting a with
    | Some p => if Nat.ltb 1 attempt then [DeletePod (id p)] else []
    | None => []
    end in
  match liveExisting a with
  | Some p =>
      if Nat.eqb attempt 1 then
        let statusToken := default "" (STATUS_TOKEN_of p) in
        if negb (truthy statusToken)
        then (deleted, Raise "Existing pod has no STATUS_TOKEN in env")
        else prepend deleted (useHost a (id p) statusToken)
      else prepend deleted (createAndUse a)
  | None => prepend deleted (createAndUse a)
  end.

(** [for (let attempt = ...; attempt <= maxAttempts; attempt++)] with
    [togo] passes left; [None] as the final status: the loop ran out. *)
Fixpoint retryLoop (meets : nat -> Attempt) (togo attempt : nat)
  : list Action * option AttemptEnd :=
  match togo with
  | O => ([], None)
  | S togo' =>
      let '(acts, e) := runAttempt attempt (meets attempt) in
      match e with
      | Continue =>
          let '(acts', r) := retryLoop meets togo' (S attempt) in
          (acts ++ acts', r)
      | _ => (acts, Some e)
      end
  end.

Inductive SetupResult :=
| Complete (finalStatus : DownloadStatus)
| Thrown (message : string)
| Diverges.

Definition show_opt (o : option Z) : string :=
  match o with
  | Some z => show z
  | None => "undefined"
  end.

Definition exhaustedMessage : string :=
  "Download failed after " +:+ show (Z.of_nat maxAttempts) +:+
  " attempts due to unresponsive pods".

Definition failedMessage (st : DownloadStatus) : string :=
  "Download failed: " +:+ show_opt (failed st) +:+ " file(s) failed. " +:+
  match error st with
  | Some e => e
  | None => ""
  end.

Definition setup (meets : nat -> Attempt) : list Action * SetupResult :=
  let '(acts, r) := retryLoop meets maxAttempts 1 in
  (acts,
   match r with
   | None | Some Continue => Thrown exhaustedMessage
   | Some (Raise msg) => Thrown msg
   | Some Hang => Diverges
   | Some (Break finalStatus) =>
       match phase finalStatus with
       | Phase.failed => Thrown (failedMessage finalStatus)
       | _ => Complete finalStatus
       end
   end).

(** The time of the last answered round of [polls], or [started]. *)
Fixpoint lastSuccess (started : Z) (polls : list Poll) : Z :=
  match polls with
  | [] => started
  | p :: rest =>
      match answer p with
      | Some _ => lastSuccess (at_ p) rest
      | None => lastSuccess started rest
      end
  end.

Definition answered (p : Poll) : bool :=
  match answer p with
  | Some _ => true
  | None => false
  end.

Definition CreatePods (acts : list Action) : list (string * string) :=
  flat_map (fun a => match a with CreatePod t i => [(t, i)] | _ => [] end) acts.

(** The actions of the attempts [from], [from + 1], ... ([count] of them). *)
Definition actionsOf (meets : nat -> Attempt) (from count : nat) : list Action :=
  flat_map (fun k => fst (runAttempt k (meets k))) (seq from count).

(** An attempt that is given up: the host did not start, or the polling
    was aborted as unresponsive. *)
Definition givenUp (a : Attempt) : Prop :=
  running a = false \/
  pollDownloadProgress (pollStarted a) (polls a) = Some Unresponsive.
End Poller.

(** ** Shorthands used in the statements *)

Definition mustDownload : SkipDecision := {| skip := false; reason := None |}.
Definition skipBecause (why : string) : SkipDecision :=
  {| skip := true; reason := Some why |}.

(** The probed size is known and the transfer wrote another number of bytes. *)
Definition sizeMismatch (m : ModelWithSize) (written : Z) : Prop :=
  size m <> 0 /\ written <> size m.

(** [needle] occurs in [s]. *)
Definition occurs_in (needle s : string) : Prop :=
  exists pre post, s = pre +:+ needle +:+ post.

(** Samples in the order of their time stamps. *)
Fixpoint chronological (samples : list Sample) : Prop :=
  match samples with
  | [] => True
  | s :: rest => Forall (fun s' => time s <= time s') rest /\ chronological rest
  end.

Definition in_window (now : Z) (s : Sample) : bool := now - SPEED_WINDOW_MS <=? time s.

(** A clock that never goes back. *)
Definition monotone (clock : nat -> Z) : Prop := forall n, clock n <= clock (S n).

(** The samples are in time order and none is later than the next reading
    of the clock. *)
Definition SamplesInv (clock : nat -> Z) (w : World) : Prop :=
  chronological (speedSamples w) /\
  Forall (fun s => time s <= clock (ticks w)) (speedSamples w).

(** ** Reading a run

    What the statements about runs refer to: the entries of an activation,
    the downloads in flight, and what a sequence of events says about probes
    and chunks. *)

Definition inFlight (q : Queue) : list ModelWithSize :=
  match current q with
  | Some (m, _) => [m]
  | None => []
  end.

(** The array an activation of [downloadDomainQueue] iterates over. *)
Definition entries (q : Queue) : list ModelWithSize :=
  visited q ++ inFlight q ++ remaining q.

(** The entries whose [downloadModel] call is running. *)
Definition activeEntries (queues : list Queue) : list ModelWithSize :=
  concat (map inFlight queues).

(** The entries whose [downloadModel] call has returned. *)
Definition terminatedEntries (queues : list Queue) : list ModelWithSize :=
  concat (map visited queues).

Definition probesOf (events : list Event) : list (Z * Fs.t) :=
  flat_map (fun e => match e with
                     | Probed size fs => [(size, fs)]
                     | _ => []
                     end) events.

(** The bytes of all the chunks delivered. *)
Definition chunkBytes (events : list Event) : Z :=
  fold_right (fun e acc => match e with
                           | Settled _ (Chunk len) => len + acc
                           | _ => acc
                           end) 0 events.

Definition sumSizes (ms : list ModelWithSize) : Z :=
  fold_right (fun m acc => size m + acc) 0 ms.

Section Classification.
Variable env : Env.

Definition decisionOf (p : Model * (Z * Fs.t)) : SkipDecision :=
  checkNeedsDownload env (snd (snd p)) (fst p) (fst (snd p)).

(** The probed entries that must be downloaded, with their probed size. *)
Definition classify (probed : list (Model * (Z * Fs.t))) : list ModelWithSize :=
  flat_map (fun p => if skip (decisionOf p) then []
                     else [{| model := fst p; size := fst (snd p) |}]) probed.

(** The probed entries that are skipped. *)
Definition skippedEntries (probed : list (Model * (Z * Fs.t))) : list Model :=
  flat_map (fun p => if skip (decisionOf p) then [fst p] else []) probed.

(** The results the first loop records for them. *)
Definition skippedResults (probed : list (Model * (Z * Fs.t))) : list FileResult.t :=
  flat_map (fun p => if skip (decisionOf p)
                     then [{| FileResult.file := dest (fst p);
                              FileResult.status := FileStatus.skipped;
                              FileResult.reason := reason (decisionOf p) |}]
                     else []) probed.
End Classification.

(** The bytes the first loop adds to [overallTotalBytes]: the probed size of
    every entry that is not skipped. *)
Definition neededBytes (env : Env) (probed : list (Model * (Z * Fs.t))) : Z :=
  fold_right (fun p acc => (if skip (decisionOf env p) then 0 else fst (snd p)) + acc)
             0 probed.

Definition is_skipped (r : FileResult.t) : Prop :=
  FileResult.status r = FileStatus.skipped.
Definition is_failed (r : FileResult.t) : Prop :=
  FileResult.status r = FileStatus.failed.

Definition hostOf (m : ModelWithSize) : option string := getDomain (url m).

(** The grouping of [items] by [key]: distinct keys, every group non-empty
    and made of the items of its key in their order, every item in a
    group. *)
Definition Grouping {A : Type} (key : A -> option string) (items : list A)
           (groups : list (string * list A)) : Prop :=
  NoDup (map fst groups) /\
  (forall k g, (k, g) ∈ groups ->
     g <> [] /\ g = List.filter (fun x => opt_string_eqb (key x) (Some k)) items) /\
  (forall x, x ∈ items -> exists k, key x = Some k /\ k ∈ map fst groups) /\
  concat (map snd groups) ≡ₚ items.

Definition destOf (m : ModelWithSize) : string := dest m.

(** The fields of the status record the claims are about. *)
Definition ledger (w : World)
  : Phase.t * list FileResult.t * Z * Z * Z * option string :=
  (phase (status w), results (status w), overallTotalBytes (status w),
   overallDownloadedBytes (status w), totalFiles (status w), error (status w)).

(** ** The invariant of a run

    What holds of a configuration reached from [initial input] by [events]. *)
Section Invariant.
Variable env : Env.

(** The activations are the groups of [modelsWithSize] by host; one that
    has ended has visited all its array; one at least is running. *)
Definition QueuesInv (modelsWithSize : list ModelWithSize) (queues : list Queue) : Prop :=
  (exists groups,
     Grouping hostOf modelsWithSize groups /\ map entries queues = map snd groups) /\
  Forall (fun q => current q = None -> remaining q = []) queues /\
  Exists (fun q => current q <> None) queues.

(** The results are those of the skipped entries, in the order of the job
    list, followed by one per download in [done], none of them skipped. *)
Definition ResultsInv (R : relation (list string))
           (probed : list (Model * (Z * Fs.t))) (done : list ModelWithSize)
           (st : StatusInternal) : Prop :=
  exists rd,
    results st = skippedResults env probed ++ rd /\
    R (map FileResult.file rd) (map destOf done) /\
    Forall (fun r => ~ is_skipped r) rd.

Definition Inv (input : JobInput) (events : list Event) (c : Config) : Prop :=
  let st := status (world c) in
  let ps := probesOf events in
  overallDownloadedBytes st = chunkBytes events /\
  match main c with
  | Boot i => i = input /\ world c = world0 /\ events = []
  | PreflightLoop seen todo mws =>
      exists models,
        input = Jobs models /\ models = seen ++ todo /\ todo <> [] /\
        length ps = length seen /\
        mws = classify env (zip seen ps) /\
        results st = skippedResults env (zip seen ps) /\
        phase st = Phase.preflight /\
        overallTotalBytes st = sumSizes mws /\
        totalFiles st = Z.of_nat (length models)
  | Downloading mws queues =>
      exists models,
        input = Jobs models /\ length ps = length models /\
        mws = classify env (zip models ps) /\ mws <> [] /\
        ResultsInv Permutation (zip models ps) (terminatedEntries queues) st /\
        phase st = Phase.downloading /\
        overallTotalBytes st = sumSizes mws /\
        totalFiles st = Z.of_nat (length models) /\
        QueuesInv mws queues
  | Exited =>
      (input = Unset /\ ledger (world c)
         = (Phase.failed, [], 0, 0, 0, Some "MODELS environment variable is not set")) \/
      (exists models,
         input = Jobs models /\ length ps = length models /\
         ResultsInv Permutation (zip models ps) (classify env (zip models ps)) st /\
         (phase st = Phase.failed /\ Exists is_failed (results st) \/
          phase st = Phase.completed /\ ~ Exists is_failed (results st)) /\
         (classify env (zip models ps) = [] -> phase st = Phase.completed) /\
         overallTotalBytes st = sumSizes (classify env (zip models ps)) /\
         totalFiles st = Z.of_nat (length models))
  | Crashed =>
      (input = Malformed /\ world c = world0) \/
      (exists models,
         input = Jobs models /\ length ps = length models /\
         classify env (zip models ps) <> [] /\
         ResultsInv submseteq (zip models ps) (classify env (zip models ps)) st /\
         phase st = Phase.downloading /\
         overallTotalBytes st = sumSizes (classify env (zip models ps)) /\
         totalFiles st = Z.of_nat (length models))
  end.
End Invariant.

(** A file system in which the destination of [m] is in place, with the
    configured digest if there is one. *)
Definition found_in_place (m : Model) : Fs.t :=
  fun _ => Some {| Fs.size := 0; Fs.sha256 := default "" (sha256 m) |}.

Definition all_in_place (models : list Model) : list Event :=
  Listening :: map (fun m => Probed 0 (found_in_place m)) models.

(** Settlements that bring a suspended [downloadModel] call to its return:
    the server answers 404, or the stream ends here and the digest read is
    the empty string. *)
Definition answer404 : Http.Response :=
  {| Http.ok := false; Http.status := 404; Http.statusText := "Not Found";
     Http.hasBody := false |}.

Definition afterEnd (m : ModelWithSize) (totalWritten : Z) : list Settle :=
  Finished ::
  (if (0 <? size m) && negb (totalWritten =? size m) then []
   else if truthy_opt (sha256 m) then [Hashed ""] else []).

Definition drain (m : ModelWithSize) (a : Await) : list Settle :=
  match a with
  | AwaitFetch => [Responded answer404]
  | AwaitRead totalWritten => Done :: afterEnd m totalWritten
  | AwaitFinished totalWritten => afterEnd m totalWritten
  | AwaitHash => [Hashed ""]
  end.

(** The entries an activation has not finished. *)
Definition unfinished (queues : list Queue) : nat :=
  length (concat (map (fun q => inFlight q ++ remaining q) queues)).

(** * Further functions of the sources *)

(** ** Numbers read from text *)

(** A JavaScript number that is an integer, or [NaN]. *)
Inductive Num :=
| NaN
| Int (z : Z).

Definition is_digit (c : ascii) : bool :=
  let n := nat_of_ascii c in (Nat.leb 48 n && Nat.leb n 57)%nat.

Definition digit_value (c : ascii) : Z := Z.of_nat (nat_of_ascii c) - 48.

Definition starts_with_digit (s : string) : bool :=
  match s with
  | String c _ => is_digit c
  | EmptyString => false
  end.

(** The value of the longest prefix of decimal digits of [s], read after
    the digits that gave [acc]. *)
Fixpoint digits (acc : Z) (s : string) : Z :=
  match s with
  | String c s' => if is_digit c then digits (10 * acc + digit_value c) s' else acc
  | EmptyString => acc
  end.

(** The white space [parseInt] skips, as far as ASCII has it. *)
Definition is_space (c : ascii) : bool :=
  let n := nat_of_ascii c in (Nat.eqb n 32 || (Nat.leb 9 n && Nat.leb n 13))%nat.

Fixpoint trimStart (s : string) : string :=
  match s with
  | String c s' => if is_space c then trimStart s' else s
  | EmptyString => EmptyString
  end.

(** [parseInt(s, 10)]. *)
Definition parseInt (s : string) : Num :=
  match trimStart s with
  | String "-" s' => if starts_with_digit s' then Int (- digits 0 s') else NaN
  | String "+" s' => if starts_with_digit s' then Int (digits 0 s') else NaN
  | s' => if starts_with_digit s' then Int (digits 0 s') else NaN
  end.

Fixpoint digit_prefix (s : string) : string :=
  match s with
  | String c s' => if is_digit c then String c (digit_prefix s') else EmptyString
  | EmptyString => EmptyString
  end.

(** [s.match(/\/(\d+)/)], the capture group: the digits after the first
    [/] that a digit follows. *)
Fixpoint matchTotal (s : string) : option string :=
  match s with
  | String c s' =>
      if Ascii.eqb c "/" && starts_with_digit s' then Some (digit_prefix s')
      else matchTotal s'
  | EmptyString => None
  end.

(** ** The size probe ([fetchFileSize]) *)

Module Probe.
(** What [fetchFileSize] reads of the response to its ranged request;
    [headers.get] answers [null] for a header that is absent. *)
Record Response := {
  status : Z;
  contentRange : option string;
  contentLength : option string;
}.

(** [res.ok]: the status is in the range 200-299. *)
Definition ok (res : Response) : bool := (200 <=? status res) && (status res <=? 299).

(** [await fetch(...)] resolves with a response, or rejects (network
    error, or the 30 s timeout) with an error of the given message. *)
Inductive Answer :=
| Responds (res : Response)
| Rejects (message : string).
End Probe.

(** [h || "0"] for a header value. *)
Definition or_zero (h : option string) : string :=
  match h with
  | Some s => if truthy s then s else "0"
  | None => "0"
  end.

(** The [if (res.status === 206)] block: the value it returns, if it
    returns. *)
Definition totalOfRange (res : Probe.Response) : option Num :=
  if Probe.status res =? 206 then
    match Probe.contentRange res with
    | Some contentRange =>
        if truthy contentRange then
          match matchTotal contentRange with
          | Some digits => Some (parseInt digits)
          | None => None
          end
        else None
    | None => None
    end
  else None.

(** [fetchFileSize] of [downloader.ts], on what its [fetch] delivers. *)
Definition fetchFileSize (answer : Probe.Answer) : Num :=
  match answer with
  | Probe.Rejects _ => Int 0
  | Probe.Responds res =>
      match totalOfRange res with
      | Some n => n
      | None =>
          if Probe.ok res || (Probe.status res =? 206)
          then parseInt (or_zero (Probe.contentLength res))
          else Int 0
      end
  end.

(** ** The [estimate] command ([commands/estimate.ts]) *)

Module Estimate.

Definition getAuthHeaders (url hfToken civitaiToken : string) : Headers :=
  if includes url "huggingface.co" && truthy hfToken then bearer hfToken
  else if includes url "civitai.com" && truthy civitaiToken then bearer civitaiToken
  else [].

(** This [fetchFileSize] has no [try]: it returns a number or throws. *)
Inductive Fetched :=
| Size (n : Num)
| Throws (message : string).

Definition fetchFileSize (answer : Probe.Answer) : Fetched :=
  match answer with
  | Probe.Rejects message => Throws message
  | Probe.Responds res =>
      match totalOfRange res with
      | Some n => Size n
      | None =>
          if Probe.ok res || (Probe.status res =? 206)
          then Size (parseInt (or_zero (Probe.contentLength res)))
          else Throws ("Failed to get size: " +:+ show (Probe.status res))
      end
  end.

(** [a + b] on numbers. *)
Definition plus (a b : Num) : Num :=
  match a, b with
  | Int x, Int y => Int (x + y)
  | _, _ => NaN
  end.

Module Line.
Record t := {
  dest : string;
  size : Num;
  error : option string;
}.
End Line.

Record Report := {
  results : list Line.t;
  totalBytes : Num;
  recommended : Num;
}.

(** The body of the loop for one model: the line pushed and the new total. *)
Definition probeOne (probe : Model -> Probe.Answer) (acc : list Line.t * Num) (m : Model)
  : list Line.t * Num :=
  match fetchFileSize (probe m) with
  | Size n =>
      (fst acc ++ [{| Line.dest := dest m; Line.size := n; Line.error := None |}],
       plus (snd acc) n)
  | Throws message =>
      (fst acc ++ [{| Line.dest := dest m; Line.size := Int 0; Line.error := Some message |}],
       snd acc)
  end.

Definition GiB : Z := 1024 * 1024 * 1024.

(** [Math.ceil(totalBytes / (1024 * 1024 * 1024) + 5)]. *)
Definition recommend (totalBytes : Num) : Num :=
  match totalBytes with
  | Int b => Int (Qceiling (inject_Z b / inject_Z GiB + 5))
  | NaN => NaN
  end.

(** [None]: nothing is configured, and nothing is probed. *)
Definition estimate (models : list Model) (probe : Model -> Probe.Answer)
  : option Report :=
  match models with
  | [] => None
  | _ :: _ =>
      let r := fold_left (probeOne probe) models ([], Int 0) in
      Some {| results := fst r; totalBytes := snd r; recommended := recommend (snd r) |}
  end.
End Estimate.

(** The sum of the sizes the worker's probe gives for the same answers. *)
Definition probedTotal (models : list Model) (probe : Model -> Probe.Answer) : Num :=
  fold_left (fun acc m => Estimate.plus acc (fetchFileSize (probe m))) models (Int 0).

(** ** Durations as text ([formatDuration]) *)

Definition formatDuration (ms : Q) : string :=
  let seconds := Qfloor (ms / 1000) in
  if seconds <? 60 then show seconds +:+ "s"
  else
    let minutes := seconds / 60 in
    let secs := Z.rem seconds 60 in
    if minutes <? 60 then show minutes +:+ "m" +:+ show secs +:+ "s"
    else
      let hours := minutes / 60 in
      let mins := Z.rem minutes 60 in
      show hours +:+ "h" +:+ show mins +:+ "m".

(** What the text of a duration of [seconds] whole seconds tells: the
    seconds below one hour, the whole minutes from there on. *)
Definition shownSeconds (seconds : Z) : Z :=
  if seconds <? 3600 then seconds else 60 * (seconds / 60).

(** ** Byte counts as text ([formatBytes]) *)

(** [s.padStart(width, "0")]. *)
Definition padZeros (width : nat) (s : string) : string :=
  String.concat "" (repeat "0"%string (width - String.length s)) +:+ s.

(** [x.toFixed(fractionDigits)] for [0 <= x < 10^21]: [n] is the integer
    for which [n / 10^fractionDigits] is nearest to [x], the larger one if
    two are equally near; it is printed with the point before its last
    [fractionDigits] digits. *)
Definition toFixed (fractionDigits : nat) (x : Q) : string :=
  let scale := 10 ^ Z.of_nat fractionDigits in
  let n := Qfloor (x * inject_Z scale + (1 # 2)) in
  match fractionDigits with
  | O => show n
  | S _ => show (n / scale) +:+ "." +:+ padZeros fractionDigits (show (n mod scale))
  end.

(** [formatBytes] on a whole number of bytes (the divisions are exact in
    floating point below 2^53). *)
Definition formatBytes (bytes : Z) : string :=
  if bytes <? 1024 then show bytes +:+ " B"
  else if bytes <? 1024 * 1024
  then toFixed 1 (inject_Z bytes / inject_Z 1024) +:+ " KB"
  else if bytes <? 1024 * 1024 * 1024
  then toFixed 1 (inject_Z bytes / inject_Z (1024 * 1024)) +:+ " MB"
  else toFixed 2 (inject_Z bytes / inject_Z (1024 * 1024 * 1024)) +:+ " GB".

(** The number of tenths (hundredths) of [unit] nearest to [bytes]. *)
Definition nearest (parts bytes unit : Z) : Z := (2 * parts * bytes + unit) / (2 * unit).

(** ** Waiting for a host to run ([waitForPodRunning]) *)

Module Wait.
(** One round of the [while] loop: the [Date.now()] of the loop test and
    the [desiredStatus] [getPod] answers if the test passes. *)
Record Round := { now : Z; desiredStatus : string }.

Definition isRunning (r : Round) : bool := String.eqb (desiredStatus r) "RUNNING".

(** [Some true]: RUNNING was seen; [Some false]: the loop test failed;
    [None]: the rounds given do not end the loop. *)
Fixpoint waitLoop (timeoutMs start : Z) (rounds : list Round) : option bool :=
  match rounds with
  | [] => None
  | r :: rest =>
      if now r - start <? timeoutMs then
        if isRunning r then Some true else waitLoop timeoutMs start rest
      else Some false
  end.

(** The sleep at the end of a round. *)
Definition INTERVAL_MS : Z := 5000.

(** [waitForPodRunning] of [setup.ts], with its default timeout; the result
    is what it returns. *)
Definition waitForPodRunning (start : Z) (rounds : list Round) : option bool :=
  waitLoop 180000 start rounds.

(** [waitForPodRunning] of [start.ts]: the default timeout is 300 s and
    [false] stands for the error it throws. *)
Definition waitForPodRunning_start (start : Z) (rounds : list Round) : option bool :=
  waitLoop 300000 start rounds.
End Wait.

(** ** Creating a host ([RunpodClient.createPod]) *)

Module CreatePod.
(** One round of the [for (;;)] loop: what [POST /pods] answers ([data?.id]
    and the response status) and the [Date.now()] of the timeout test. *)
Record Round := {
  dataId : option string;
  status : Z;
  now : Z;
}.

Inductive Result :=
| Created (id : string)
| Fails.                             (* throws "Failed to create pod: ..." *)

Definition RETRY_INTERVAL_MS : Z := 30000.
Definition RETRY_TIMEOUT_MS : Z := 1800000.

(** The test that ends the retrying of a round that created nothing. *)
Definition givesUp (retryTimeoutMs start : Z) (r : Round) : bool :=
  (status r =? 401) || (status r =? 403) || (retryTimeoutMs <=? now r - start).

Fixpoint createLoop (retryTimeoutMs start : Z) (rounds : list Round) : option Result :=
  match rounds with
  | [] => None
  | r :: rest =>
      if truthy_opt (dataId r) then Some (Created (default "" (dataId r)))
      else if givesUp retryTimeoutMs start r then Some Fails
      else createLoop retryTimeoutMs start rest
  end.

Definition createPod (start : Z) (rounds : list Round) : option Result :=
  createLoop RETRY_TIMEOUT_MS start rounds.

(** A round after which the loop sleeps and posts again. *)
Definition retried (start : Z) (r : Round) : Prop :=
  truthy_opt (dataId r) = false /\ status r <> 401 /\ status r <> 403 /\
  now r - start < RETRY_TIMEOUT_MS.
End CreatePod.

(** ** The poller's view of the worker ([fetchStatus]) *)

(** What [res.json()] gives the poller for the document the worker sent:
    the fields of [Poller.DownloadStatus], all present but [error], which
    [JSON.stringify] leaves out when it is undefined. *)
Definition pollerView (d : StatusDocument) : Poller.DownloadStatus := {|
  Poller.phase := phase (doc d);
  Poller.failed := Some (Z.of_nat (failed d));
  Poller.results := Some (results (doc d));
  Poller.error := error (doc d);
|}.

(** The request [fetchStatus] sends, as the worker's listener receives it. *)
Definition statusRequest (token : string) : Http.Request := {|
  Http.method := "GET";
  Http.url := "/status";
  Http.authorization := Some ("Bearer " +:+ token);
|}.

(** [fetchStatus] on what its [fetch] delivers: [None] is a rejection or
    the 10 s timeout.  An answer that is not ok, or whose body is not JSON,
    gives [null]. *)
Definition fetchStatus (reply : option Http.Reply) : option Poller.DownloadStatus :=
  match reply with
  | None => None
  | Some r =>
      if (200 <=? Http.code r) && (Http.code r <=? 299) then
        match Http.body r with
        | Http.Json d => Some (pollerView d)
        | Http.Empty => None
        end
      else None
  end.

(** One poll of a worker in state [st] with the token [token]. *)
Definition pollWorker (env : Env) (st : StatusInternal) (token : string)
  : option Poller.DownloadStatus :=
  fetchStatus (Some (snd (statusListener env st (statusRequest token)))).

(** The attempt that creates the host [podId] with [token], sees it running
    and gets [answer] at its first poll, at time [t]. *)
Definition freshAttempt (token podId : string) (answer : option Poller.DownloadStatus)
           (started t : Z) : Poller.Attempt := {|
  Poller.existingPod := None;
  Poller.randomToken := token;
  Poller.createdId := podId;
  Poller.running := true;
  Poller.pollStarted := started;
  Poller.polls := [ {| Poller.answer := answer; Poller.at_ := t |} ];
|}.

(** ** Further shorthands used in the statements *)

(** What [status.currentFiles] is to show: the set [activeFiles], which
    holds the destinations of the downloads in flight. *)
Definition FilesInv (c : Config) : Prop :=
  let w := world c in
  currentFiles (status w) = activeFiles w /\
  NoDup (activeFiles w) /\
  match main c with
  | Downloading _ queues =>
      forall y, y ∈ activeFiles w <-> y ∈ map destOf (activeEntries queues)
  | Crashed => True
  | _ => activeFiles w = []
  end.

(** No sample counts a negative number of bytes and the speed shown is not
    negative. *)
Definition SpeedInv (w : World) : Prop :=
  Forall (fun s => 0 <= bytes s) (speedSamples w) /\ (0 <= speed (status w))%Q.

(** Every chunk the events deliver has a length, which is not negative. *)
Definition chunksHaveLength (events : list Event) : Prop :=
  forall q len, Settled q (Chunk len) ∈ events -> 0 <= len.

(** The settlements that follow a complete transfer of [written] bytes into
    a file of digest [digest]: the digest is read only when the size test
    passes and a hash is configured. *)
Definition verification (m : ModelWithSize) (written : Z) (digest : string)
  : list Settle :=
  if (0 <? size m) && negb (written =? size m) then []
  else if truthy_opt (sha256 m) then [Hashed digest] else [].

(** The file system once the write stream of [m] has finished: the
    destination holds the [written] bytes. *)
Definition written_to (env : Env) (m : Model) (written : Z) (digest : string)
           (fs : Fs.t) : Fs.t :=
  Fs.add (destPathOf env m) {| Fs.size := written; Fs.sha256 := digest |} fs.

(** The probe did not learn the size: [fetch] rejected, or the answer was
    not ok. *)
Definition probeFailed (answer : Probe.Answer) : Prop :=
  match answer with
  | Probe.Rejects _ => True
  | Probe.Responds res => Probe.ok res = false
  end.

(** The rounds of a polling loop that sleeps [gap] milliseconds at the end
    of every round, under a clock that does not go back: the readings of
    consecutive rounds are at least [gap] apart. *)
Fixpoint paced {A : Type} (at_ : A -> Z) (gap : Z) (rounds : list A) : Prop :=
  match rounds with
  | [] => True
  | r :: rest =>
      match rest with
      | [] => True
      | r' :: _ => at_ r + gap <= at_ r'
      end /\ paced at_ gap rest
  end.

(** The sleep at the end of a round of [pollDownloadProgress]. *)
Definition POLL_INTERVAL_MS : Z := 3000.



(** ** Concrete inputs *)
Module Sample_inputs.
Definition env : Env := {|
  TARGET_DIR := "/workspace/models";
  HF_TOKEN := "hf_secret";
  CIVITAI_TOKEN := "civ_secret";
  STATUS_TOKEN := "0123abcd";
|}.

Definition clock (n : nat) : Z := 1000 * Z.of_nat n.

Definition m1 : Model :=
  {| url := "https://huggingface.co/org/repo/resolve/main/m1.bin";
     dest := "m1.bin"; sha256 := Some "c0ffee" |}.
Definition m2 : Model :=
  {| url := "https://huggingface.co/org/repo/resolve/main/m2.bin";
     dest := "m2.bin"; sha256 := None |}.
Definition m3 : Model :=
  {| url := "https://civitai.com/api/download/models/3";
     dest := "m3.bin"; sha256 := None |}.

Definition fs1 : Fs.t :=
  Fs.add "/workspace/models/m1.bin" {| Fs.size := 1000; Fs.sha256 := "c0ffee" |} Fs.empty.

Definition foreign_url : string := "https://example.com/huggingface.co/model.bin".
Definition plain_url : string := "https://example.com/model.bin".

Definition good_request : Http.Request :=
  {| Http.method := "GET"; Http.url := "/status";
     Http.authorization := Some "Bearer 0123abcd" |}.

Definition ok200 : Http.Response :=
  {| Http.ok := true; Http.status := 200; Http.statusText := "OK"; Http.hasBody := true |}.
Definition samples : list Sample :=
  [ {| time := 1000; bytes := 700 |}; {| time := 50000; bytes := 500 |};
    {| time := 90000; bytes := 1500 |} ].

(** The hundredth reading of the clock is 100000. *)
Definition sampled_world : World := with_ticks 100 (with_speedSamples samples world0).

Definition sized (m : Model) (n : Z) : ModelWithSize := {| model := m; size := n |}.

Definition jobs : list Model := [m1; m2; m3].

(** [m1] and [m3] are absent and probed at 10 and 0 bytes, [m2] is present
    with the probed size.  The hub sends 15 bytes for [m1]. *)
Definition fs2 : Fs.t :=
  Fs.add "/workspace/models/m2.bin" {| Fs.size := 20; Fs.sha256 := "beef" |} Fs.empty.

Definition preflight_events : list Event :=
  [Listening; Probed 10 Fs.empty; Probed 20 fs2; Probed 0 Fs.empty].

Definition both_streaming : list Event :=
  preflight_events ++
  [Settled 0 (Responded ok200); Settled 1 (Responded ok200); Settled 0 (Chunk 15)].

Definition to_the_end : list Event :=
  both_streaming ++
  [Settled 0 Done; Settled 0 Finished;
   Settled 1 (Chunk 5); Settled 1 Done; Settled 1 Finished].

Definition probed_two : list Event := [Listening; Probed 10 Fs.empty; Probed 20 fs2].

(** A host that starts and never answers: polled at 3 s and at 181 s. *)
Definition stalled : Poller.Attempt := {|
  Poller.existingPod := None;
  Poller.randomToken := "5eed";
  Poller.createdId := "pod-x";
  Poller.running := true;
  Poller.pollStarted := 0;
  Poller.polls := [ {| Poller.answer := None; Poller.at_ := 3000 |};
                    {| Poller.answer := None; Poller.at_ := 181000 |} ];
|}.
End Sample_inputs.

(** ** Further concrete inputs *)
Module Further_inputs.
(** Two entries of different hosts with the same destination; the hub
    answers 404 before the other host has answered. *)
Definition twin_a : Model :=
  {| url := "https://huggingface.co/org/repo/resolve/main/x.bin";
     dest := "x.bin"; sha256 := None |}.
Definition twin_b : Model :=
  {| url := "https://civitai.com/api/download/models/7";
     dest := "x.bin"; sha256 := None |}.

Definition first_twin_fails : list Event :=
  [Listening; Probed 0 Fs.empty; Probed 0 Fs.empty; Settled 0 (Responded answer404)].

(** Every probe is answered 200 with a length of 10 bytes. *)
Definition ten_each (m : Model) : Probe.Answer :=
  Probe.Responds {| Probe.status := 200; Probe.contentRange := None;
                    Probe.contentLength := Some "10" |}.

(** A host that is polled every three seconds and never answers. *)
Definition silent_poll (k : nat) : Poller.Poll :=
  {| Poller.answer := None; Poller.at_ := 3000 * Z.of_nat k |}.
Definition silence : list Poller.Poll := map silent_poll (seq 0 61).

(** A host that is looked at every five seconds and stays pending. *)
Definition pending_round (k : nat) : Wait.Round :=
  {| Wait.now := 5000 * Z.of_nat k; Wait.desiredStatus := "PENDING" |}.
Definition pending : list Wait.Round := map pending_round (seq 0 37).

(** A service that answers 500 to every request, posted every thirty
    seconds. *)
Definition refused_round (k : nat) : CreatePod.Round :=
  {| CreatePod.dataId := None; CreatePod.status := 500;
     CreatePod.now := 30000 * Z.of_nat k |}.
Definition refused : list CreatePod.Round := map refused_round (seq 0 61).
End Further_inputs.

(** * Properties *)

(** ** Strings *)

Lemma truthy_true (s : string) : truthy s = true <-> s <> "".
Proof. destruct s; simpl; split; congruence. Qed.

Lemma truthy_false (s : string) : truthy s = false <-> s = "".
Proof. destruct s; simpl; split; congruence. Qed.

Lemma opt_string_eqb_eq (a b : option string) : opt_string_eqb a b = true <-> a = b.
Proof.
  destruct a as [x|], b as [y|]; simpl; try (split; congruence).
  rewrite String.eqb_eq. split; congruence.
Qed.

Lemma opt_string_eqb_neq (a b : option string) : opt_string_eqb a b = false <-> a <> b.
Proof.
  rewrite <- opt_string_eqb_eq. destruct (opt_string_eqb a b); split; congruence.
Qed.

Lemma append_cons (c : ascii) (s t : string) : String c s +:+ t = String c (s +:+ t).
Proof. reflexivity. Qed.

Lemma append_nil (t : string) : "" +:+ t = t.
Proof. reflexivity. Qed.

Lemma prefix_occurs (needle s : string) :
  String.prefix needle s = true <-> exists post, s = needle +:+ post.
Proof.
  revert s. induction needle as [|c needle IH]; intros s; simpl.
  - split; [intros _; exists s; reflexivity | intros _; destruct s; reflexivity].
  - destruct s as [|d s]; simpl.
    + split; [discriminate | intros [post H]; discriminate].
    + destruct (Ascii.ascii_dec c d) as [->|Hne].
      * rewrite IH. split; intros [post H]; exists post;
          rewrite append_cons in *; congruence.
      * split; [discriminate | intros [post H]; rewrite append_cons in H; congruence].
Qed.

Lemma includes_occurs (s needle : string) :
  includes s needle = true <-> occurs_in needle s.
Proof.
  unfold occurs_in. induction s as [|c s IH].
  - cbn [includes]. rewrite orb_false_r, prefix_occurs. split.
    + intros [post H]. exists "", post. exact H.
    + intros (pre & post & H). destruct pre.
      * rewrite append_nil in H. eauto.
      * rewrite append_cons in H. discriminate.
  - cbn [includes]. rewrite orb_true_iff, prefix_occurs, IH. split.
    + intros [[post H] | (pre & post & H)].
      * exists "", post. exact H.
      * exists (String c pre), post. rewrite append_cons. congruence.
    + intros (pre & post & H). destruct pre as [|d pre].
      * left. rewrite append_nil in H. eauto.
      * right. rewrite append_cons in H. exists pre, post. congruence.
Qed.

(** ** The skip decision *)

(** C1.  With the destination absent the entry is downloaded.  With it
    present and a hash configured, the entry is skipped for "hash match"
    exactly when the local digest is the configured one and is downloaded
    otherwise, whatever the sizes are.  With no hash configured: a known
    (non-zero) remote size equal to the local size skips for "size match", a
    known remote size that differs downloads, an unknown remote size skips
    for "file exists". *)
Theorem checkNeedsDownload_precedence
        (env : Env) (fs : Fs.t) (m : Model) (remoteSize : Z) :
  0 <= remoteSize ->
  let decision := checkNeedsDownload env fs m remoteSize in
  (fs (destPathOf env m) = None -> decision = mustDownload) /\
  (forall st, fs (destPathOf env m) = Some st -> truthy_opt (sha256 m) = true ->
     (decision = skipBecause "hash match" <-> sha256 m = Some (Fs.sha256 st)) /\
     (sha256 m <> Some (Fs.sha256 st) -> decision = mustDownload)) /\
  (forall st, fs (destPathOf env m) = Some st -> truthy_opt (sha256 m) = false ->
     (remoteSize <> 0 -> Fs.size st = remoteSize -> decision = skipBecause "size match") /\
     (remoteSize <> 0 -> Fs.size st <> remoteSize -> decision = mustDownload) /\
     (remoteSize = 0 -> decision = skipBecause "file exists")).
Proof.
  intros Hsize decision. subst decision.
  unfold checkNeedsDownload, skipBecause, mustDownload.
  split; [|split].
  - intros ->. reflexivity.
  - intros st -> ->.
    destruct (opt_string_eqb (Some (Fs.sha256 st)) (sha256 m)) eqn:E.
    + apply opt_string_eqb_eq in E. split; [split|]; intros; congruence.
    + apply opt_string_eqb_neq in E. split; [split|]; intros; congruence.
  - intros st -> ->. repeat split.
    + intros Hnz ->. replace (0 <? remoteSize) with true by (symmetry; apply Z.ltb_lt; lia).
      rewrite Z.eqb_refl. reflexivity.
    + intros Hnz Hne. replace (0 <? remoteSize) with true by (symmetry; apply Z.ltb_lt; lia).
      replace (Fs.size st =? remoteSize) with false by (symmetry; apply Z.eqb_neq; lia).
      reflexivity.
    + intros ->. reflexivity.
Qed.

(** A local file with the configured digest is skipped for "hash match"
    although the remote reports another size. *)
Lemma checkNeedsDownload_precedence_witness :
  0 <= 999 /\
  checkNeedsDownload Sample_inputs.env Sample_inputs.fs1 Sample_inputs.m1 999
  = skipBecause "hash match".
Proof.
  split; [lia|].
  destruct (checkNeedsDownload_precedence Sample_inputs.env Sample_inputs.fs1
              Sample_inputs.m1 999 ltac:(lia)) as (_ & Hhash & _).
  apply (Hhash {| Fs.size := 1000; Fs.sha256 := "c0ffee" |}); reflexivity.
Defined.

(** ** The authorization header *)

(** C6, as claimed, fails: a URL whose host is neither known host carries
    the model-hub token when the hub's name occurs in its path, and two URLs
    of one host get different headers. *)
Lemma getAuthHeaders_not_keyed_by_host :
  hostname Sample_inputs.foreign_url = Some "example.com" /\
  hostname Sample_inputs.plain_url = Some "example.com" /\
  getAuthHeaders Sample_inputs.env Sample_inputs.foreign_url
  = [("Authorization", "Bearer hf_secret")] /\
  getAuthHeaders Sample_inputs.env Sample_inputs.plain_url = [].
Proof. repeat split; reflexivity. Qed.

(** C6, amended.  The header is chosen by two substring tests on the whole
    URL, in this order: the model-hub name with a non-empty hub token, then
    the community-host name with a non-empty community token; otherwise
    there is no header.  A URL in which neither name occurs never carries a
    token. *)
Theorem getAuthHeaders_by_substring (env : Env) (url : string) :
  (occurs_in "huggingface.co" url -> HF_TOKEN env <> "" ->
     getAuthHeaders env url = bearer (HF_TOKEN env)) /\
  (~ occurs_in "huggingface.co" url \/ HF_TOKEN env = "" ->
   occurs_in "civitai.com" url -> CIVITAI_TOKEN env <> "" ->
     getAuthHeaders env url = bearer (CIVITAI_TOKEN env)) /\
  (~ occurs_in "huggingface.co" url \/ HF_TOKEN env = "" ->
   ~ occurs_in "civitai.com" url \/ CIVITAI_TOKEN env = "" ->
     getAuthHeaders env url = []).
Proof.
  unfold getAuthHeaders.
  rewrite <- !includes_occurs, <- !truthy_true, <- !truthy_false.
  destruct (includes url "huggingface.co"), (truthy (HF_TOKEN env)),
    (includes url "civitai.com"), (truthy (CIVITAI_TOKEN env)); simpl;
    repeat split; intros; try reflexivity;
    repeat match goal with
           | H : _ \/ _ |- _ => destruct H
           end; congruence.
Qed.

Lemma getAuthHeaders_by_substring_witness :
  getAuthHeaders Sample_inputs.env Sample_inputs.plain_url = [].
Proof.
  apply (getAuthHeaders_by_substring Sample_inputs.env Sample_inputs.plain_url).
  - left. rewrite <- includes_occurs. vm_compute. discriminate.
  - left. rewrite <- includes_occurs. vm_compute. discriminate.
Defined.

(** ** The status endpoint *)

(** C7.  A request is authorized when no status token is configured or its
    authorization header is the bearer form of the configured token.  An
    unauthorized request gets 401 and no body; an authorized request for
    [/status] gets 200 and the serialized status; an authorized request for
    anything else gets 404 and no body.  The status record is left as it
    was. *)
Theorem statusListener_replies (env : Env) (st : StatusInternal) (req : Http.Request) :
  let authorized :=
    STATUS_TOKEN env = "" \/
    Http.authorization req = Some ("Bearer " +:+ STATUS_TOKEN env) in
  fst (statusListener env st req) = st /\
  (authorized -> Http.url req = "/status" ->
     snd (statusListener env st req)
     = {| Http.code := 200; Http.headers := [("Content-Type", "application/json")];
          Http.body := Http.Json (serializeStatus st) |}) /\
  (~ authorized ->
     snd (statusListener env st req)
     = {| Http.code := 401; Http.headers := []; Http.body := Http.Empty |}) /\
  (authorized -> Http.url req <> "/status" ->
     snd (statusListener env st req)
     = {| Http.code := 404; Http.headers := []; Http.body := Http.Empty |}).
Proof.
  intros authorized. subst authorized. unfold statusListener.
  rewrite <- truthy_false.
  destruct (truthy (STATUS_TOKEN env)) eqn:Htok; simpl.
  - destruct (opt_string_eqb (Http.authorization req)
                (Some ("Bearer " +:+ STATUS_TOKEN env))) eqn:Hauth; simpl.
    + apply opt_string_eqb_eq in Hauth.
      destruct (String.eqb (Http.url req) "/status") eqn:Hurl; simpl.
      * apply String.eqb_eq in Hurl. repeat split; intros; try congruence. tauto.
      * apply String.eqb_neq in Hurl. repeat split; intros; try congruence. tauto.
    + apply opt_string_eqb_neq in Hauth.
      repeat split; intros; try reflexivity;
        match goal with
        | H : _ \/ _ |- _ => destruct H; congruence
        end.
  - destruct (String.eqb (Http.url req) "/status") eqn:Hurl; simpl.
    + apply String.eqb_eq in Hurl. repeat split; intros; try congruence. tauto.
    + apply String.eqb_neq in Hurl. repeat split; intros; try congruence. tauto.
Qed.

Lemma statusListener_replies_witness :
  Http.code (snd (statusListener Sample_inputs.env status0 Sample_inputs.good_request)) = 200.
Proof.
  destruct (statusListener_replies Sample_inputs.env status0 Sample_inputs.good_request)
    as (_ & H200 & _).
  rewrite H200; [reflexivity | right; reflexivity | reflexivity].
Defined.

(** ** One download *)

Lemma runDownload_chunks (m : ModelWithSize) (written : Z) (lens : list Z)
      (rest : list Settle) :
  runDownload m (AwaitRead written) (map Chunk lens ++ rest)
  = runDownload m (AwaitRead (written + totalLength lens)) rest.
Proof.
  revert written. induction lens as [|len lens IH]; intros written; simpl.
  - rewrite Z.add_0_r. reflexivity.
  - rewrite IH. f_equal. f_equal. lia.
Qed.

(** A complete transfer brings the call to the point where the write stream
    has finished. *)
Lemma runDownload_transfer (m : ModelWithSize) (res : Http.Response) (lens : list Z)
      (rest : list Settle) :
  Http.ok res = true -> Http.hasBody res = true ->
  runDownload m AwaitFetch (transfer res lens ++ rest)
  = runDownload m (AwaitFinished (totalLength lens)) (Finished :: rest).
Proof.
  intros Hok Hbody. unfold transfer. cbn [app runDownload downloadModel].
  rewrite Hok, Hbody. cbn [negb]. rewrite <- app_assoc, runDownload_chunks.
  reflexivity.
Qed.

Lemma sizeMismatch_test (m : ModelWithSize) (written : Z) :
  0 <= size m ->
  ((0 <? size m) && negb (written =? size m) = true <-> sizeMismatch m written).
Proof.
  intros Hsize. unfold sizeMismatch.
  rewrite andb_true_iff, negb_true_iff, Z.ltb_lt, Z.eqb_neq. lia.
Qed.

(** Past the response, a successful call with a hash configured has read
    its chunks, finished the file and seen the configured digest. *)
Lemma runDownload_read_success (m : ModelWithSize) (settles : list Settle)
      (written : Z) (result : DownloadResult.t) :
  truthy_opt (sha256 m) = true ->
  runDownload m (AwaitRead written) settles = Returned result ->
  DownloadResult.status result = DownloadStatus.success ->
  exists lens hash,
    settles = map Chunk lens ++ [Done; Finished; Hashed hash] /\
    sha256 m = Some hash.
Proof.
  intros Hcfg. revert written.
  induction settles as [|s rest IH]; intros written Hrun Hok; [discriminate|].
  destruct s; cbn [runDownload downloadModel] in Hrun;
    try discriminate; try (destruct rest; discriminate).
  - destruct (IH _ Hrun Hok) as (lens & hash & -> & Hhash).
    exists (length :: lens), hash. split; [reflexivity | exact Hhash].
  - destruct rest as [|s1 rest]; [discriminate|].
    destruct s1; cbn [runDownload downloadModel] in Hrun;
      try discriminate; try (destruct rest; discriminate).
    destruct ((0 <? size m) && negb (written =? size m)).
    { destruct rest; [|discriminate]. injection Hrun as <-. discriminate. }
    rewrite Hcfg in Hrun.
    destruct rest as [|s2 rest]; [discriminate|].
    destruct s2; cbn [runDownload downloadModel] in Hrun;
      try discriminate; try (destruct rest; discriminate).
    destruct (opt_string_eqb (Some hash) (sha256 m)) eqn:Hhash; cbn [negb] in Hrun.
    + destruct rest; [|discriminate].
      apply opt_string_eqb_eq in Hhash. exists [], hash. split; [reflexivity | congruence].
    + destruct rest; [|discriminate]. injection Hrun as <-. discriminate.
Qed.

(** C2.  A response that is not ok fails the entry with the status code and
    text; an ok response without body fails it with "no response body".
    After a complete transfer, a known non-zero size that differs from the
    bytes written fails it with the size-mismatch reason; otherwise, with a
    hash configured, a digest that differs fails it with "hash mismatch" and
    the configured digest makes it a success; with no hash configured it is
    a success.  With a hash configured, every successful call has seen the
    configured digest.  No resumption of the call leads back to the fetch,
    and the queue moves past the entry when the call returns, whatever the
    result. *)
Theorem downloadModel_classification
        (m : ModelWithSize) (res : Http.Response) (lens : list Z) (hash : string) :
  0 <= size m ->
  let written := totalLength lens in
  (Http.ok res = false ->
     runDownload m AwaitFetch [Responded res]
     = Returned (DownloadResult.fail
                   (show (Http.status res) +:+ " " +:+ Http.statusText res))) /\
  (Http.ok res = true -> Http.hasBody res = false ->
     runDownload m AwaitFetch [Responded res]
     = Returned (DownloadResult.fail "no response body")) /\
  (Http.ok res = true -> Http.hasBody res = true ->
     (sizeMismatch m written ->
        runDownload m AwaitFetch (transfer res lens)
        = Returned (DownloadResult.fail
                      ("size mismatch: expected " +:+ show (size m) +:+
                       ", got " +:+ show written))) /\
     (~ sizeMismatch m written -> truthy_opt (sha256 m) = true ->
        (sha256 m <> Some hash ->
           runDownload m AwaitFetch (transfer res lens ++ [Hashed hash])
           = Returned (DownloadResult.fail "hash mismatch")) /\
        (sha256 m = Some hash ->
           runDownload m AwaitFetch (transfer res lens ++ [Hashed hash])
           = Returned DownloadResult.ok)) /\
     (~ sizeMismatch m written -> truthy_opt (sha256 m) = false ->
        runDownload m AwaitFetch (transfer res lens) = Returned DownloadResult.ok)) /\
  (forall settles result,
     truthy_opt (sha256 m) = true ->
     runDownload m AwaitFetch settles = Returned result ->
     DownloadResult.status result = DownloadStatus.success ->
     exists res' lens' hash',
       settles = transfer res' lens' ++ [Hashed hash'] /\ sha256 m = Some hash') /\
  (forall a s a' progress,
     downloadModel m a s = Some (Suspend a' progress) -> a' <> AwaitFetch) /\
  (forall clock result q w,
     let q' := fst (recordResult clock m result q w) in
     let w' := snd (recordResult clock m result q w) in
     visited q' = visited q ++ [m] /\
     match current q' with
     | Some (next, a) => a = AwaitFetch /\ remaining q = next :: remaining q'
     | None => remaining q = [] /\ remaining q' = []
     end /\
     results (status w')
     = results (status w) ++
       [{| FileResult.file := dest m;
           FileResult.status := DownloadStatus.to_file (DownloadResult.status result);
           FileResult.reason := DownloadResult.reason result |}]).
Proof.
  intros Hsize written.
  split; [|split; [|split; [|split; [|split]]]].
  - intros Hok. cbn [runDownload downloadModel]. rewrite Hok. reflexivity.
  - intros Hok Hbody. cbn [runDownload downloadModel]. rewrite Hok, Hbody. reflexivity.
  - intros Hok Hbody.
    pose proof (sizeMismatch_test m written Hsize) as Htest.
    split; [|split].
    + intros Hmis. rewrite <- (app_nil_r (transfer res lens)).
      rewrite runDownload_transfer by assumption.
      cbn [runDownload downloadModel]. fold written.
      apply Htest in Hmis. rewrite Hmis. reflexivity.
    + intros Hfit Hcfg.
      assert (Hno : (0 <? size m) && negb (written =? size m) = false).
      { destruct ((0 <? size m) && negb (written =? size m)); [|reflexivity].
        exfalso. apply Hfit, Htest. reflexivity. }
      split; intros Hhash; rewrite runDownload_transfer by assumption;
        cbn [runDownload downloadModel]; fold written; rewrite Hno, Hcfg;
        cbn [runDownload downloadModel].
      * replace (opt_string_eqb (Some hash) (sha256 m)) with false
          by (symmetry; apply opt_string_eqb_neq; congruence).
        reflexivity.
      * replace (opt_string_eqb (Some hash) (sha256 m)) with true
          by (symmetry; apply opt_string_eqb_eq; congruence).
        reflexivity.
    + intros Hfit Hcfg.
      assert (Hno : (0 <? size m) && negb (written =? size m) = false).
      { destruct ((0 <? size m) && negb (written =? size m)); [|reflexivity].
        exfalso. apply Hfit, Htest. reflexivity. }
      rewrite <- (app_nil_r (transfer res lens)).
      rewrite runDownload_transfer by assumption.
      cbn [runDownload downloadModel]. fold written. rewrite Hno, Hcfg. reflexivity.
  - intros settles result Hcfg Hrun Hsucc.
    destruct settles as [|s rest]; [discriminate|].
    destruct s; cbn [runDownload downloadModel] in Hrun;
      try discriminate; try (destruct rest; discriminate).
    destruct (Http.ok res0); cbn [negb] in Hrun.
    2:{ destruct rest; [|discriminate]. injection Hrun as <-. discriminate. }
    destruct (Http.hasBody res0); cbn [negb] in Hrun.
    2:{ destruct rest; [|discriminate]. injection Hrun as <-. discriminate. }
    destruct (runDownload_read_success m rest 0 result Hcfg Hrun Hsucc)
      as (lens' & hash' & -> & Hhash).
    exists res0, lens', hash'. split; [|exact Hhash].
    unfold transfer. cbn [app]. rewrite <- app_assoc. reflexivity.
  - intros a s a' progress Hstep.
    destruct a, s; cbn [downloadModel] in Hstep; try discriminate;
      repeat match type of Hstep with
             | context [if ?b then _ else _] => destruct b
             end; inversion Hstep; discriminate.
  - intros clock result q w q' w'. subst q' w'.
    unfold recordResult, enterLoop, updateStatus, getRecentSpeed, Date_now.
    cbn [remaining visited].
    destruct (remaining q) as [|next rest]; cbn [fst snd].
    + repeat match goal with
             | |- context [recentSpeed ?n ?l] => destruct (recentSpeed n l)
             end; cbn. repeat split; reflexivity.
    + repeat match goal with
             | |- context [recentSpeed ?n ?l] => destruct (recentSpeed n l); cbn
             end. repeat split; reflexivity.
Qed.

(** The remote announces 1000 bytes and the stream delivers 900. *)
Lemma downloadModel_classification_witness :
  0 <= 1000 /\
  runDownload (Sample_inputs.sized Sample_inputs.m2 1000) AwaitFetch
              (transfer Sample_inputs.ok200 [400; 500])
  = Returned (DownloadResult.fail "size mismatch: expected 1000, got 900").
Proof.
  split; [lia|].
  destruct (downloadModel_classification (Sample_inputs.sized Sample_inputs.m2 1000)
              Sample_inputs.ok200 [400; 500] "" ltac:(simpl; lia))
    as (_ & _ & Hbody & _).
  destruct (Hbody eq_refl eq_refl) as (Hmis & _).
  apply Hmis. split; simpl; lia.
Defined.

(** ** [Map.groupBy] *)
Section GroupBy_facts.
Context {A : Type} (key : A -> option string).

Lemma group_add_keys (k : string) (x : A) (groups : list (string * list A)) :
  map fst (group_add k x groups)
  = if decide (k ∈ map fst groups) then map fst groups else map fst groups ++ [k].
Proof.
  induction groups as [|[k' xs] rest IH]; cbn [group_add map fst].
  - destruct (decide (k ∈ [])) as [Hin|_]; [|reflexivity].
    apply elem_of_nil in Hin. contradiction.
  - destruct (String.eqb_spec k' k) as [->|Hne]; cbn [map fst].
    + destruct (decide (k ∈ k :: map fst rest)) as [_|Hout]; [reflexivity|].
      exfalso. apply Hout, elem_of_cons. auto.
    + rewrite IH. destruct (decide (k ∈ map fst rest)) as [Hin|Hout].
      * destruct (decide (k ∈ k' :: map fst rest)) as [_|Hout]; [reflexivity|].
        exfalso. apply Hout, elem_of_cons. auto.
      * destruct (decide (k ∈ k' :: map fst rest)) as [Hin|_]; [|reflexivity].
        exfalso. apply elem_of_cons in Hin as [Heq|Hin]; congruence.
Qed.

Lemma group_add_elem (k k' : string) (x : A) (g' : list A)
      (groups : list (string * list A)) :
  NoDup (map fst groups) ->
  (k', g') ∈ group_add k x groups ->
  (k' <> k /\ (k', g') ∈ groups) \/
  (k' = k /\ ((exists g, (k, g) ∈ groups /\ g' = g ++ [x]) \/
              ((k ∉ map fst groups) /\ g' = [x]))).
Proof.
  induction groups as [|[k1 xs] rest IH]; simpl; intros Hnodup Hin.
  - apply list_elem_of_singleton in Hin. injection Hin as -> ->.
    right. split; [reflexivity|]. right. split; [apply not_elem_of_nil | reflexivity].
  - apply NoDup_cons in Hnodup as [Hk1 Hnodup].
    destruct (String.eqb_spec k1 k) as [->|Hne].
    + apply elem_of_cons in Hin as [Heq|Hin].
      * injection Heq as -> ->. right. split; [reflexivity|]. left.
        exists xs. split; [apply elem_of_cons; auto | reflexivity].
      * left. split.
        -- intros ->. apply Hk1. apply list_elem_of_fmap. exists (k, g'). auto.
        -- apply elem_of_cons; auto.
    + apply elem_of_cons in Hin as [Heq|Hin].
      * injection Heq as -> ->. left. split; [congruence | apply elem_of_cons; auto].
      * destruct (IH Hnodup Hin) as [[Hk Hg]|[-> [(g & Hg & ->)|[Hout ->]]]].
        -- left. split; [exact Hk | apply elem_of_cons; auto].
        -- right. split; [reflexivity|]. left. exists g.
           split; [apply elem_of_cons; auto | reflexivity].
        -- right. split; [reflexivity|]. right. split; [|reflexivity].
           intros Hin'. apply elem_of_cons in Hin' as [Heq|Hin']; [congruence | contradiction].
Qed.

Lemma group_add_concat (k : string) (x : A) (groups : list (string * list A)) :
  concat (map snd (group_add k x groups)) ≡ₚ concat (map snd groups) ++ [x].
Proof.
  induction groups as [|[k' xs] rest IH]; simpl; [reflexivity|].
  destruct (String.eqb k' k); simpl.
  - rewrite <- !app_assoc. apply Permutation_app_head, Permutation_app_comm.
  - rewrite IH, app_assoc. reflexivity.
Qed.

Lemma filter_key_none (k : string) (items : list A) :
  (forall x, x ∈ items -> key x <> Some k) ->
  List.filter (fun x => opt_string_eqb (key x) (Some k)) items = [].
Proof.
  induction items as [|y items IH]; intros Hno; simpl; [reflexivity|].
  replace (opt_string_eqb (key y) (Some k)) with false.
  - apply IH. intros x Hx. apply Hno, elem_of_cons. auto.
  - symmetry. apply opt_string_eqb_neq, Hno, elem_of_cons. auto.
Qed.

Lemma Grouping_nil : Grouping key [] [].
Proof.
  split; [constructor|]. split; [|split]; simpl.
  - intros k g Hin. apply elem_of_nil in Hin. contradiction.
  - intros x Hx. apply elem_of_nil in Hx. contradiction.
  - reflexivity.
Qed.

Lemma Grouping_add (k : string) (x : A) (items : list A)
      (groups : list (string * list A)) :
  Grouping key items groups -> key x = Some k ->
  Grouping key (items ++ [x]) (group_add k x groups).
Proof.
  intros (Hnodup & Hgroups & Hcover & Hperm) Hkey.
  split; [|split; [|split]].
  - rewrite group_add_keys. destruct (decide (k ∈ map fst groups)); [assumption|].
    apply NoDup_app. split; [assumption|]. split; [|apply NoDup_singleton].
    intros k' Hk' Hk. apply list_elem_of_singleton in Hk. subst k'. contradiction.
  - intros k0 g Hin. rewrite List.filter_app. simpl.
    destruct (group_add_elem _ _ _ _ _ Hnodup Hin)
      as [[Hk Hg]|[-> [(g0 & Hg & ->)|[Hout ->]]]].
    + rewrite Hkey. replace (opt_string_eqb (Some k) (Some k0)) with false
        by (symmetry; apply opt_string_eqb_neq; congruence).
      rewrite app_nil_r. apply Hgroups in Hg. tauto.
    + split; [intros Hnil; apply app_eq_nil in Hnil as [_ Hnil]; discriminate|].
      rewrite Hkey. replace (opt_string_eqb (Some k) (Some k)) with true
        by (symmetry; apply opt_string_eqb_eq; reflexivity).
      apply Hgroups in Hg. destruct Hg as [_ <-]. reflexivity.
    + split; [discriminate|]. rewrite Hkey. replace (opt_string_eqb (Some k) (Some k)) with true
        by (symmetry; apply opt_string_eqb_eq; reflexivity).
      rewrite filter_key_none; [reflexivity|].
      intros y Hy Hyk. destruct (Hcover y Hy) as (k' & Hk' & Hin'). congruence.
  - intros y Hy. apply elem_of_app in Hy as [Hy|Hy];
      [|apply list_elem_of_singleton in Hy; subst y].
    + destruct (Hcover y Hy) as (k' & Hk' & Hin). exists k'. split; [assumption|].
      rewrite group_add_keys. destruct (decide (k ∈ map fst groups)); [assumption|].
      apply elem_of_app. auto.
    + exists k. split; [assumption|]. rewrite group_add_keys.
      destruct (decide (k ∈ map fst groups)); [assumption|].
      apply elem_of_app. right. apply list_elem_of_singleton. reflexivity.
  - rewrite group_add_concat, Hperm. reflexivity.
Qed.

Lemma groupBy_from_Grouping (rest done : list A) (groups groups' : list (string * list A)) :
  Grouping key done groups ->
  groupBy_from key rest groups = Some groups' ->
  Grouping key (done ++ rest) groups'.
Proof.
  revert done groups. induction rest as [|x rest IH]; intros done groups Hg Hrun; simpl in Hrun.
  - injection Hrun as <-. rewrite app_nil_r. exact Hg.
  - destruct (key x) as [k|] eqn:Hkey; [|discriminate].
    replace (done ++ x :: rest) with ((done ++ [x]) ++ rest)
      by (rewrite <- app_assoc; reflexivity).
    eapply IH; [|exact Hrun]. apply Grouping_add; assumption.
Qed.

Lemma groupBy_Grouping (items : list A) (groups : list (string * list A)) :
  groupBy items key = Some groups -> Grouping key items groups.
Proof.
  intros Hrun. change items with ([] ++ items).
  eapply groupBy_from_Grouping; [apply Grouping_nil | exact Hrun].
Qed.
End GroupBy_facts.

(** ** Runs of the worker *)
Section Run_facts.
Variable env : Env.
Variable clock : nat -> Z.

Lemma run_app (c : Config) (evs evs' : list Event) :
  run env clock c (evs ++ evs')
  = match run env clock c evs with
    | Some c' => run env clock c' evs'
    | None => None
    end.
Proof.
  revert c. induction evs as [|e evs IH]; intros c; simpl; [reflexivity|].
  destruct (step env clock c e); [apply IH | reflexivity].
Qed.

Lemma run_snoc (c : Config) (evs : list Event) (e : Event) :
  run env clock c (evs ++ [e])
  = match run env clock c evs with
    | Some c' => step env clock c' e
    | None => None
    end.
Proof.
  rewrite run_app. destruct (run env clock c evs) as [c'|]; [|reflexivity].
  simpl. destruct (step env clock c' e); reflexivity.
Qed.

(** A property that holds initially and is kept by every step, the events
    so far being known, holds of every run. *)
Lemma run_invariant (P : list Event -> Config -> Prop) (c0 : Config) :
  P [] c0 ->
  (forall evs c e c', P evs c -> step env clock c e = Some c' -> P (evs ++ [e]) c') ->
  forall evs c, run env clock c0 evs = Some c -> P evs c.
Proof.
  intros Hinit Hstep evs. induction evs as [|e evs IH] using rev_ind; intros c Hrun.
  - simpl in Hrun. injection Hrun as <-. exact Hinit.
  - rewrite run_snoc in Hrun.
    destruct (run env clock c0 evs) as [c1|] eqn:Hrun1; [|discriminate].
    eapply Hstep; [apply IH; reflexivity | exact Hrun].
Qed.

Lemma probesOf_app (evs evs' : list Event) :
  probesOf (evs ++ evs') = probesOf evs ++ probesOf evs'.
Proof. apply flat_map_app. Qed.

Lemma chunkBytes_app (evs evs' : list Event) :
  chunkBytes (evs ++ evs') = chunkBytes evs + chunkBytes evs'.
Proof.
  induction evs as [|e evs IH]; simpl; [reflexivity|].
  rewrite IH. destruct e as [| |q s]; try reflexivity.
  destruct s; try reflexivity. lia.
Qed.

(** *** What the pieces of the worker do to the ledger *)

Lemma ledger_enterLoop (q : Queue) (w : World) :
  ledger (snd (enterLoop clock q w)) = ledger w.
Proof. unfold enterLoop. destruct (remaining q); reflexivity. Qed.

Lemma ledger_startQueues (groups : list (list ModelWithSize)) (w : World) :
  ledger (snd (startQueues clock groups w)) = ledger w.
Proof.
  revert w. induction groups as [|g groups IH]; intros w; simpl; [reflexivity|].
  rewrite IH. apply ledger_enterLoop.
Qed.

Lemma ledger_recordResult (m : ModelWithSize) (result : DownloadResult.t)
      (q : Queue) (w : World) :
  ledger (snd (recordResult clock m result q w))
  = (phase (status w),
     results (status w) ++
       [{| FileResult.file := dest m;
           FileResult.status := DownloadStatus.to_file (DownloadResult.status result);
           FileResult.reason := DownloadResult.reason result |}],
     overallTotalBytes (status w), overallDownloadedBytes (status w),
     totalFiles (status w), error (status w)).
Proof. unfold recordResult. rewrite ledger_enterLoop. reflexivity. Qed.

Lemma ledger_onProgress (n : Z) (w : World) :
  ledger (onProgress clock n w)
  = (phase (status w), results (status w), overallTotalBytes (status w),
     overallDownloadedBytes (status w) + n, totalFiles (status w), error (status w)).
Proof. reflexivity. Qed.

(** *** The activations *)

Lemma enterLoop_queue (q : Queue) (w : World) :
  current q = None ->
  let q' := fst (enterLoop clock q w) in
  entries q' = entries q /\ visited q' = visited q /\
  (current q' = None -> remaining q' = []) /\
  (remaining q <> [] -> current q' <> None).
Proof.
  intros Hcur. unfold enterLoop, entries, inFlight. rewrite Hcur.
  destruct (remaining q) as [|m rest]; simpl; repeat split; congruence.
Qed.

Lemma startQueues_queues (groups : list (list ModelWithSize)) (w : World) :
  let queues := fst (startQueues clock groups w) in
  map entries queues = groups /\
  terminatedEntries queues = [] /\
  Forall (fun q => current q = None -> remaining q = []) queues /\
  (Forall (fun g => g <> []) groups -> Forall (fun q => current q <> None) queues).
Proof.
  revert w. induction groups as [|g groups IH]; intros w; simpl.
  - repeat split; constructor.
  - destruct (IH (snd (enterLoop clock
                         {| visited := []; current := None; remaining := g |} w)))
      as (Hentries & Hterm & Hdone & Hlive).
    destruct (enterLoop_queue {| visited := []; current := None; remaining := g |} w
                eq_refl) as (He & Hv & Hd & Hl).
    cbn [remaining visited] in *. repeat split.
    + rewrite He, Hentries. reflexivity.
    + unfold terminatedEntries in *. simpl. rewrite Hv, Hterm. reflexivity.
    + constructor; assumption.
    + intros Hne. apply Forall_cons in Hne as [Hg Hne].
      constructor; [apply Hl; exact Hg | apply Hlive; exact Hne].
Qed.

(** *** The classification of the probed entries *)

Lemma zip_snoc {A B : Type} (l : list A) (k : list B) (a : A) (b : B) :
  length k = length l -> zip (l ++ [a]) (k ++ [b]) = zip l k ++ [(a, b)].
Proof.
  revert k. induction l as [|x l IH]; intros [|y k] Hlen; simpl in *;
    try discriminate; [reflexivity|].
  rewrite IH by congruence. reflexivity.
Qed.

Lemma zip_longer {A B : Type} (l l' : list A) (k : list B) :
  length k = length l -> zip (l ++ l') k = zip l k.
Proof.
  revert k. induction l as [|x l IH]; intros [|y k] Hlen; simpl in *;
    try discriminate.
  - destruct l'; reflexivity.
  - rewrite IH by congruence. reflexivity.
Qed.

Lemma sumSizes_app (l l' : list ModelWithSize) :
  sumSizes (l ++ l') = sumSizes l + sumSizes l'.
Proof. induction l as [|m l IH]; simpl; [reflexivity | rewrite IH; lia]. Qed.

Lemma skippedResults_skipped (probed : list (Model * (Z * Fs.t))) :
  Forall is_skipped (skippedResults env probed).
Proof.
  induction probed as [|p probed IH]; simpl; [constructor|].
  destruct (skip (decisionOf env p)); simpl; [constructor; [reflexivity|]|]; exact IH.
Qed.

Lemma skippedResults_files (probed : list (Model * (Z * Fs.t))) :
  map FileResult.file (skippedResults env probed) = map dest (skippedEntries env probed).
Proof.
  induction probed as [|p probed IH]; simpl; [reflexivity|].
  destruct (skip (decisionOf env p)); simpl; rewrite IH; reflexivity.
Qed.

(** Every probed entry is either skipped or to be downloaded. *)
Lemma classification_partition (probed : list (Model * (Z * Fs.t))) :
  map dest (skippedEntries env probed) ++ map destOf (classify env probed)
  ≡ₚ map dest (map fst probed).
Proof.
  induction probed as [|p probed IH]; simpl; [reflexivity|].
  destruct (skip (decisionOf env p)); simpl.
  - rewrite IH. reflexivity.
  - rewrite <- IH. symmetry. apply Permutation_middle.
Qed.

Lemma fst_zip_full {A B : Type} (l : list A) (k : list B) :
  length k = length l -> map fst (zip l k) = l.
Proof.
  revert k. induction l as [|x l IH]; intros [|y k] Hlen; simpl in *;
    try discriminate; [reflexivity|].
  rewrite IH by congruence. reflexivity.
Qed.
End Run_facts.

(** ** The steps of the worker *)
Section Step_facts.
Variable env : Env.
Variable clock : nat -> Z.

Lemma forallb_queueDone (queues : list Queue) :
  forallb queueDone queues = true <-> Forall (fun q => current q = None) queues.
Proof.
  rewrite forallb_forall, Forall_forall. unfold queueDone.
  split; intros H q Hq.
  - apply list_elem_of_In in Hq. specialize (H q Hq). destruct (current q); congruence.
  - apply list_elem_of_In in Hq. rewrite (H q Hq). reflexivity.
Qed.

Lemma not_all_done (queues : list Queue) :
  forallb queueDone queues = false -> Exists (fun q => current q <> None) queues.
Proof.
  induction queues as [|q queues IH]; simpl; [discriminate|].
  unfold queueDone at 1. destruct (current q) eqn:Hcur; simpl.
  - intros _. apply Exists_cons_hd. congruence.
  - intros H. apply Exists_cons_tl, IH, H.
Qed.

Lemma count_failed_positive (rs : list FileResult.t) :
  Nat.ltb 0 (count_status FileStatus.failed rs) = true <-> Exists is_failed rs.
Proof.
  unfold count_status, is_failed. induction rs as [|r rs IH].
  - split; [discriminate | intros H; inversion H].
  - rewrite filter_cons. case_decide as Hr.
    + split; [|reflexivity]. intros _. apply Exists_cons_hd.
      destruct (FileResult.status r); simpl in Hr; congruence.
    + rewrite IH. split.
      * intros H. apply Exists_cons_tl, H.
      * intros H. inversion H as [? ? Hst|]; subst; [|assumption].
        exfalso. apply Hr. rewrite Hst. reflexivity.
Qed.

(** Replacing an activation by one that has visited [extra] more. *)
Lemma terminatedEntries_insert (queues : list Queue) (i : nat) (q q' : Queue)
      (extra : list ModelWithSize) :
  queues !! i = Some q -> visited q' = visited q ++ extra ->
  terminatedEntries (<[i := q']> queues) ≡ₚ terminatedEntries queues ++ extra.
Proof.
  intros Hq Hv. unfold terminatedEntries.
  assert (Hi : (i < length queues)%nat) by (eapply lookup_lt_Some; eauto).
  rewrite insert_take_drop by exact Hi.
  rewrite <- (take_drop_middle queues i q Hq) at 3.
  rewrite !map_app, !concat_app. simpl. rewrite Hv, <- !app_assoc.
  apply Permutation_app_head, Permutation_app_head, Permutation_app_comm.
Qed.

Lemma entries_insert (queues : list Queue) (i : nat) (q q' : Queue) :
  queues !! i = Some q -> entries q' = entries q ->
  map entries (<[i := q']> queues) = map entries queues.
Proof.
  intros Hq He.
  assert (Hi : (i < length queues)%nat) by (eapply lookup_lt_Some; eauto).
  rewrite insert_take_drop by exact Hi.
  rewrite <- (take_drop_middle queues i q Hq) at 3.
  rewrite !map_app. simpl. rewrite He. reflexivity.
Qed.

Lemma Exists_insert_here {A : Type} (P : A -> Prop) (l : list A) (i : nat) (x : A) :
  (i < length l)%nat -> P x -> Exists P (<[i := x]> l).
Proof.
  intros Hi Hx. apply Exists_exists. exists x. split; [|exact Hx].
  apply list_elem_of_lookup. exists i. apply list_lookup_insert_eq. exact Hi.
Qed.

(** A settlement delivers bytes to [onProgress] exactly when it is a chunk. *)
Lemma downloadModel_progress (m : ModelWithSize) (a a' : Await) (s : Settle)
      (progress : option Z) :
  downloadModel m a s = Some (Suspend a' progress) ->
  progress = match s with
             | Chunk len => Some len
             | _ => None
             end.
Proof.
  destruct a, s; cbn [downloadModel]; try discriminate;
    repeat match goal with
           | |- context [if ?b then _ else _] => destruct b
           end; intros H; inversion H; reflexivity.
Qed.

Lemma downloadModel_return_not_chunk (m : ModelWithSize) (a : Await) (s : Settle)
      (r : Resume) :
  downloadModel m a s = Some r ->
  (forall a' p, r <> Suspend a' p) ->
  match s with
  | Chunk _ => False
  | _ => True
  end.
Proof.
  destruct a, s; cbn [downloadModel]; try discriminate; try (intros; exact I);
    intros H Hr; inversion H; subst; eapply Hr; reflexivity.
Qed.

(** *** The end of the first loop *)
Lemma afterPreflight_cases (mws : list ModelWithSize) (w : World) :
  let c' := afterPreflight clock mws w in
  let same p := ledger (world c')
                = (p, results (status w), overallTotalBytes (status w),
                   overallDownloadedBytes (status w), totalFiles (status w),
                   error (status w)) in
  (mws = [] /\ main c' = Exited /\ same Phase.completed) \/
  (mws <> [] /\ main c' = Crashed /\ same Phase.downloading /\
   groupBy mws hostOf = None) \/
  (mws <> [] /\ same Phase.downloading /\
   exists queues, main c' = Downloading mws queues /\
                  QueuesInv mws queues /\ terminatedEntries queues = []).
Proof.
  intros c' same. subst c' same. unfold afterPreflight.
  destruct mws as [|m0 mws0] eqn:Hmws; [left; repeat split; reflexivity|].
  rewrite <- Hmws. right. cbn [Date_now].
  change (fun m : ModelWithSize => getDomain (url m)) with hostOf.
  destruct (groupBy mws hostOf) as [groups|] eqn:Hgroup.
  - right. split; [congruence|].
    apply groupBy_Grouping in Hgroup.
    set (w1 := with_activeFiles [] _).
    destruct (startQueues_queues clock (map snd groups) w1)
      as (Hentries & Hterm & Hdone & Hlive).
    assert (Hnonempty : Forall (fun g => g <> []) (map snd groups)).
    { apply Forall_forall. intros g Hg. apply list_elem_of_fmap in Hg as ([k g'] & -> & Hin).
      destruct Hgroup as (_ & Hgroups & _). apply (Hgroups k g' Hin). }
    specialize (Hlive Hnonempty).
    assert (Hsome : Exists (fun q => current q <> None)
                           (fst (startQueues clock (map snd groups) w1))).
    { destruct Hgroup as (_ & _ & Hcover & _).
      destruct (Hcover m0) as (k & _ & Hk); [rewrite Hmws; apply elem_of_cons; auto|].
      destruct (fst (startQueues clock (map snd groups) w1)) as [|q queues] eqn:Hqs.
      - simpl in Hentries. destruct groups; [|discriminate].
        apply elem_of_nil in Hk. contradiction.
      - apply Exists_cons_hd. apply Forall_cons in Hlive as [Hq _]. exact Hq. }
    unfold joinAll.
    destruct (forallb queueDone (fst (startQueues clock (map snd groups) w1))) eqn:Hall.
    + exfalso. apply forallb_queueDone in Hall.
      apply Exists_exists in Hsome as (q & Hq & Hcur).
      rewrite Forall_forall in Hall. apply Hcur, Hall, Hq.
    + cbn [world main]. split.
      * rewrite ledger_startQueues. reflexivity.
      * eexists. split; [reflexivity|]. split; [|exact Hterm].
        split; [exists groups; split; [exact Hgroup | exact Hentries]|].
        split; assumption.
  - left. split; [congruence|]. repeat split.
Qed.
End Step_facts.

(** ** The invariant holds of every run *)
Section Invariant_facts.
Variable env : Env.
Variable clock : nat -> Z.

Lemma no_failed_among_skipped (rs : list FileResult.t) :
  Forall is_skipped rs -> ~ Exists is_failed rs.
Proof.
  intros Hall Hex. apply Exists_exists in Hex as (r & Hr & Hfailed).
  rewrite Forall_forall in Hall. specialize (Hall r Hr).
  unfold is_skipped, is_failed in *. congruence.
Qed.

Lemma ResultsInv_none (R : relation (list string)) (probed : list (Model * (Z * Fs.t)))
      (st : StatusInternal) :
  R [] [] -> results st = skippedResults env probed -> ResultsInv env R probed [] st.
Proof.
  intros HR Hres. exists []. rewrite app_nil_r. repeat split; [assumption..|constructor].
Qed.

Lemma Inv_afterPreflight (models : list Model) (evs : list Event) (w : World) :
  length (probesOf evs) = length models ->
  results (status w) = skippedResults env (zip models (probesOf evs)) ->
  overallTotalBytes (status w) = sumSizes (classify env (zip models (probesOf evs))) ->
  overallDownloadedBytes (status w) = chunkBytes evs ->
  totalFiles (status w) = Z.of_nat (length models) ->
  Inv env (Jobs models) evs
      (afterPreflight clock (classify env (zip models (probesOf evs))) w).
Proof.
  intros Hlen Hres Htot Hdl Htf.
  pose proof (afterPreflight_cases clock (classify env (zip models (probesOf evs))) w)
    as Hcases. cbv zeta in Hcases.
  set (c' := afterPreflight clock _ w) in *. clearbody c'.
  destruct Hcases
    as [(Hnil & Hmain & Hled) | [(Hne & Hmain & Hled & _) |
                                  (Hne & Hled & queues & Hmain & HQ & Hterm)]];
    unfold Inv; rewrite Hmain; unfold ledger in Hled;
    injection Hled as Hph' Hres' Htot' Hdl' Htf' _;
    (split; [congruence|]).
  - right. exists models. split; [reflexivity|]. split; [exact Hlen|].
    rewrite Hnil. split; [|split; [|split; [|split]]].
    + apply ResultsInv_none; [reflexivity | congruence].
    + right. split; [exact Hph'|]. rewrite Hres', Hres.
      apply no_failed_among_skipped, skippedResults_skipped.
    + intros _. exact Hph'.
    + rewrite Htot', Htot, Hnil. reflexivity.
    + congruence.
  - right. exists models. split; [reflexivity|]. split; [exact Hlen|].
    split; [exact Hne|]. split; [|split; [|split]].
    + exists []. rewrite app_nil_r.
      split; [congruence|]. split; [apply submseteq_nil_l | constructor].
    + exact Hph'.
    + congruence.
    + congruence.
  - exists models. split; [reflexivity|]. split; [exact Hlen|].
    split; [reflexivity|]. split; [exact Hne|]. split; [|split; [|split; [|split]]].
    + rewrite Hterm. apply ResultsInv_none; [reflexivity | congruence].
    + exact Hph'.
    + congruence.
    + congruence.
    + exact HQ.
Qed.

Lemma Inv_boot (input : JobInput) :
  Inv env input [Listening] (boot clock input world0).
Proof.
  destruct input as [| |models]; unfold boot.
  - split; [reflexivity|]. left. split; reflexivity.
  - split; [reflexivity|]. left. split; reflexivity.
  - destruct models as [|m models].
    + apply (Inv_afterPreflight [] [Listening]); reflexivity.
    + split; [reflexivity|]. exists (m :: models). repeat split. discriminate.
Qed.

Lemma preflightBody_spec (m : Model) (size : Z) (fs : Fs.t)
      (probed : list (Model * (Z * Fs.t))) (w : World) :
  let r := preflightBody env m size fs (classify env probed) w in
  fst r = classify env (probed ++ [(m, (size, fs))]) /\
  (results (status w) = skippedResults env probed ->
   results (status (snd r)) = skippedResults env (probed ++ [(m, (size, fs))])) /\
  overallTotalBytes (status (snd r))
  = overallTotalBytes (status w) + (sumSizes (fst r) - sumSizes (classify env probed)) /\
  phase (status (snd r)) = phase (status w) /\
  overallDownloadedBytes (status (snd r)) = overallDownloadedBytes (status w) /\
  totalFiles (status (snd r)) = totalFiles (status w).
Proof.
  unfold preflightBody, classify, skippedResults.
  rewrite !flat_map_app. cbn [flat_map]. unfold decisionOf. cbn [fst snd].
  destruct (skip (checkNeedsDownload env fs m size)); cbn [fst snd];
    rewrite ?app_nil_r; repeat split; cbn.
  - intros ->. reflexivity.
  - lia.
  - intros ->. reflexivity.
  - rewrite sumSizes_app. cbn. lia.
Qed.

Lemma Inv_preflight_step (models seen todo : list Model) (m : Model)
      (evs : list Event) (size : Z) (fs : Fs.t) (w : World) :
  Inv env (Jobs models) evs
      {| world := w; main := PreflightLoop seen (m :: todo)
                               (classify env (zip seen (probesOf evs))) |} ->
  let r := preflightBody env m size fs (classify env (zip seen (probesOf evs))) w in
  Inv env (Jobs models) (evs ++ [Probed size fs])
      (continuePreflight clock (seen ++ [m]) todo (fst r) (snd r)).
Proof.
  intros (Hdl & models' & Hin & Hmodels & _ & Hlen & _ & Hres & Hph & Htot & Htf) r.
  cbn [world main] in *. injection Hin as <-.
  destruct (preflightBody_spec m size fs (zip seen (probesOf evs)) w)
    as (Hfst & Hres' & Htot' & Hph' & Hdl' & Htf').
  fold r in Hfst, Hres', Htot', Hph', Hdl', Htf'. specialize (Hres' Hres).
  assert (Hps : probesOf (evs ++ [Probed size fs]) = probesOf evs ++ [(size, fs)])
    by (rewrite probesOf_app; reflexivity).
  assert (Hzip : zip (seen ++ [m]) (probesOf (evs ++ [Probed size fs]))
                 = zip seen (probesOf evs) ++ [(m, (size, fs))])
    by (rewrite Hps; apply zip_snoc; exact Hlen).
  assert (Hchunks : chunkBytes (evs ++ [Probed size fs]) = chunkBytes evs)
    by (rewrite chunkBytes_app; simpl; lia).
  assert (Hlen' : length (probesOf (evs ++ [Probed size fs])) = length (seen ++ [m]))
    by (rewrite Hps, !length_app, Hlen; reflexivity).
  unfold continuePreflight. destruct todo as [|t todo].
  - rewrite <- Hmodels in Hzip, Hlen'.
    assert (Htotal : overallTotalBytes (status (snd r)) = sumSizes (fst r))
      by (rewrite Htot', Htot; lia).
    rewrite Hfst, <- Hzip in Htotal |- *. rewrite <- Hzip in Hres'.
    apply Inv_afterPreflight; congruence.
  - split; [cbn [world]; congruence|]. cbn [main world].
    exists models. split; [reflexivity|].
    split; [rewrite Hmodels, <- app_assoc; reflexivity|].
    split; [discriminate|]. split; [exact Hlen'|].
    rewrite Hzip. split; [exact Hfst|]. split; [exact Hres'|].
    split; [congruence|]. split; [|congruence].
    rewrite Htot', Htot, Hfst. lia.
Qed.
End Invariant_facts.

Section Download_facts.
Variable env : Env.
Variable clock : nat -> Z.

Lemma visited_within_entries (queues : list Queue) :
  terminatedEntries queues ⊆+ concat (map entries queues).
Proof.
  unfold terminatedEntries. induction queues as [|q queues IH]; simpl; [reflexivity|].
  apply submseteq_app; [|exact IH].
  unfold entries. apply submseteq_inserts_r. reflexivity.
Qed.

Lemma terminated_within (mws : list ModelWithSize) (queues : list Queue) :
  QueuesInv mws queues -> terminatedEntries queues ⊆+ mws.
Proof.
  intros ((groups & (_ & _ & _ & Hperm) & Hentries) & _ & _).
  rewrite <- Hperm, <- Hentries. apply visited_within_entries.
Qed.

Lemma terminated_all (mws : list ModelWithSize) (queues : list Queue) :
  (exists groups,
     Grouping hostOf mws groups /\ map entries queues = map snd groups) ->
  Forall (fun q => current q = None -> remaining q = []) queues ->
  Forall (fun q => current q = None) queues ->
  terminatedEntries queues ≡ₚ mws.
Proof.
  intros (groups & (_ & _ & _ & Hperm) & Hentries) Hrest Hdone.
  rewrite <- Hperm, <- Hentries. unfold terminatedEntries.
  induction queues as [|q queues IH] in Hrest, Hdone |- *; simpl; [reflexivity|].
  apply Forall_cons in Hrest as [Hq Hrest]. apply Forall_cons in Hdone as [Hcur Hdone].
  rewrite (IH Hrest Hdone). unfold entries, inFlight. rewrite Hcur, (Hq Hcur).
  rewrite !app_nil_r. reflexivity.
Qed.

Lemma recordResult_queue (m : ModelWithSize) (a : Await) (result : DownloadResult.t)
      (q : Queue) (w : World) :
  current q = Some (m, a) ->
  let q' := fst (recordResult clock m result q w) in
  visited q' = visited q ++ [m] /\ entries q' = entries q /\
  (current q' = None -> remaining q' = []).
Proof.
  intros Hcur. unfold recordResult, enterLoop, entries, inFlight. rewrite Hcur.
  cbn [remaining visited]. destruct (remaining q) as [|next rest]; cbn.
  - repeat split. rewrite <- app_assoc. reflexivity.
  - repeat split; [|discriminate]. rewrite <- app_assoc. reflexivity.
Qed.

Lemma epilogue_ledger (w : World) :
  main (epilogue clock w) = Exited /\
  ledger (world (epilogue clock w))
  = (if Nat.ltb 0 (count_status FileStatus.failed (results (status w)))
     then Phase.failed else Phase.completed,
     results (status w), overallTotalBytes (status w),
     overallDownloadedBytes (status w), totalFiles (status w), error (status w)).
Proof. split; reflexivity. Qed.

Lemma ledger_fields (w : World) (p : Phase.t) (rs : list FileResult.t)
      (total downloaded files : Z) (err : option string) :
  ledger w = (p, rs, total, downloaded, files, err) ->
  phase (status w) = p /\ results (status w) = rs /\
  overallTotalBytes (status w) = total /\
  overallDownloadedBytes (status w) = downloaded /\
  totalFiles (status w) = files /\ error (status w) = err.
Proof. unfold ledger. intros H. injection H as -> -> -> -> -> ->. repeat split. Qed.

Lemma map_file_snoc (rd : list FileResult.t) (r : FileResult.t) :
  map FileResult.file (rd ++ [r]) = map FileResult.file rd ++ [FileResult.file r].
Proof. apply map_app. Qed.

Lemma Inv_download_step (input : JobInput) (evs : list Event)
      (mws : list ModelWithSize) (queues : list Queue) (w : World)
      (i : nat) (s : Settle) (c' : Config) :
  Inv env input evs {| world := w; main := Downloading mws queues |} ->
  resumeQueue clock mws queues i s w = Some c' ->
  Inv env input (evs ++ [Settled i s]) c'.
Proof.
  intros (Hdl & models & Hin & Hlen & Hmws & Hne & (rd & Hres & Hrd & Hns) &
          Hph & Htot & Htf & HQ) Hstep.
  cbn [world main] in *.
  assert (Hps : probesOf (evs ++ [Settled i s]) = probesOf evs)
    by (rewrite probesOf_app; simpl; apply app_nil_r).
  unfold resumeQueue in Hstep.
  destruct (queues !! i) as [q|] eqn:Hq; [|discriminate].
  destruct (current q) as [[m a]|] eqn:Hcur; [|discriminate].
  assert (Hi : (i < length queues)%nat) by (eapply lookup_lt_Some; eauto).
  destruct (downloadModel m a s) as [[a' progress|result|]|] eqn:Hdm; [| | |discriminate];
    injection Hstep as <-.
  - (* the call goes on to its next await *)
    pose proof (downloadModel_progress _ _ _ _ _ Hdm) as Hprog.
    set (q' := {| visited := visited q; current := Some (m, a'); remaining := remaining q |}).
    assert (Hchunks : chunkBytes (evs ++ [Settled i s])
                      = chunkBytes evs + match progress with Some n => n | None => 0 end).
    { rewrite chunkBytes_app. f_equal. subst progress. destruct s; simpl; lia. }
    assert (Hled : ledger (match progress with Some n => onProgress clock n w | None => w end)
                   = (phase (status w), results (status w), overallTotalBytes (status w),
                      overallDownloadedBytes (status w)
                      + match progress with Some n => n | None => 0 end,
                      totalFiles (status w), error (status w))).
    { destruct progress; [apply ledger_onProgress|]. unfold ledger. f_equal.
      f_equal. f_equal. lia. }
    apply ledger_fields in Hled as (Hph' & Hres' & Htot' & Hdl' & Htf' & _).
    split; [cbn [world]; rewrite Hdl', Hchunks, Hdl; reflexivity|].
    cbn [main world]. rewrite Hps. exists models.
    split; [exact Hin|]. split; [exact Hlen|]. split; [exact Hmws|]. split; [exact Hne|].
    split; [|split; [congruence|split; [congruence|split; [congruence|]]]].
    + exists rd. split; [congruence|]. split; [|exact Hns].
      rewrite Hrd. apply Permutation_map. symmetry.
      rewrite (terminatedEntries_insert queues i q q' [] Hq) by (symmetry; apply app_nil_r).
      rewrite app_nil_r. reflexivity.
    + destruct HQ as ((groups & Hgroups & Hentries) & Hrest & _).
      split; [|split].
      * exists groups. split; [exact Hgroups|].
        rewrite (entries_insert queues i q q' Hq); [exact Hentries|].
        unfold entries, inFlight. subst q'. cbn. rewrite Hcur. reflexivity.
      * apply Forall_insert; [exact Hrest|]. subst q'. cbn. discriminate.
      * apply Exists_insert_here; [exact Hi|]. subst q'. cbn. discriminate.
  - (* the call returns *)
    pose proof (downloadModel_return_not_chunk _ _ _ _ Hdm ltac:(discriminate)) as Hnc.
    assert (Hchunks : chunkBytes (evs ++ [Settled i s]) = chunkBytes evs).
    { rewrite chunkBytes_app. destruct s; try contradiction; simpl; lia. }
    destruct (recordResult_queue m a result q w Hcur) as (Hv & He & Hr).
    pose proof (ledger_recordResult clock m result q w) as Hled.
    set (r := recordResult clock m result q w) in *.
    set (res := {| FileResult.file := dest m;
                   FileResult.status :=
                     DownloadStatus.to_file (DownloadResult.status result);
                   FileResult.reason := DownloadResult.reason result |}) in *.
    assert (Hterm : terminatedEntries (<[i := fst r]> queues)
                    ≡ₚ terminatedEntries queues ++ [m])
      by (apply (terminatedEntries_insert queues i q); assumption).
    assert (HRes : forall w', results (status w') = results (status w) ++ [res] ->
              ResultsInv env Permutation (zip models (probesOf evs))
                         (terminatedEntries (<[i := fst r]> queues)) (status w')).
    { intros w' Hw'. exists (rd ++ [res]). split; [rewrite Hw', Hres, app_assoc; reflexivity|].
      split.
      - rewrite map_file_snoc, Hrd, Hterm, map_app. reflexivity.
      - apply Forall_app. split; [exact Hns|]. constructor; [|constructor].
        unfold is_skipped. subst res. cbn. destruct (DownloadResult.status result); discriminate. }
    destruct HQ as ((groups & Hgroups & Hentries) & Hrest & _).
    assert (Hentries' : map entries (<[i := fst r]> queues) = map snd groups)
      by (rewrite (entries_insert queues i q (fst r) Hq He); exact Hentries).
    assert (Hrest' : Forall (fun q => current q = None -> remaining q = [])
                            (<[i := fst r]> queues))
      by (apply Forall_insert; assumption).
    apply ledger_fields in Hled as (Hph' & Hres' & Htot' & Hdl' & Htf' & _).
    unfold joinAll.
    destruct (forallb queueDone (<[i := fst r]> queues)) eqn:Hall.
    + apply forallb_queueDone in Hall.
      destruct (epilogue_ledger (snd r)) as (Hmain & Hled).
      apply ledger_fields in Hled as (Hph2 & Hres2 & Htot2 & Hdl2 & Htf2 & _).
      split; [rewrite Hdl2, Hdl', Hchunks, Hdl; reflexivity|].
      rewrite Hmain, Hps. right. exists models.
      split; [exact Hin|]. split; [exact Hlen|]. rewrite <- Hmws.
      assert (Hall_mws : terminatedEntries (<[i := fst r]> queues) ≡ₚ mws).
      { apply terminated_all; [exists groups; split|..]; assumption. }
      split; [|split; [|split; [|split]]].
      * destruct (HRes (world (epilogue clock (snd r)))) as (rd' & Hrd1 & Hrd2 & Hrd3);
          [congruence|].
        exists rd'. split; [exact Hrd1|]. split; [|exact Hrd3].
        rewrite Hrd2, Hall_mws. reflexivity.
      * rewrite Hph2, Hres2.
        destruct (Nat.ltb 0 (count_status FileStatus.failed (results (status (snd r)))))
          eqn:Hcount.
        -- left. split; [reflexivity|]. apply count_failed_positive. exact Hcount.
        -- right. split; [reflexivity|]. rewrite <- count_failed_positive.
           congruence.
      * intros Hnil. contradiction.
      * congruence.
      * congruence.
    + split; [cbn [world]; rewrite Hdl', Hchunks, Hdl; reflexivity|].
      cbn [main world]. rewrite Hps. exists models.
      split; [exact Hin|]. split; [exact Hlen|]. split; [exact Hmws|]. split; [exact Hne|].
      split; [apply HRes; exact Hres'|].
      split; [congruence|]. split; [congruence|]. split; [congruence|].
      split; [exists groups; split; assumption|].
      split; [exact Hrest'|]. apply not_all_done. exact Hall.
  - (* the awaited promise rejects *)
    pose proof (downloadModel_return_not_chunk _ _ _ _ Hdm ltac:(discriminate)) as Hnc.
    assert (Hchunks : chunkBytes (evs ++ [Settled i s]) = chunkBytes evs).
    { rewrite chunkBytes_app. destruct s; try contradiction; simpl; lia. }
    split; [cbn [world]; rewrite Hchunks; exact Hdl|].
    cbn [main world]. rewrite Hps. right. exists models.
    split; [exact Hin|]. split; [exact Hlen|]. rewrite <- Hmws.
    split; [exact Hne|]. split; [|split; [exact Hph|split; [exact Htot|exact Htf]]].
    exists rd. split; [exact Hres|]. split; [|exact Hns].
    rewrite Hrd. apply fmap_submseteq, terminated_within. exact HQ.
Qed.

Lemma Inv_initial (input : JobInput) : Inv env input [] (initial input).
Proof. split; [reflexivity|]. repeat split. Qed.

Lemma Inv_step (input : JobInput) (evs : list Event) (c : Config) (e : Event)
      (c' : Config) :
  Inv env input evs c -> step env clock c e = Some c' -> Inv env input (evs ++ [e]) c'.
Proof.
  intros HInv Hstep. destruct c as [w mn]. unfold step in Hstep. cbn [main world] in Hstep.
  destruct mn as [i|seen todo mws|mws queues| |].
  - destruct e; try discriminate. injection Hstep as <-.
    destruct HInv as (_ & -> & Hw & ->). cbn [world] in Hw. subst w.
    apply Inv_boot.
  - destruct todo as [|m todo]; [discriminate|].
    destruct e as [|size fs|]; try discriminate. injection Hstep as <-.
    pose proof HInv as (_ & models & -> & _ & _ & _ & Hmws & _).
    cbn [main world] in Hmws. subst mws.
    apply Inv_preflight_step. exact HInv.
  - destruct e as [| |i s]; try discriminate.
    eapply Inv_download_step; eauto.
  - destruct e; discriminate.
  - destruct e; discriminate.
Qed.

(** Every configuration a run reaches satisfies the invariant. *)
Lemma Inv_run (input : JobInput) (evs : list Event) (c : Config) :
  run env clock (initial input) evs = Some c -> Inv env input evs c.
Proof.
  apply (run_invariant env clock (Inv env input)).
  - apply Inv_initial.
  - intros evs' c1 e c2. apply Inv_step.
Qed.
End Download_facts.

(** ** Byte accounting *)

Lemma sumSizes_classify (env : Env) (probed : list (Model * (Z * Fs.t))) :
  sumSizes (classify env probed) = neededBytes env probed.
Proof.
  induction probed as [|p probed IH]; simpl; [reflexivity|].
  rewrite sumSizes_app, IH. destruct (skip (decisionOf env p)); simpl; lia.
Qed.

Lemma zip_nil_r {A B : Type} (l : list A) : zip l (@nil B) = [].
Proof. destruct l; reflexivity. Qed.

(** The total is that of the entries classified so far. *)
Lemma Inv_total (env : Env) (models : list Model) (evs : list Event) (c : Config) :
  Inv env (Jobs models) evs c ->
  overallTotalBytes (status (world c))
  = sumSizes (classify env (zip models (probesOf evs))).
Proof.
  intros (_ & HInv). destruct (main c) as [i|seen todo mws|mws queues| |].
  - destruct HInv as (_ & -> & ->). cbn [probesOf flat_map]. rewrite zip_nil_r. reflexivity.
  - destruct HInv as (models' & Hin & -> & _ & Hlen & -> & _ & _ & Htot & _).
    injection Hin as ->. rewrite zip_longer by exact Hlen. exact Htot.
  - destruct HInv as (models' & Hin & _ & -> & _ & _ & _ & Htot & _).
    injection Hin as ->. exact Htot.
  - destruct HInv as [(Hin & _)|(models' & Hin & _ & _ & _ & _ & Htot & _)];
      [discriminate|]. injection Hin as ->. exact Htot.
  - destruct HInv as [(Hin & _)|(models' & Hin & _ & _ & _ & _ & Htot & _)];
      [discriminate|]. injection Hin as ->. exact Htot.
Qed.

(** Once the phase is no longer preflight every entry has been probed. *)
Lemma Inv_probed_all (env : Env) (models : list Model) (evs : list Event) (c : Config) :
  Inv env (Jobs models) evs c ->
  phase (status (world c)) <> Phase.preflight ->
  length (probesOf evs) = length models.
Proof.
  intros (_ & HInv) Hph. destruct (main c) as [i|seen todo mws|mws queues| |].
  - destruct HInv as (_ & Hw & _). rewrite Hw in Hph. contradiction.
  - destruct HInv as (models' & _ & _ & _ & _ & _ & _ & Hpre & _). contradiction.
  - destruct HInv as (models' & Hin & Hlen & _). injection Hin as ->. exact Hlen.
  - destruct HInv as [(Hin & _)|(models' & Hin & Hlen & _)]; [discriminate|].
    injection Hin as ->. exact Hlen.
  - destruct HInv as [(Hin & _)|(models' & Hin & Hlen & _)]; [discriminate|].
    injection Hin as ->. exact Hlen.
Qed.

(** C10.  At every point of a run over a job list, [overallTotalBytes] is
    the sum, over the entries probed so far, of the probed size of those
    that are not skipped (a skipped entry adds nothing, an unknown size adds
    0); once the phase has left preflight every entry of the job list has
    been probed.  [overallDownloadedBytes] is the sum of the lengths of all
    the chunks delivered, whatever becomes of the download they belong to.
    In the sample run the hub sends 15 bytes for an entry probed at 10 bytes:
    the download fails on the size mismatch, 20 bytes are counted against a
    total of 10, and the percentage is 200. *)
Theorem byte_accounting
        (env : Env) (clock : nat -> Z) (models : list Model)
        (events : list Event) (c : Config) :
  run env clock (initial (Jobs models)) events = Some c ->
  let st := status (world c) in
  overallTotalBytes st = neededBytes env (zip models (probesOf events)) /\
  (phase st <> Phase.preflight -> length (probesOf events) = length models) /\
  overallDownloadedBytes st = chunkBytes events /\
  (exists c',
     run Sample_inputs.env Sample_inputs.clock (initial (Jobs Sample_inputs.jobs))
         Sample_inputs.to_the_end = Some c' /\
     FileResult.status <$> results (status (world c'))
     = [FileStatus.skipped; FileStatus.failed; FileStatus.success] /\
     overallTotalBytes (status (world c')) = 10 /\
     overallDownloadedBytes (status (world c')) = 20 /\
     (100 < percent (status (world c')))%Q).
Proof.
  intros Hrun st. apply Inv_run in Hrun. subst st.
  split; [|split; [|split]].
  - rewrite <- sumSizes_classify. apply Inv_total. exact Hrun.
  - apply (Inv_probed_all env). exact Hrun.
  - exact (proj1 Hrun).
  - eexists. split; [vm_compute; reflexivity|]. repeat split.
Qed.

Lemma byte_accounting_witness :
  option_map (fun c => (overallTotalBytes (status (world c)),
                        overallDownloadedBytes (status (world c))))
             (run Sample_inputs.env Sample_inputs.clock (initial (Jobs Sample_inputs.jobs))
                  Sample_inputs.both_streaming)
  = Some (10, 15).
Proof.
  destruct (run Sample_inputs.env Sample_inputs.clock (initial (Jobs Sample_inputs.jobs))
                Sample_inputs.both_streaming) as [c|] eqn:Hrun.
  - destruct (byte_accounting _ _ _ _ _ Hrun) as (Htot & _ & Hdl & _).
    cbn [option_map]. rewrite Htot, Hdl. reflexivity.
  - vm_compute in Hrun. discriminate.
Defined.

(** ** The result list *)

Lemma zip_prefix_within {A B : Type} (l : list A) (k : list B) :
  map fst (zip l k) ⊆+ l.
Proof.
  revert k. induction l as [|x l IH]; intros [|y k]; simpl;
    try apply submseteq_nil_l.
  apply submseteq_skip, IH.
Qed.

(** The files of the results are among the destinations of the job list,
    each as often as there. *)
Lemma Inv_results_within (env : Env) (models : list Model) (evs : list Event)
      (c : Config) :
  Inv env (Jobs models) evs c ->
  map FileResult.file (results (status (world c))) ⊆+ map dest models.
Proof.
  intros (_ & HInv).
  assert (Hwithin : forall probed rd done,
            map fst probed ⊆+ models ->
            map FileResult.file rd ⊆+ map destOf done ->
            done ⊆+ classify env probed ->
            map FileResult.file (skippedResults env probed ++ rd) ⊆+ map dest models).
  { intros probed rd done Hprobed Hrd Hdone.
    rewrite map_app, skippedResults_files.
    transitivity (map dest (map fst probed)); [|apply fmap_submseteq, Hprobed].
    rewrite <- classification_partition. apply submseteq_app; [reflexivity|].
    etransitivity; [exact Hrd|]. apply fmap_submseteq, Hdone. }
  destruct (main c) as [i|seen todo mws|mws queues| |].
  - destruct HInv as (_ & -> & _). apply submseteq_nil_l.
  - destruct HInv as (models' & Hin & -> & _ & Hlen & -> & -> & _).
    injection Hin as ->. rewrite <- (app_nil_r (skippedResults _ _)).
    apply (Hwithin _ [] []); [|reflexivity|apply submseteq_nil_l].
    rewrite fst_zip_full by exact Hlen. apply submseteq_inserts_r. reflexivity.
  - destruct HInv as (models' & Hin & Hlen & -> & _ & (rd & -> & Hrd & _) & _ & _ & _ & HQ).
    injection Hin as <-.
    apply (Hwithin _ rd (terminatedEntries queues)).
    + apply zip_prefix_within.
    + rewrite Hrd. reflexivity.
    + apply terminated_within. exact HQ.
  - destruct HInv as [(Hin & _)|(models' & Hin & Hlen & (rd & -> & Hrd & _) & _)];
      [discriminate|]. injection Hin as <-.
    apply (Hwithin _ rd (classify env (zip models (probesOf evs)))).
    + apply zip_prefix_within.
    + rewrite Hrd. reflexivity.
    + reflexivity.
  - destruct HInv as [(Hin & _)|(models' & Hin & Hlen & _ & (rd & -> & Hrd & _) & _)];
      [discriminate|]. injection Hin as <-.
    apply (Hwithin _ rd (classify env (zip models (probesOf evs)))).
    + apply zip_prefix_within.
    + exact Hrd.
    + reflexivity.
Qed.


(** *** A run can end *)

Lemma skip_found_in_place (env : Env) (m : Model) :
  skip (checkNeedsDownload env (found_in_place m) m 0) = true.
Proof.
  unfold checkNeedsDownload, found_in_place. cbn.
  destruct (sha256 m) as [h|]; cbn; [|reflexivity].
  destruct (truthy h); [|reflexivity].
  rewrite String.eqb_refl. reflexivity.
Qed.

Lemma run_skip_rest (env : Env) (clock : nat -> Z) (seen todo : list Model) (w : World) :
  todo <> [] ->
  exists c',
    run env clock {| world := w; main := PreflightLoop seen todo [] |}
        (map (fun m => Probed 0 (found_in_place m)) todo) = Some c' /\
    main c' = Exited.
Proof.
  revert seen w. induction todo as [|m todo IH]; intros seen w Hne; [contradiction|].
  cbn [map run step main world]. unfold preflightBody.
  rewrite skip_found_in_place. cbn [fst snd].
  destruct todo as [|m' todo].
  - eexists. split; reflexivity.
  - unfold continuePreflight. apply IH. discriminate.
Qed.

(** Whatever the job list, the run in which every destination is found in
    place ends with [main] returning. *)
Lemma run_all_in_place (env : Env) (clock : nat -> Z) (models : list Model) :
  exists c,
    run env clock (initial (Jobs models)) (all_in_place models) = Some c /\
    main c = Exited.
Proof.
  unfold all_in_place. cbn [run step initial main world boot].
  destruct models as [|m models].
  - eexists. split; reflexivity.
  - unfold continuePreflight. apply run_skip_rest. discriminate.
Qed.

Lemma Inv_totalFiles (env : Env) (models : list Model) (evs : list Event) (c : Config) :
  Inv env (Jobs models) evs c ->
  (exists i, main c = Boot i) \/ totalFiles (status (world c)) = Z.of_nat (length models).
Proof.
  intros (_ & HInv). destruct (main c) as [i|seen todo mws|mws queues| |].
  - left. eauto.
  - right. destruct HInv as (models' & Hin & _ & _ & _ & _ & _ & _ & _ & Htf).
    injection Hin as ->. exact Htf.
  - right. destruct HInv as (models' & Hin & _ & _ & _ & _ & _ & _ & Htf & _).
    injection Hin as ->. exact Htf.
  - right. destruct HInv as [(Hin & _)|(models' & Hin & _ & _ & _ & _ & _ & Htf)];
      [discriminate|]. injection Hin as ->. exact Htf.
  - right. destruct HInv as [(Hin & _)|(models' & Hin & _ & _ & _ & _ & _ & Htf)];
      [discriminate|]. injection Hin as ->. exact Htf.
Qed.

Lemma submseteq_NoDup {A : Type} (l k : list A) : l ⊆+ k -> NoDup k -> NoDup l.
Proof.
  intros Hsub Hk. apply submseteq_sublist_l in Hsub as (l' & Hsub & Hperm).
  eapply sublist_NoDup; [|exact Hsub]. rewrite Hperm. exact Hk.
Qed.

(** *** The download phase can be brought to its end *)
Section Finish_facts.
Variable env : Env.
Variable clock : nat -> Z.

Lemma drain_returns (m : ModelWithSize) (a : Await) :
  exists result, runDownload m a (drain m a) = Returned result.
Proof.
  assert (Hend : forall w, exists result,
            runDownload m (AwaitFinished w) (afterEnd m w) = Returned result).
  { intros w. unfold afterEnd. cbn [runDownload downloadModel].
    destruct ((0 <? size m) && negb (w =? size m)); [eexists; reflexivity|].
    destruct (truthy_opt (sha256 m)); [|eexists; reflexivity].
    cbn [runDownload downloadModel].
    destruct (negb (opt_string_eqb (Some "") (sha256 m))); eexists; reflexivity. }
  destruct a as [|w|w|]; cbn [drain].
  - eexists. reflexivity.
  - cbn [runDownload downloadModel]. apply Hend.
  - apply Hend.
  - cbn [runDownload downloadModel].
    destruct (negb (opt_string_eqb (Some "") (sha256 m))); eexists; reflexivity.
Qed.

(** Driving the download in flight of activation [i] to its return leads to
    the join with that activation one entry further. *)
Lemma run_to_return (mws : list ModelWithSize) (settles : list Settle)
      (queues : list Queue) (i : nat) (q : Queue) (m : ModelWithSize) (a : Await)
      (w : World) (result : DownloadResult.t) :
  queues !! i = Some q -> current q = Some (m, a) ->
  runDownload m a settles = Returned result ->
  exists w',
    run env clock {| world := w; main := Downloading mws queues |}
        (map (Settled i) settles)
    = Some (joinAll clock mws
              (<[i := fst (recordResult clock m result q w')]> queues)
              (snd (recordResult clock m result q w'))).
Proof.
  revert queues q a w. induction settles as [|s rest IH]; intros queues q a w Hq Hcur Hrun.
  - discriminate.
  - cbn [runDownload] in Hrun. cbn [map run step main world]. unfold resumeQueue.
    rewrite Hq, Hcur.
    assert (Hi : (i < length queues)%nat) by (eapply lookup_lt_Some; eauto).
    destruct (downloadModel m a s) as [[a' progress|result'|]|]; try discriminate.
    + set (q' := {| visited := visited q; current := Some (m, a');
                    remaining := remaining q |}).
      destruct (IH (<[i := q']> queues) q' a'
                   (match progress with Some n => onProgress clock n w | None => w end))
        as (w' & Hrest); [apply list_lookup_insert_eq; exact Hi|reflexivity|exact Hrun|].
      exists w'. rewrite Hrest, list_insert_insert_eq. reflexivity.
    + destruct rest; [|discriminate]. injection Hrun as ->.
      exists w. reflexivity.
    + destruct rest; discriminate.
Qed.

Lemma unfinished_insert (queues : list Queue) (i : nat) (q q' : Queue) :
  queues !! i = Some q ->
  (unfinished (<[i := q']> queues) + length (inFlight q ++ remaining q)
   = unfinished queues + length (inFlight q' ++ remaining q'))%nat.
Proof.
  intros Hq. unfold unfinished.
  assert (Hi : (i < length queues)%nat) by (eapply lookup_lt_Some; eauto).
  rewrite insert_take_drop by exact Hi.
  rewrite <- (take_drop_middle queues i q Hq) at 3.
  rewrite !map_app, !concat_app. simpl. rewrite !length_app. lia.
Qed.

Lemma recordResult_unfinished (m : ModelWithSize) (a : Await) (result : DownloadResult.t)
      (q : Queue) (w : World) :
  current q = Some (m, a) ->
  let q' := fst (recordResult clock m result q w) in
  length (inFlight q) = 1%nat /\
  length (inFlight q' ++ remaining q') = length (remaining q).
Proof.
  intros Hcur. unfold recordResult, enterLoop, inFlight. rewrite Hcur.
  cbn [remaining]. destruct (remaining q); cbn; auto.
Qed.

Lemma can_finish (n : nat) :
  forall mws queues w,
    (unfinished queues <= n)%nat ->
    Forall (fun q => current q = None -> remaining q = []) queues ->
    Exists (fun q => current q <> None) queues ->
    exists events c',
      run env clock {| world := w; main := Downloading mws queues |} events = Some c' /\
      main c' = Exited.
Proof.
  induction n as [|n IH]; intros mws queues w Hn Hrest Hsome;
    apply Exists_exists in Hsome as (q & Hq & Hcur);
    apply list_elem_of_lookup in Hq as (i & Hq);
    destruct (current q) as [[m a]|] eqn:Hcurrent; try congruence;
    pose proof (unfinished_insert queues i q) as Hcount;
    destruct (drain_returns m a) as (result & Hdrain);
    destruct (run_to_return mws _ queues i q m a w result Hq Hcurrent Hdrain)
      as (w' & Hrun);
    destruct (recordResult_unfinished m a result q w' Hcurrent) as (Hone & Hless);
    destruct (recordResult_queue clock m a result q w' Hcurrent) as (_ & _ & Hdone);
    specialize (Hcount (fst (recordResult clock m result q w')) Hq);
    rewrite length_app, Hone, Hless in Hcount.
  - lia.
  - unfold joinAll in Hrun.
    destruct (forallb queueDone (<[i := fst (recordResult clock m result q w')]> queues))
      eqn:Hall.
    + eexists _, _. split; [exact Hrun | reflexivity].
    + destruct (IH mws (<[i := fst (recordResult clock m result q w')]> queues)
                   (snd (recordResult clock m result q w')))
        as (events & c' & Hrest' & Hexit).
      * lia.
      * apply Forall_insert; assumption.
      * apply not_all_done. exact Hall.
      * exists (map (Settled i) (drain m a) ++ events), c'.
        rewrite run_app, Hrun. split; assumption.
Qed.

(** From every point of the download phase the run can go on until [main]
    returns. *)
Lemma download_phase_can_end (models : list Model) (events : list Event) (c : Config)
      (mws : list ModelWithSize) (queues : list Queue) :
  run env clock (initial (Jobs models)) events = Some c ->
  main c = Downloading mws queues ->
  exists events' c',
    run env clock c events' = Some c' /\ main c' = Exited.
Proof.
  intros Hrun Hmain. apply Inv_run in Hrun. destruct Hrun as (_ & HInv).
  rewrite Hmain in HInv.
  destruct HInv as (models' & _ & _ & _ & _ & _ & _ & _ & _ & _ & Hrest & Hsome).
  destruct c as [w mn]. cbn [main] in Hmain. subst mn.
  eapply can_finish; eauto.
Qed.
End Finish_facts.

(** C3.  Take a job list with pairwise distinct destinations and any point
    of a run over it.  Before the first probe the result list is empty.
    In the first loop it holds exactly the results of the entries classified
    as skipped so far, in their order.  In the download phase it holds
    those, followed by one result that is not "skipped" per entry whose
    download has returned, and nothing else.  Always, it is no longer than
    the job list and than [totalFiles], and no destination occurs twice in
    it.  When [main] has returned, its files are the destinations of the job
    list, one result each.  And the run can reach that point: from the
    start, when every destination is found in place, and from every point
    of the download phase. *)
Theorem results_one_per_entry
        (env : Env) (clock : nat -> Z) (models : list Model)
        (events : list Event) (c : Config) :
  NoDup (map dest models) ->
  run env clock (initial (Jobs models)) events = Some c ->
  let st := status (world c) in
  let probed := zip models (probesOf events) in
  (forall i, main c = Boot i -> results st = []) /\
  (forall seen todo mws, main c = PreflightLoop seen todo mws ->
     results st = skippedResults env probed /\
     map FileResult.file (results st) = map dest (skippedEntries env probed) /\
     Forall is_skipped (results st)) /\
  (forall mws queues, main c = Downloading mws queues ->
     exists rd,
       results st = skippedResults env probed ++ rd /\
       map FileResult.file rd ≡ₚ map destOf (terminatedEntries queues) /\
       Forall (fun r => ~ is_skipped r) rd) /\
  (length (results st) <= length models)%nat /\
  Z.of_nat (length (results st)) <= totalFiles st /\
  NoDup (map FileResult.file (results st)) /\
  (main c = Exited ->
     map FileResult.file (results st) ≡ₚ map dest models /\
     length (results st) = length models) /\
  (exists c',
     run env clock (initial (Jobs models)) (all_in_place models) = Some c' /\
     main c' = Exited) /\
  (forall mws queues, main c = Downloading mws queues ->
     exists events' c', run env clock c events' = Some c' /\ main c' = Exited).
Proof.
  intros Hnodup Hrun st probed.
  pose proof (download_phase_can_end env clock models events c) as Hfinish.
  specialize (fun mws queues => Hfinish mws queues Hrun).
  apply Inv_run in Hrun.
  pose proof (Inv_results_within env models events c Hrun) as Hwithin.
  pose proof (Inv_totalFiles env models events c Hrun) as Hfiles.
  assert (Hlen : (length (results st) <= length models)%nat).
  { apply submseteq_length in Hwithin. rewrite !length_map in Hwithin. exact Hwithin. }
  destruct Hrun as (_ & HInv). fold st in HInv.
  split; [|split; [|split; [|split; [|split; [|split; [|split; [|split]]]]]]].
  - intros i Hmain. rewrite Hmain in HInv. destruct HInv as (_ & Hw & _).
    subst st. rewrite Hw. reflexivity.
  - intros seen todo mws Hmain. rewrite Hmain in HInv.
    destruct HInv as (models' & Hin & Hmodels & _ & Hlen' & _ & Hres & _).
    injection Hin as <-. subst probed.
    rewrite Hmodels, zip_longer by exact Hlen'. rewrite Hres.
    split; [reflexivity|]. split; [apply skippedResults_files|].
    apply skippedResults_skipped.
  - intros mws queues Hmain. rewrite Hmain in HInv.
    destruct HInv as (models' & Hin & _ & _ & _ & HRes & _).
    injection Hin as <-. exact HRes.
  - exact Hlen.
  - destruct Hfiles as [(i & Hmain)|Htf].
    + rewrite Hmain in HInv. destruct HInv as (_ & Hw & _).
      subst st. rewrite Hw. reflexivity.
    + fold st in Htf. rewrite Htf. lia.
  - eapply submseteq_NoDup; [exact Hwithin | exact Hnodup].
  - intros Hmain. rewrite Hmain in HInv.
    destruct HInv as [(Hin & _)|(models' & Hin & Hlen' & (rd & Hres & Hrd & _) & _)];
      [discriminate|]. injection Hin as <-.
    assert (Hperm : map FileResult.file (results st) ≡ₚ map dest models).
    { rewrite Hres, map_app, skippedResults_files, Hrd, classification_partition.
      rewrite fst_zip_full by exact Hlen'. reflexivity. }
    split; [exact Hperm|].
    apply Permutation_length in Hperm. rewrite !length_map in Hperm. exact Hperm.
  - apply run_all_in_place.
  - exact Hfinish.
Qed.

(** The sample run to its end: three entries, three results. *)
Lemma results_one_per_entry_witness :
  NoDup (map dest Sample_inputs.jobs) /\
  option_map (fun c => length (results (status (world c))))
             (run Sample_inputs.env Sample_inputs.clock (initial (Jobs Sample_inputs.jobs))
                  Sample_inputs.to_the_end)
  = Some 3%nat.
Proof.
  assert (Hnodup : NoDup (map dest Sample_inputs.jobs)).
  { apply NoDup_ListNoDup. repeat constructor; simpl; intuition discriminate. }
  split; [exact Hnodup|].
  destruct (run Sample_inputs.env Sample_inputs.clock (initial (Jobs Sample_inputs.jobs))
                Sample_inputs.to_the_end) as [c|] eqn:Hrun.
  - pose proof (results_one_per_entry _ _ _ _ _ Hnodup Hrun)
      as (_ & _ & _ & _ & _ & _ & Hexit & _).
    assert (Hmain : main c = Exited)
      by (vm_compute in Hrun; injection Hrun as <-; reflexivity).
    destruct (Hexit Hmain) as [_ Hlen]. cbn [option_map]. rewrite Hlen. reflexivity.
  - vm_compute in Hrun. discriminate.
Defined.

(** ** The phase *)

Lemma Inv_phase (env : Env) (input : JobInput) (evs : list Event) (c : Config) :
  Inv env input evs c ->
  match main c with
  | Boot _ | PreflightLoop _ _ _ => phase (status (world c)) = Phase.preflight
  | Downloading _ _ => phase (status (world c)) = Phase.downloading
  | Exited => Phase.terminal (phase (status (world c))) = true
  | Crashed => Phase.terminal (phase (status (world c))) = false
  end.
Proof.
  intros (_ & HInv). destruct (main c) as [i|seen todo mws|mws queues| |].
  - destruct HInv as (_ & -> & _). reflexivity.
  - destruct HInv as (models & _ & _ & _ & _ & _ & _ & Hph & _). exact Hph.
  - destruct HInv as (models & _ & _ & _ & _ & _ & Hph & _). exact Hph.
  - destruct HInv as [(_ & Hled)|(models & _ & _ & _ & [[-> _]|[-> _]] & _)];
      [|reflexivity..].
    apply ledger_fields in Hled as (-> & _). reflexivity.
  - destruct HInv as [(_ & ->)|(models & _ & _ & _ & _ & -> & _)]; reflexivity.
Qed.

Lemma resumeQueue_main (clock : nat -> Z) (mws : list ModelWithSize)
      (queues : list Queue) (i : nat) (s : Settle) (w : World) (c' : Config) :
  resumeQueue clock mws queues i s w = Some c' ->
  main c' = Crashed \/ main c' = Exited \/ exists queues', main c' = Downloading mws queues'.
Proof.
  unfold resumeQueue. destruct (queues !! i) as [q|]; [|discriminate].
  destruct (current q) as [[m a]|]; [|discriminate].
  destruct (downloadModel m a s) as [[a' progress|result|]|]; [| | |discriminate];
    intros H; injection H as <-.
  - right. right. eexists. reflexivity.
  - unfold joinAll. destruct (forallb queueDone _).
    + right. left. reflexivity.
    + right. right. eexists. reflexivity.
  - left. reflexivity.
Qed.

Lemma afterPreflight_phase (clock : nat -> Z) (mws : list ModelWithSize) (w : World) :
  phase (status (world (afterPreflight clock mws w)))
  = match mws with
    | [] => Phase.completed
    | _ :: _ => Phase.downloading
    end.
Proof.
  pose proof (afterPreflight_cases clock mws w) as Hcases. cbv zeta in Hcases.
  set (c' := afterPreflight clock mws w) in *. clearbody c'.
  destruct Hcases as [(Hnil & _ & Hled)|[(Hne & _ & Hled & _)|(Hne & Hled & _)]];
    apply ledger_fields in Hled as (-> & _); destruct mws; congruence.
Qed.

(** What a step does to the phase. *)
Lemma step_phase (env : Env) (clock : nat -> Z) (input : JobInput)
      (evs : list Event) (c : Config) (e : Event) (c' : Config) :
  Inv env input evs c -> step env clock c e = Some c' ->
  let p := phase (status (world c)) in
  let p' := phase (status (world c')) in
  let probes' := probesOf (evs ++ [e]) in
  (p = Phase.preflight /\
   ((p' = Phase.preflight /\
     (input = Malformed \/
      exists models, input = Jobs models /\ (length probes' < length models)%nat)) \/
    (p' = Phase.downloading /\
     exists models, input = Jobs models /\ length probes' = length models /\
                    classify env (zip models probes') <> []) \/
    (p' = Phase.completed /\ main c' = Exited /\
     exists models, input = Jobs models /\ length probes' = length models /\
                    classify env (zip models probes') = []) \/
    (p' = Phase.failed /\ main c' = Exited /\ input = Unset /\
     results (status (world c')) = [] /\
     error (status (world c')) = Some "MODELS environment variable is not set"))) \/
  (p = Phase.downloading /\
   ((p' = Phase.downloading /\
     (main c' = Crashed \/
      exists mws queues, main c' = Downloading mws queues /\
                         Exists (fun q => current q <> None) queues)) \/
    (main c' = Exited /\
     (p' = Phase.failed /\ Exists is_failed (results (status (world c'))) \/
      p' = Phase.completed /\ ~ Exists is_failed (results (status (world c')))) /\
     exists models, input = Jobs models /\
                    map FileResult.file (results (status (world c'))) ≡ₚ map dest models))).
Proof.
  intros HInv Hstep p p' probes'. subst p p'.
  pose proof (Inv_step env clock input evs c e c' HInv Hstep) as HInv'.
  pose proof (Inv_phase env input evs c HInv) as Hp.
  pose proof (Inv_phase env input _ c' HInv') as Hp'.
  destruct c as [w mn]. unfold step in Hstep. cbn [main world] in *.
  destruct mn as [i|seen todo mws|mws queues| |].
  - (* boot *)
    left. split; [exact Hp|].
    destruct e; try discriminate. injection Hstep as <-.
    destruct HInv as (_ & -> & Hw & ->). cbn [world] in Hw. subst w.
    destruct input as [| |models]; unfold boot.
    + right. right. right. repeat split.
    + left. split; [reflexivity|]. left. reflexivity.
    + destruct models as [|m models].
      * right. right. left. split; [reflexivity|]. split; [reflexivity|].
        exists []. repeat split.
      * left. split; [reflexivity|]. right. exists (m :: models).
        split; [reflexivity|]. cbn. lia.
  - (* the first loop *)
    left. split; [exact Hp|].
    destruct todo as [|m todo]; [discriminate|].
    destruct e as [|size fs|]; try discriminate. injection Hstep as <-.
    destruct HInv as (_ & models & -> & Hmodels & _ & Hlen & Hmws & _).
    cbn [main world] in *. subst mws.
    assert (Hps : probes' = probesOf evs ++ [(size, fs)])
      by (subst probes'; rewrite probesOf_app; reflexivity).
    destruct (preflightBody_spec env m size fs (zip seen (probesOf evs)) w) as (Hfst & _).
    set (r := preflightBody env m size fs _ w) in *.
    rewrite <- zip_snoc, <- Hps in Hfst by exact Hlen.
    unfold continuePreflight in *. destruct todo as [|t todo].
    + rewrite <- Hmodels in Hfst.
      assert (Hall : length probes' = length models).
      { rewrite Hps, Hmodels, !length_app, Hlen. reflexivity. }
      rewrite afterPreflight_phase. rewrite Hfst.
      destruct (classify env (zip models probes')) as [|x xs] eqn:Hclass.
      * right. right. left. split; [reflexivity|]. split.
        -- reflexivity.
        -- exists models. repeat split; assumption.
      * right. left. split; [reflexivity|].
        exists models. split; [reflexivity|]. split; [exact Hall|].
        rewrite Hclass. discriminate.
    + left. split; [exact Hp'|]. right. exists models. split; [reflexivity|].
      rewrite Hps, Hmodels, !length_app, Hlen. cbn. lia.
  - (* the download phase *)
    right. split; [exact Hp|].
    destruct e as [| |i s]; try discriminate.
    destruct HInv as (_ & models & -> & _).
    destruct (resumeQueue_main _ _ _ _ _ _ _ Hstep) as [Hmain|[Hmain|(queues' & Hmain)]];
      destruct HInv' as (_ & HInv'); rewrite Hmain in HInv', Hp'.
    + left. destruct HInv' as [(Hin & _)|(models' & _ & _ & _ & _ & Hph & _)];
        [discriminate|]. split; [exact Hph|]. left. exact Hmain.
    + right. split; [exact Hmain|].
      destruct HInv' as [(Hin & _)|(models' & Hin & Hlen & (rd & Hres & Hrd & _) & Hph & _)];
        [discriminate|]. injection Hin as <-. split; [exact Hph|].
      exists models. split; [reflexivity|].
      rewrite Hres, map_app, skippedResults_files, Hrd, classification_partition.
      rewrite fst_zip_full by exact Hlen. reflexivity.
    + left. destruct HInv' as (models' & _ & _ & _ & _ & _ & Hph & _ & _ & _ & _ & Hex).
      split; [exact Hph|]. right. exists mws, queues'. split; [exact Hmain | exact Hex].
  - destruct e; discriminate.
  - destruct e; discriminate.
Qed.

(** C5, as claimed, fails: without a job list the phase goes from preflight
    straight to failed, and it is failed although no entry has a failed
    result. *)
Lemma phase_failed_without_failed_entry :
  phase (status (world (initial Unset))) = Phase.preflight /\
  exists c',
    step Sample_inputs.env Sample_inputs.clock (initial Unset) Listening = Some c' /\
    phase (status (world c')) = Phase.failed /\
    results (status (world c')) = [] /\
    ~ Exists is_failed (results (status (world c'))).
Proof.
  split; [reflexivity|]. eexists. split; [reflexivity|]. repeat split.
  intros H. inversion H.
Qed.

(** C5, amended.  The phase starts as preflight.  A step is taken only in
    a phase that is not terminal.  From preflight a step either stays there
    (entries are left to probe, or the job list is malformed and the process
    dies), or goes to downloading, exactly when every entry is probed and one
    at least must be downloaded, or goes to completed, exactly when every
    entry is probed and all are skipped, or goes to failed, when there is no
    job list: then no entry is processed and the error is set.  From
    downloading a step either stays there (an activation is still running, or
    the process died), or [main] returns with every entry of the job list
    holding a result, in phase failed when one of the results is failed and
    completed when none is. *)
Theorem phase_transitions
        (env : Env) (clock : nat -> Z) (input : JobInput)
        (events : list Event) (c : Config) (e : Event) (c' : Config) :
  run env clock (initial input) events = Some c ->
  step env clock c e = Some c' ->
  let p := phase (status (world c)) in
  let p' := phase (status (world c')) in
  let probes' := probesOf (events ++ [e]) in
  phase (status (world (initial input))) = Phase.preflight /\
  Phase.terminal p = false /\
  ((p = Phase.preflight /\
    ((p' = Phase.preflight /\
      (input = Malformed \/
       exists models, input = Jobs models /\ (length probes' < length models)%nat)) \/
     (p' = Phase.downloading /\
      exists models, input = Jobs models /\ length probes' = length models /\
                     classify env (zip models probes') <> []) \/
     (p' = Phase.completed /\ main c' = Exited /\
      exists models, input = Jobs models /\ length probes' = length models /\
                     classify env (zip models probes') = []) \/
     (p' = Phase.failed /\ main c' = Exited /\ input = Unset /\
      results (status (world c')) = [] /\
      error (status (world c')) = Some "MODELS environment variable is not set"))) \/
   (p = Phase.downloading /\
    ((p' = Phase.downloading /\
      (main c' = Crashed \/
       exists mws queues, main c' = Downloading mws queues /\
                          Exists (fun q => current q <> None) queues)) \/
     (main c' = Exited /\
      (p' = Phase.failed /\ Exists is_failed (results (status (world c'))) \/
       p' = Phase.completed /\ ~ Exists is_failed (results (status (world c')))) /\
      exists models, input = Jobs models /\
                     map FileResult.file (results (status (world c'))) ≡ₚ map dest models)))).
Proof.
  intros Hrun Hstep p p' probes'. apply Inv_run in Hrun.
  pose proof (step_phase env clock input events c e c' Hrun Hstep) as Hcases.
  cbv zeta in Hcases. fold p p' probes' in Hcases.
  split; [reflexivity|]. split; [|exact Hcases].
  destruct Hcases as [(-> & _)|(-> & _)]; reflexivity.
Qed.

(** The third probe of the sample run ends the first loop: the step is
    taken in a phase that is not terminal, and it leads to downloading
    because one entry at least must be downloaded. *)
Lemma phase_transitions_witness :
  match run Sample_inputs.env Sample_inputs.clock (initial (Jobs Sample_inputs.jobs))
            Sample_inputs.probed_two with
  | Some c =>
      match step Sample_inputs.env Sample_inputs.clock c (Probed 0 Fs.empty) with
      | Some c' =>
          Phase.terminal (phase (status (world c))) = false /\
          (phase (status (world c')) = Phase.downloading ->
           classify Sample_inputs.env
                    (zip Sample_inputs.jobs
                         (probesOf (Sample_inputs.probed_two ++ [Probed 0 Fs.empty])))
           <> [])
      | None => False
      end
  | None => False
  end.
Proof.
  destruct (run Sample_inputs.env Sample_inputs.clock (initial (Jobs Sample_inputs.jobs))
                Sample_inputs.probed_two) as [c|] eqn:Hrun;
    [|vm_compute in Hrun; discriminate].
  destruct (step Sample_inputs.env Sample_inputs.clock c (Probed 0 Fs.empty))
    as [c'|] eqn:Hstep.
  - pose proof (phase_transitions _ _ _ _ _ _ _ Hrun Hstep) as (_ & Hnot & Hcases).
    split; [exact Hnot|]. intros Hdown.
    destruct Hcases as [(_ & [(Hp & _)|[(_ & models & Hin & _ & Hne)|[(Hp & _)|(Hp & _)]]])
                       |(Hp & _)]; try congruence.
    vm_compute in Hrun. injection Hrun as <-. discriminate.
  - vm_compute in Hrun. injection Hrun as <-. vm_compute in Hstep. discriminate.
Defined.

(** ** One download per host *)

Lemma Grouping_hosts {A : Type} (key : A -> option string) (items : list A)
      (groups : list (string * list A)) (k : string) (g : list A) (x : A) :
  Grouping key items groups -> (k, g) ∈ groups -> x ∈ g -> key x = Some k.
Proof.
  intros (_ & Hgroups & _) Hin Hx. destruct (Hgroups k g Hin) as [_ Hg].
  rewrite Hg in Hx. apply list_elem_of_In, filter_In in Hx as [_ Hx].
  apply opt_string_eqb_eq in Hx. exact Hx.
Qed.

Lemma inFlight_entries (q : Queue) (m : ModelWithSize) : m ∈ inFlight q -> m ∈ entries q.
Proof. intros Hm. unfold entries. apply elem_of_app. right. apply elem_of_app. auto. Qed.

Lemma inFlight_short (q : Queue) : (length (inFlight q) <= 1)%nat.
Proof. unfold inFlight. destruct (current q) as [[m a]|]; simpl; lia. Qed.

(** The downloads in flight belong to distinct groups. *)
Lemma active_hosts (groups : list (string * list ModelWithSize)) (queues : list Queue) :
  NoDup (map fst groups) ->
  (forall k g x, (k, g) ∈ groups -> x ∈ g -> hostOf x = Some k) ->
  map entries queues = map snd groups ->
  NoDup (map hostOf (activeEntries queues)) /\
  (forall m, m ∈ activeEntries queues ->
     exists k, k ∈ map fst groups /\ hostOf m = Some k).
Proof.
  unfold activeEntries. revert groups.
  induction queues as [|q queues IH]; intros groups Hnodup Hhost Hentries.
  - simpl. split; [constructor|]. intros m Hm. apply elem_of_nil in Hm. contradiction.
  - destruct groups as [|[k g] groups]; [discriminate|].
    simpl in Hentries. injection Hentries as Hq Hrest.
    simpl in Hnodup. apply NoDup_cons in Hnodup as [Hk Hnodup].
    destruct (IH groups Hnodup) as (IHnodup & IHhosts); [|exact Hrest|].
    { intros k' g' x Hin Hx. apply (Hhost k' g' x); [apply elem_of_cons; auto | exact Hx]. }
    assert (Hhere : forall m, m ∈ inFlight q -> hostOf m = Some k).
    { intros m Hm. apply (Hhost k g m); [apply elem_of_cons; auto|].
      rewrite <- Hq. apply inFlight_entries, Hm. }
    cbn [map concat]. split.
    + rewrite map_app. apply NoDup_app. split; [|split; [|exact IHnodup]].
      * unfold inFlight. destruct (current q) as [[m a]|]; simpl;
          [apply NoDup_singleton | constructor].
      * intros h Hh Hh'.
        apply list_elem_of_fmap in Hh as (m & -> & Hm).
        apply list_elem_of_fmap in Hh' as (m' & Heq & Hm').
        destruct (IHhosts m' Hm') as (k' & Hk' & Hm'k).
        rewrite (Hhere m Hm), Hm'k in Heq. injection Heq as ->. contradiction.
    + intros m Hm. apply elem_of_app in Hm as [Hm|Hm].
      * exists k. split; [apply elem_of_cons; auto | apply Hhere, Hm].
      * destruct (IHhosts m Hm) as (k' & Hk' & Hm'k).
        exists k'. split; [apply elem_of_cons; auto | exact Hm'k].
Qed.

Lemma count_at_most_one {A B : Type} (f : A -> option B) (l : list A) (y : B)
      `{EqDecision B} :
  NoDup (map f l) ->
  (length (List.filter (fun x => bool_decide (f x = Some y)) l) <= 1)%nat.
Proof.
  induction l as [|x l IH]; simpl; intros Hnodup; [lia|].
  apply NoDup_cons in Hnodup as [Hx Hnodup]. specialize (IH Hnodup).
  destruct (bool_decide (f x = Some y)) eqn:Hfx; [|exact IH].
  apply bool_decide_eq_true in Hfx.
  assert (Hnone : List.filter (fun x => bool_decide (f x = Some y)) l = []).
  { clear IH Hnodup. induction l as [|z l IHl]; simpl; [reflexivity|].
    destruct (bool_decide (f z = Some y)) eqn:Hfz.
    - apply bool_decide_eq_true in Hfz. exfalso. apply Hx.
      rewrite Hfx, <- Hfz. simpl. apply elem_of_cons. auto.
    - apply IHl. intros Hin. apply Hx. simpl. apply elem_of_cons. auto. }
  simpl. rewrite Hnone. simpl. lia.
Qed.

Lemma queue_group (groups : list (string * list ModelWithSize)) (queues : list Queue)
      (q : Queue) :
  map entries queues = map snd groups -> q ∈ queues ->
  exists k, (k, entries q) ∈ groups.
Proof.
  revert groups. induction queues as [|q' queues IH]; intros groups Hentries Hq.
  - apply elem_of_nil in Hq. contradiction.
  - destruct groups as [|[k g] groups]; [discriminate|].
    simpl in Hentries. injection Hentries as Hq' Hrest.
    apply elem_of_cons in Hq as [->|Hq].
    + exists k. rewrite Hq'. apply elem_of_cons. auto.
    + destruct (IH groups Hrest Hq) as (k' & Hk'). exists k'. apply elem_of_cons. auto.
Qed.

Lemma visited_terminated (queues : list Queue) (q : Queue) (m : ModelWithSize) :
  q ∈ queues -> m ∈ visited q -> m ∈ terminatedEntries queues.
Proof.
  intros Hq Hm. unfold terminatedEntries. apply list_elem_of_In, in_concat.
  exists (visited q). split; [|apply list_elem_of_In; exact Hm].
  apply in_map, list_elem_of_In. exact Hq.
Qed.

(** C4.  In the download phase the activations are the groups of the
    entries to download by the host name of their URL: each activation
    iterates over the entries of one host, in the order of the job list, and
    no two activations share a host.  Each has at most one download in
    flight, so that the downloads in flight have pairwise distinct hosts and
    no host has more than one.  The entries an activation is past are the
    ones that precede its download in flight, and each of them has its
    result recorded.  In the sample run two downloads, of two hosts, are
    in flight together. *)
Theorem one_download_per_host
        (env : Env) (clock : nat -> Z) (models : list Model)
        (events : list Event) (c : Config)
        (mws : list ModelWithSize) (queues : list Queue) :
  run env clock (initial (Jobs models)) events = Some c ->
  main c = Downloading mws queues ->
  (exists groups,
     Grouping hostOf mws groups /\ map entries queues = map snd groups) /\
  NoDup (map hostOf (activeEntries queues)) /\
  (forall h,
     (length (List.filter (fun m => bool_decide (hostOf m = Some h))
                          (activeEntries queues)) <= 1)%nat) /\
  (forall q, q ∈ queues ->
     (exists h,
        entries q = List.filter (fun m => opt_string_eqb (hostOf m) (Some h)) mws) /\
     entries q = visited q ++ inFlight q ++ remaining q /\
     (length (inFlight q) <= 1)%nat /\
     (forall m : ModelWithSize, m ∈ visited q ->
        exists r, r ∈ results (status (world c)) /\
                  FileResult.file r = dest m /\ ~ is_skipped r)) /\
  (exists c' mws' queues',
     run Sample_inputs.env Sample_inputs.clock (initial (Jobs Sample_inputs.jobs))
         Sample_inputs.both_streaming = Some c' /\
     main c' = Downloading mws' queues' /\
     map hostOf (activeEntries queues') = [Some "huggingface.co"; Some "civitai.com"]).
Proof.
  intros Hrun Hmain. apply Inv_run in Hrun. destruct Hrun as (_ & HInv).
  rewrite Hmain in HInv.
  destruct HInv as (models' & _ & _ & _ & _ & (rd & Hres & Hrd & Hns) & _ & _ & _ &
                    (groups & Hgroups & Hentries) & _ & _).
  assert (Hactive : NoDup (map hostOf (activeEntries queues))).
  { eapply active_hosts; [apply Hgroups| |exact Hentries].
    intros k g x. apply (Grouping_hosts hostOf mws groups). exact Hgroups. }
  split; [exists groups; split; assumption|]. split; [exact Hactive|].
  split; [intros h; apply count_at_most_one; exact Hactive|]. split.
  - intros q Hq. split; [|split; [reflexivity|split; [apply inFlight_short|]]].
    + destruct (queue_group groups queues q Hentries Hq) as (k & Hk).
      exists k. destruct Hgroups as (_ & Hgs & _). apply (Hgs k _ Hk).
    + intros m Hm.
      assert (Hdest : destOf m ∈ map FileResult.file rd).
      { rewrite Hrd. apply list_elem_of_fmap. exists m. split; [reflexivity|].
        eapply visited_terminated; eauto. }
      apply list_elem_of_fmap in Hdest as (r & Hfile & Hr).
      exists r. split; [rewrite Hres; apply elem_of_app; auto|].
      split; [symmetry; exact Hfile|].
      rewrite Forall_forall in Hns. apply Hns, Hr.
  - eexists _, _, _. split; [vm_compute; reflexivity|]. split; reflexivity.
Qed.

Lemma one_download_per_host_witness :
  match run Sample_inputs.env Sample_inputs.clock (initial (Jobs Sample_inputs.jobs))
            Sample_inputs.both_streaming with
  | Some c =>
      match main c with
      | Downloading _ queues => NoDup (map hostOf (activeEntries queues))
      | _ => False
      end
  | None => False
  end.
Proof.
  destruct (run Sample_inputs.env Sample_inputs.clock (initial (Jobs Sample_inputs.jobs))
                Sample_inputs.both_streaming) as [c|] eqn:Hrun;
    [|vm_compute in Hrun; discriminate].
  destruct (main c) as [i|seen todo mws|mws queues| |] eqn:Hmain;
    try (vm_compute in Hrun; injection Hrun as <-; discriminate).
  apply (one_download_per_host _ _ _ _ _ _ _ Hrun Hmain).
Defined.

(** ** The orchestration poller *)

Lemma pollLoop_app (T last : Z) (before rest : list Poller.Poll) :
  Poller.pollLoop T last before = None ->
  Poller.pollLoop T last (before ++ rest)
  = Poller.pollLoop T (Poller.lastSuccess last before) rest.
Proof.
  revert last. induction before as [|p before IH]; intros last Hnone; simpl in *.
  - reflexivity.
  - destruct (Poller.answer p) as [st|].
    + destruct (Phase.terminal (Poller.phase st)); [discriminate|]. apply IH, Hnone.
    + destruct (T <=? Poller.at_ p - last); [discriminate|]. apply IH, Hnone.
Qed.

Lemma pollLoop_unresponsive (T last : Z) (polls : list Poller.Poll) :
  Poller.pollLoop T last polls = Some Poller.Unresponsive ->
  exists before p after,
    polls = before ++ p :: after /\
    Poller.pollLoop T last before = None /\
    Poller.answer p = None /\
    T <= Poller.at_ p - Poller.lastSuccess last before.
Proof.
  revert last. induction polls as [|p polls IH]; intros last Hrun; simpl in Hrun.
  - discriminate.
  - destruct (Poller.answer p) as [st|] eqn:Hans.
    + destruct (Phase.terminal (Poller.phase st)) eqn:Hterm; [discriminate|].
      destruct (IH _ Hrun) as (before & q & after & -> & Hnone & Hq & Hle).
      exists (p :: before), q, after. simpl. rewrite Hans, Hterm. auto.
    + destruct (Z.leb_spec T (Poller.at_ p - last)) as [Hle|Hlt].
      * exists [], p, polls. simpl. auto.
      * destruct (IH _ Hrun) as (before & q & after & -> & Hnone & Hq & Hle).
        exists (p :: before), q, after. simpl. rewrite Hans.
        replace (T <=? Poller.at_ p - last) with false by (symmetry; apply Z.leb_gt; lia).
        auto.
Qed.

(** [lastSuccess] is the time of the last answered round, every round after
    which failed; with no answered round it is the start of the polling. *)
Lemma lastSuccess_split (started : Z) (before : list Poller.Poll) :
  exists pre fails,
    before = pre ++ fails /\
    Forall (fun p => Poller.answer p = None) fails /\
    (pre = [] /\ Poller.lastSuccess started before = started \/
     exists pre' q, pre = pre' ++ [q] /\ Poller.answered q = true /\
                    Poller.lastSuccess started before = Poller.at_ q).
Proof.
  revert started. induction before as [|p before IH]; intros started.
  - exists [], []. repeat split; [constructor | left; auto].
  - simpl. destruct (Poller.answer p) as [st|] eqn:Hans.
    + destruct (IH (Poller.at_ p))
        as (pre & fails & -> & Hfails & [[-> Hlast]|(pre' & q & -> & Hq & Hlast)]).
      * exists [p], fails. repeat split; [exact Hfails|]. right.
        exists [], p. unfold Poller.answered. rewrite Hans. auto.
      * exists (p :: pre' ++ [q]), fails. repeat split; [exact Hfails|]. right.
        exists (p :: pre'), q. auto.
    + destruct (IH started)
        as (pre & fails & -> & Hfails & [[-> Hlast]|(pre' & q & -> & Hq & Hlast)]).
      * exists [], (p :: fails). repeat split; [constructor; assumption | left; auto].
      * exists (p :: pre' ++ [q]), fails. repeat split; [exact Hfails|]. right.
        exists (p :: pre'), q. auto.
Qed.

(** Membership in a list that is written out. *)
Ltac in_listed H :=
  repeat (apply elem_of_cons in H as [H|H];
          [try discriminate H; try (injection H as -> ->; auto)|]);
  try (apply elem_of_nil in H; contradiction).

Ltac listed :=
  solve [ apply elem_of_cons; left; reflexivity
        | apply elem_of_cons; right; listed
        | apply elem_of_app; left; listed
        | apply elem_of_app; right; listed ].

Lemma useHost_end (a : Poller.Attempt) (host token : string) :
  let r := Poller.useHost a host token in
  (snd r = Poller.Continue <-> Poller.givenUp a) /\
  (snd r = Poller.Continue ->
     exists pre, fst r = (Poller.WaitForPodRunning host :: pre) ++ [Poller.DeletePod host]) /\
  (forall h t, Poller.PollStatus h t ∈ fst r -> h = host /\ t = token) /\
  (exists post, fst r = Poller.WaitForPodRunning host :: post) /\
  Poller.CreatePods (fst r) = [] /\
  (forall msg, snd r <> Poller.Raise msg).
Proof.
  unfold Poller.useHost, Poller.givenUp.
  destruct (Poller.running a); cbn [negb].
  - destruct (Poller.pollDownloadProgress (Poller.pollStarted a) (Poller.polls a))
      as [[st|]|]; cbn [fst snd].
    + split; [split; [discriminate | intros [H|H]; discriminate]|].
      split; [discriminate|]. split; [|split; [eauto|split; [reflexivity|discriminate]]].
      intros h t Hin. in_listed Hin.
    + split; [split; auto|]. split; [intros _; exists [Poller.PollStatus host token]; reflexivity|].
      split; [|split; [eauto|split; [reflexivity|discriminate]]].
      intros h t Hin. in_listed Hin.
    + split; [split; [discriminate | intros [H|H]; discriminate]|].
      split; [discriminate|]. split; [|split; [eauto|split; [reflexivity|discriminate]]].
      intros h t Hin. in_listed Hin.
  - cbn [fst snd]. split; [split; auto|].
    split; [intros _; exists []; reflexivity|].
    split; [|split; [eauto|split; [reflexivity|discriminate]]].
    intros h t Hin. in_listed Hin.
Qed.

(** An attempt that ends in [continue] was given up and has deleted the
    host it waited for. *)
Lemma runAttempt_continue (k : nat) (a : Poller.Attempt) :
  snd (Poller.runAttempt k a) = Poller.Continue ->
  Poller.givenUp a /\
  exists pre host,
    fst (Poller.runAttempt k a) = pre ++ [Poller.DeletePod host] /\
    Poller.WaitForPodRunning host ∈ pre.
Proof.
  assert (Hused : forall before host token,
            snd (Poller.useHost a host token) = Poller.Continue ->
            Poller.givenUp a /\
            exists pre host',
              before ++ fst (Poller.useHost a host token)
              = pre ++ [Poller.DeletePod host'] /\
              Poller.WaitForPodRunning host' ∈ pre).
  { intros before host token Hend.
    destruct (useHost_end a host token) as (Hiff & Hdel & _).
    split; [apply Hiff, Hend|]. destruct (Hdel Hend) as (pre & ->).
    exists (before ++ Poller.WaitForPodRunning host :: pre), host.
    rewrite app_assoc. split; [reflexivity | listed]. }
  unfold Poller.runAttempt, Poller.createAndUse, Poller.prepend.
  destruct (Poller.liveExisting a) as [p|]; [destruct (Nat.eqb k 1)|];
    [destruct (negb (truthy (default "" (Poller.STATUS_TOKEN_of p))));
     [discriminate|]| |];
    cbn [fst snd]; intros Hend.
  - apply Hused, Hend.
  - rewrite app_assoc. apply Hused, Hend.
  - rewrite app_assoc. apply Hused, Hend.
Qed.

(** A retry never reuses a host: it deletes a live host of that name if
    there is one, creates a host with the token drawn in this attempt, and
    waits for and polls that host with that token. *)
Lemma runAttempt_retry (k : nat) (a : Poller.Attempt) :
  (1 < k)%nat ->
  (Poller.givenUp a <-> snd (Poller.runAttempt k a) = Poller.Continue) /\
  exists pre post,
    fst (Poller.runAttempt k a)
    = pre ++ Poller.CreatePod (Poller.randomToken a) (Poller.createdId a)
             :: Poller.WaitForPodRunning (Poller.createdId a) :: post /\
    (pre = [] \/ exists old, pre = [Poller.DeletePod old]) /\
    (forall h t, Poller.PollStatus h t ∈ post ->
       h = Poller.createdId a /\ t = Poller.randomToken a).
Proof.
  intros Hk. unfold Poller.runAttempt, Poller.createAndUse, Poller.prepend.
  replace (Nat.eqb k 1) with false by (symmetry; apply Nat.eqb_neq; lia).
  replace (Nat.ltb 1 k) with true by (symmetry; apply Nat.ltb_lt; lia).
  destruct (useHost_end a (Poller.createdId a) (Poller.randomToken a))
    as (Hiff & _ & Hpoll & (post & Hpost) & _).
  destruct (Poller.liveExisting a) as [p|]; cbn [fst snd]; rewrite Hpost in *.
  - split; [symmetry; exact Hiff|]. exists [Poller.DeletePod (Poller.id p)], post.
    split; [reflexivity|]. split; [right; eauto|].
    intros h t Hin. apply Hpoll. apply elem_of_cons. right. exact Hin.
  - split; [symmetry; exact Hiff|]. exists [], post.
    split; [reflexivity|]. split; [left; reflexivity|].
    intros h t Hin. apply Hpoll. apply elem_of_cons. right. exact Hin.
Qed.

Lemma runAttempt_creates_once (k : nat) (a : Poller.Attempt) :
  (length (Poller.CreatePods (fst (Poller.runAttempt k a))) <= 1)%nat.
Proof.
  unfold Poller.runAttempt, Poller.createAndUse, Poller.prepend.
  pose proof (useHost_end a (Poller.createdId a) (Poller.randomToken a))
    as (_ & _ & _ & _ & Hnone & _).
  assert (Hnone' : forall h t, Poller.CreatePods (fst (Poller.useHost a h t)) = []).
  { intros h t. apply (useHost_end a h t). }
  unfold Poller.CreatePods in *.
  destruct (Poller.liveExisting a) as [p|]; [destruct (Nat.eqb k 1)|];
    [destruct (negb (truthy (default "" (Poller.STATUS_TOKEN_of p))))| |];
    destruct (Nat.ltb 1 k); cbn [fst snd]; rewrite ?flat_map_app, ?Hnone'; simpl;
    rewrite ?Hnone'; simpl; lia.
Qed.

Lemma retryLoop_creates (meets : nat -> Poller.Attempt) (togo k : nat) :
  (length (Poller.CreatePods (fst (Poller.retryLoop meets togo k))) <= togo)%nat.
Proof.
  revert k. induction togo as [|togo IH]; intros k; simpl; [lia|].
  pose proof (runAttempt_creates_once k (meets k)) as Hone.
  destruct (Poller.runAttempt k (meets k)) as [acts e]. cbn [fst] in Hone.
  destruct e; cbn [fst]; try lia.
  specialize (IH (S k)). destruct (Poller.retryLoop meets togo (S k)) as [acts' r].
  cbn [fst] in *. unfold Poller.CreatePods in *. rewrite flat_map_app, length_app. lia.
Qed.

(** While the attempts are given up the loop goes on to the next one. *)
Lemma retryLoop_continue (meets : nat -> Poller.Attempt) (n togo k : nat) :
  (forall j, (k <= j < k + n)%nat ->
     snd (Poller.runAttempt j (meets j)) = Poller.Continue) ->
  Poller.retryLoop meets (n + togo) k
  = (Poller.actionsOf meets k n ++ fst (Poller.retryLoop meets togo (k + n)),
     snd (Poller.retryLoop meets togo (k + n))).
Proof.
  revert k. induction n as [|n IH]; intros k Hall.
  - simpl. rewrite Nat.add_0_r. destruct (Poller.retryLoop meets togo k); reflexivity.
  - cbn [Nat.add Poller.retryLoop].
    pose proof (Hall k ltac:(lia)) as Hk.
    destruct (Poller.runAttempt k (meets k)) as [acts e] eqn:Hrun. cbn [snd] in Hk. subst e.
    rewrite (IH (S k)) by (intros j Hj; apply Hall; lia).
    replace (S k + n)%nat with (k + S n)%nat by lia.
    unfold Poller.actionsOf. cbn [seq flat_map]. rewrite Hrun. cbn [fst].
    rewrite <- app_assoc. reflexivity.
Qed.

Lemma exhaustedMessage_text :
  Poller.exhaustedMessage = "Download failed after 5 attempts due to unresponsive pods".
Proof. reflexivity. Qed.

Lemma exhausted_not_failed (st : Poller.DownloadStatus) :
  Poller.exhaustedMessage <> Poller.failedMessage st.
Proof.
  rewrite exhaustedMessage_text. unfold Poller.failedMessage.
  intros H. repeat rewrite append_cons in H. discriminate.
Qed.

Lemma retryLoop_begins (meets : nat -> Poller.Attempt) (togo k : nat) :
  exists rest,
    fst (Poller.retryLoop meets (S togo) k)
    = fst (Poller.runAttempt k (meets k)) ++ rest.
Proof.
  cbn [Poller.retryLoop]. destruct (Poller.runAttempt k (meets k)) as [acts e].
  destruct e; cbn [fst]; try (exists []; rewrite app_nil_r; reflexivity).
  destruct (Poller.retryLoop meets togo (S k)) as [acts' r]. exists acts'. reflexivity.
Qed.

(** C8.  The unresponsive threshold is 180 seconds and there are at most 5
    attempts.  A failed poll that comes less than the threshold after the
    last answered poll (or after the start of the polling, if none was
    answered) leaves the polling loop running.  The polling is aborted as
    unresponsive exactly when a poll fails at least the threshold after the
    last answered one, and every poll in between has failed.  An attempt
    that is given up, because the host did not start or the polling was
    aborted, ends with the deletion of its host.  Every attempt after the
    first creates a host with the token drawn in that attempt and waits for
    and polls that host with that token; it is run as soon as all attempts
    before it were given up.  No more than 5 hosts are created.  When all 5
    attempts are given up, [setup] throws the exhaustion error, which is
    never the error that reports failed entries. *)
Theorem poller_retries :
  (Poller.UNRESPONSIVE_TIMEOUT_MS = 180 * 1000 /\ Poller.maxAttempts = 5%nat) /\
  (forall last p rest,
     Poller.answer p = None ->
     Poller.at_ p - last < Poller.UNRESPONSIVE_TIMEOUT_MS ->
     Poller.pollLoop Poller.UNRESPONSIVE_TIMEOUT_MS last (p :: rest)
     = Poller.pollLoop Poller.UNRESPONSIVE_TIMEOUT_MS last rest) /\
  (forall started polls,
     Poller.pollDownloadProgress started polls = Some Poller.Unresponsive <->
     exists before p after,
       polls = before ++ p :: after /\
       Poller.pollDownloadProgress started before = None /\
       Poller.answer p = None /\
       Poller.UNRESPONSIVE_TIMEOUT_MS
       <= Poller.at_ p - Poller.lastSuccess started before) /\
  (forall started before,
     exists pre fails,
       before = pre ++ fails /\
       Forall (fun p => Poller.answer p = None) fails /\
       (pre = [] /\ Poller.lastSuccess started before = started \/
        exists pre' q, pre = pre' ++ [q] /\ Poller.answered q = true /\
                       Poller.lastSuccess started before = Poller.at_ q)) /\
  (forall k a,
     snd (Poller.runAttempt k a) = Poller.Continue ->
     Poller.givenUp a /\
     exists pre host,
       fst (Poller.runAttempt k a) = pre ++ [Poller.DeletePod host] /\
       Poller.WaitForPodRunning host ∈ pre) /\
  (forall k a,
     (1 < k)%nat ->
     (Poller.givenUp a <-> snd (Poller.runAttempt k a) = Poller.Continue) /\
     exists pre post,
       fst (Poller.runAttempt k a)
       = pre ++ Poller.CreatePod (Poller.randomToken a) (Poller.createdId a)
                :: Poller.WaitForPodRunning (Poller.createdId a) :: post /\
       (pre = [] \/ exists old, pre = [Poller.DeletePod old]) /\
       (forall h t, Poller.PollStatus h t ∈ post ->
          h = Poller.createdId a /\ t = Poller.randomToken a)) /\
  (forall meets n,
     (n < 5)%nat ->
     (forall j, (1 <= j <= n)%nat ->
        snd (Poller.runAttempt j (meets j)) = Poller.Continue) ->
     exists rest,
       fst (Poller.setup meets)
       = Poller.actionsOf meets 1 n ++
         fst (Poller.runAttempt (S n) (meets (S n))) ++ rest) /\
  (forall meets, (length (Poller.CreatePods (fst (Poller.setup meets))) <= 5)%nat) /\
  (forall meets,
     (forall j, (1 <= j <= 5)%nat ->
        snd (Poller.runAttempt j (meets j)) = Poller.Continue) ->
     Poller.setup meets
     = (Poller.actionsOf meets 1 5, Poller.Thrown Poller.exhaustedMessage)) /\
  (forall st, Poller.exhaustedMessage <> Poller.failedMessage st).
Proof.
  split; [split; reflexivity|].
  split.
  { intros last p rest Hans Hlt. cbn [Poller.pollLoop]. rewrite Hans.
    replace (Poller.UNRESPONSIVE_TIMEOUT_MS <=? Poller.at_ p - last) with false
      by (symmetry; apply Z.leb_gt; exact Hlt).
    reflexivity. }
  split.
  { intros started polls. unfold Poller.pollDownloadProgress. split.
    - apply pollLoop_unresponsive.
    - intros (before & p & after & -> & Hnone & Hans & Hle).
      rewrite pollLoop_app by exact Hnone. cbn [Poller.pollLoop]. rewrite Hans.
      replace (Poller.UNRESPONSIVE_TIMEOUT_MS
               <=? Poller.at_ p - Poller.lastSuccess started before) with true
        by (symmetry; apply Z.leb_le; exact Hle).
      reflexivity. }
  split; [exact lastSuccess_split|].
  split; [exact runAttempt_continue|].
  split; [exact runAttempt_retry|].
  split.
  { intros meets n Hn Hall. unfold Poller.setup.
    change Poller.maxAttempts with 5%nat.
    replace 5%nat with (n + S (4 - n))%nat by lia.
    rewrite (retryLoop_continue meets n (S (4 - n)) 1)
      by (intros j Hj; apply Hall; lia).
    cbn [fst]. destruct (retryLoop_begins meets (4 - n) (1 + n)) as (rest & ->).
    exists rest. reflexivity. }
  split.
  { intros meets. unfold Poller.setup.
    pose proof (retryLoop_creates meets Poller.maxAttempts 1) as Hle.
    destruct (Poller.retryLoop meets Poller.maxAttempts 1) as [acts r]. exact Hle. }
  split.
  { intros meets Hall. unfold Poller.setup.
    change Poller.maxAttempts with (5 + 0)%nat.
    rewrite (retryLoop_continue meets 5 0 1) by (intros j Hj; apply Hall; lia).
    cbn [Poller.retryLoop fst snd]. rewrite app_nil_r. reflexivity. }
  exact exhausted_not_failed.
Qed.

(** Five hosts in a row start and never answer. *)
Lemma poller_retries_witness :
  snd (Poller.setup (fun _ => Sample_inputs.stalled))
  = Poller.Thrown "Download failed after 5 attempts due to unresponsive pods".
Proof.
  destruct poller_retries as (_ & _ & _ & _ & _ & _ & _ & _ & Hexhausted & _).
  rewrite (Hexhausted (fun _ => Sample_inputs.stalled)); [reflexivity|].
  intros j Hj. reflexivity.
Defined.

(** ** The throughput window *)

Lemma chronological_tail (s : Sample) (rest : list Sample) :
  chronological (s :: rest) -> chronological rest.
Proof. simpl. tauto. Qed.

Lemma filter_all_in_window (now : Z) (samples : list Sample) :
  Forall (fun s => in_window now s = true) samples ->
  List.filter (in_window now) samples = samples.
Proof.
  induction 1 as [|s rest Hs _ IH]; simpl; [reflexivity|].
  rewrite Hs, IH. reflexivity.
Qed.

(** On a chronological array the loop removes exactly the samples that are
    older than the window. *)
Lemma shiftExpired_filter (now : Z) (samples : list Sample) :
  chronological samples ->
  shiftExpired (now - SPEED_WINDOW_MS) samples = List.filter (in_window now) samples.
Proof.
  induction samples as [|s rest IH]; intros Hchrono; simpl; [reflexivity|].
  unfold in_window at 1.
  destruct (Z.ltb_spec (time s) (now - SPEED_WINDOW_MS)) as [Hold|Hnew].
  - replace (now - SPEED_WINDOW_MS <=? time s) with false
      by (symmetry; apply Z.leb_gt; lia).
    apply IH. eapply chronological_tail; eauto.
  - replace (now - SPEED_WINDOW_MS <=? time s) with true
      by (symmetry; apply Z.leb_le; lia).
    f_equal. symmetry. apply filter_all_in_window.
    destruct Hchrono as [Hle _].
    eapply Forall_impl; [exact Hle|]. intros s' Hs'. cbv beta in Hs'.
    unfold in_window. apply Z.leb_le. lia.
Qed.

Lemma elapsed_positive (d : Z) : 0 < d -> (0 < inject_Z d / 1000)%Q.
Proof.
  intros Hd. unfold Qlt, Qdiv, Qmult, Qinv, inject_Z. simpl. lia.
Qed.

Lemma elapsed_not_positive (d : Z) : d <= 0 -> (inject_Z d / 1000 <= 0)%Q.
Proof.
  intros Hd. unfold Qle, Qdiv, Qmult, Qinv, inject_Z. simpl. lia.
Qed.

Lemma recentSpeed_of_window (now : Z) (samples : list Sample) :
  chronological samples ->
  recentSpeed now samples
  = match List.filter (in_window now) samples with
    | [] => (0%Q, [])
    | oldest :: rest =>
        (if Qlt_le_dec 0 (inject_Z (now - time oldest) / 1000)
         then (inject_Z (sumBytes (oldest :: rest)) /
               (inject_Z (now - time oldest) / 1000))%Q
         else 0%Q, oldest :: rest)
    end.
Proof.
  intros Hchrono. unfold recentSpeed. rewrite shiftExpired_filter by assumption.
  destruct (List.filter (in_window now) samples); reflexivity.
Qed.

(** *** The samples of a run are in time order *)
Section Samples_facts.
Variable env : Env.
Variable clock : nat -> Z.
Hypothesis clock_monotone : monotone clock.

Lemma shiftExpired_suffix (cutoff : Z) (samples : list Sample) :
  exists dropped, samples = dropped ++ shiftExpired cutoff samples.
Proof.
  induction samples as [|s rest (dropped & IH)]; simpl.
  - exists []. reflexivity.
  - destruct (time s <? cutoff).
    + exists (s :: dropped). simpl. rewrite <- IH. reflexivity.
    + exists []. reflexivity.
Qed.

Lemma chronological_suffix (dropped samples : list Sample) :
  chronological (dropped ++ samples) -> chronological samples.
Proof.
  induction dropped as [|s dropped IH]; simpl; [auto|]. intros [_ H]. apply IH, H.
Qed.

Lemma chronological_snoc (samples : list Sample) (s : Sample) :
  chronological samples -> Forall (fun s' => time s' <= time s) samples ->
  chronological (samples ++ [s]).
Proof.
  induction samples as [|s0 rest IH]; simpl; intros Hchrono Hle.
  - split; constructor.
  - destruct Hchrono as [Hfirst Hrest]. apply Forall_cons in Hle as [Hs0 Hle].
    split; [|apply IH; assumption].
    apply Forall_app. split; [exact Hfirst|]. constructor; [exact Hs0 | constructor].
Qed.

Lemma recentSpeed_kept (now : Z) (samples : list Sample) :
  snd (recentSpeed now samples) = shiftExpired (now - SPEED_WINDOW_MS) samples.
Proof.
  unfold recentSpeed. destruct (shiftExpired (now - SPEED_WINDOW_MS) samples); reflexivity.
Qed.

Lemma SamplesInv_tick (w : World) :
  SamplesInv clock w -> SamplesInv clock (with_ticks (S (ticks w)) w).
Proof.
  intros [Hchrono Hle]. split; [exact Hchrono|]. cbn.
  eapply Forall_impl; [exact Hle|]. intros s Hs. cbv beta in Hs.
  pose proof (clock_monotone (ticks w)). lia.
Qed.

Lemma SamplesInv_recordBytes (n : Z) (w : World) :
  SamplesInv clock w -> SamplesInv clock (recordBytes clock n w).
Proof.
  intros [Hchrono Hle]. unfold recordBytes, Date_now. split; cbn.
  - apply chronological_snoc; assumption.
  - apply Forall_app. split.
    + eapply Forall_impl; [exact Hle|]. intros s Hs. cbv beta in Hs.
      pose proof (clock_monotone (ticks w)). lia.
    + constructor; [|constructor]. cbn. apply clock_monotone.
Qed.

Lemma SamplesInv_getRecentSpeed (w : World) :
  SamplesInv clock w -> SamplesInv clock (snd (getRecentSpeed clock w)).
Proof.
  intros HInv. apply SamplesInv_tick in HInv. destruct HInv as [Hchrono Hle].
  unfold getRecentSpeed, Date_now. cbn in *. rewrite recentSpeed_kept.
  destruct (shiftExpired_suffix (clock (ticks w) - SPEED_WINDOW_MS) (speedSamples w))
    as (dropped & Hsplit).
  rewrite Hsplit in Hchrono, Hle. split.
  - eapply chronological_suffix. exact Hchrono.
  - apply Forall_app in Hle as [_ Hle]. exact Hle.
Qed.

Lemma SamplesInv_updateStatus (files : list string) (w : World) :
  SamplesInv clock w -> SamplesInv clock (updateStatus clock files w).
Proof. intros HInv. apply SamplesInv_getRecentSpeed in HInv. exact HInv. Qed.

Lemma SamplesInv_onProgress (n : Z) (w : World) :
  SamplesInv clock w -> SamplesInv clock (onProgress clock n w).
Proof.
  intros HInv. unfold onProgress. apply SamplesInv_updateStatus.
  apply SamplesInv_recordBytes. exact HInv.
Qed.

Lemma SamplesInv_enterLoop (q : Queue) (w : World) :
  SamplesInv clock w -> SamplesInv clock (snd (enterLoop clock q w)).
Proof.
  intros HInv. unfold enterLoop. destruct (remaining q); [exact HInv|].
  cbn [snd]. apply SamplesInv_updateStatus. exact HInv.
Qed.

Lemma SamplesInv_recordResult (m : ModelWithSize) (result : DownloadResult.t)
      (q : Queue) (w : World) :
  SamplesInv clock w -> SamplesInv clock (snd (recordResult clock m result q w)).
Proof.
  intros HInv. unfold recordResult. apply SamplesInv_enterLoop.
  apply SamplesInv_updateStatus. exact HInv.
Qed.

Lemma SamplesInv_startQueues (groups : list (list ModelWithSize)) (w : World) :
  SamplesInv clock w -> SamplesInv clock (snd (startQueues clock groups w)).
Proof.
  revert w. induction groups as [|g groups IH]; intros w HInv; simpl; [exact HInv|].
  apply IH, SamplesInv_enterLoop, HInv.
Qed.

Lemma SamplesInv_joinAll (mws : list ModelWithSize) (queues : list Queue) (w : World) :
  SamplesInv clock w -> SamplesInv clock (world (joinAll clock mws queues w)).
Proof.
  intros HInv. unfold joinAll. destruct (forallb queueDone queues); [|exact HInv].
  apply SamplesInv_tick in HInv. exact HInv.
Qed.

Lemma SamplesInv_afterPreflight (mws : list ModelWithSize) (w : World) :
  SamplesInv clock w -> SamplesInv clock (world (afterPreflight clock mws w)).
Proof.
  intros HInv. unfold afterPreflight. destruct mws as [|m mws]; [exact HInv|].
  apply SamplesInv_tick in HInv. cbn [Date_now].
  destruct (groupBy _ _) as [groups|]; [|exact HInv].
  apply SamplesInv_joinAll, SamplesInv_startQueues. exact HInv.
Qed.

Lemma SamplesInv_step (c : Config) (e : Event) (c' : Config) :
  SamplesInv clock (world c) -> step env clock c e = Some c' ->
  SamplesInv clock (world c').
Proof.
  intros HInv Hstep. destruct c as [w mn]. unfold step in Hstep. cbn [main world] in *.
  destruct mn as [input|seen todo mws|mws queues| |].
  - destruct e; try discriminate. injection Hstep as <-.
    destruct input as [| |models]; unfold boot; [exact HInv..|].
    unfold continuePreflight. destruct models; [|exact HInv].
    apply SamplesInv_afterPreflight. exact HInv.
  - destruct todo as [|m todo]; [discriminate|].
    destruct e as [|size fs|]; try discriminate. injection Hstep as <-.
    assert (Hbody : SamplesInv clock (snd (preflightBody env m size fs mws w))).
    { unfold preflightBody. destruct (skip _); exact HInv. }
    unfold continuePreflight. destruct todo; [|exact Hbody].
    apply SamplesInv_afterPreflight. exact Hbody.
  - destruct e as [| |i s]; try discriminate. unfold resumeQueue in Hstep.
    destruct (queues !! i) as [q|]; [|discriminate].
    destruct (current q) as [[m a]|]; [|discriminate].
    destruct (downloadModel m a s) as [[a' progress|result|]|]; [| | |discriminate];
      injection Hstep as <-; cbn [world].
    + destruct progress; [apply SamplesInv_onProgress|]; exact HInv.
    + apply SamplesInv_joinAll, SamplesInv_recordResult. exact HInv.
    + exact HInv.
  - destruct e; discriminate.
  - destruct e; discriminate.
Qed.

(** Under a clock that never goes back the samples of every configuration
    a run reaches are in time order. *)
Lemma run_samples_chronological (input : JobInput) (events : list Event) (c : Config) :
  run env clock (initial input) events = Some c -> SamplesInv clock (world c).
Proof.
  apply (run_invariant env clock (fun _ c => SamplesInv clock (world c))).
  - split; constructor.
  - intros evs c1 e c2. apply SamplesInv_step.
Qed.
End Samples_facts.

(** C9.  The window is 60 seconds long.  Under a clock that never goes
    back, the sample array of every configuration a run reaches is in time
    order.  On a sample array in time order, [getRecentSpeed], called when
    the clock reads [now], leaves in the array exactly the samples not older
    than [now] minus the window; it returns 0 when none is left, and
    otherwise the bytes of the samples left divided by the seconds elapsed
    since the oldest of them (0 when no time has elapsed).  Hence the figure
    depends on the samples inside the window only. *)
Theorem getRecentSpeed_trailing_window (clock : nat -> Z) :
  SPEED_WINDOW_MS = 60 * 1000 /\
  (monotone clock ->
   forall env input events c,
     run env clock (initial input) events = Some c ->
     chronological (speedSamples (world c))) /\
  (forall w,
     chronological (speedSamples w) ->
     let now := clock (ticks w) in
     let window := List.filter (in_window now) (speedSamples w) in
     let v := fst (getRecentSpeed clock w) in
     speedSamples (snd (getRecentSpeed clock w)) = window /\
     Forall (fun s => now - SPEED_WINDOW_MS <= time s) window /\
     (forall s, s ∈ speedSamples w -> now - SPEED_WINDOW_MS <= time s -> s ∈ window) /\
     (window = [] -> v = 0%Q) /\
     (forall oldest rest, window = oldest :: rest ->
        (time oldest < now ->
           v = (inject_Z (sumBytes window) / (inject_Z (now - time oldest) / 1000))%Q) /\
        (now <= time oldest -> v = 0%Q)) /\
     (forall w', chronological (speedSamples w') -> clock (ticks w') = now ->
        List.filter (in_window now) (speedSamples w') = window ->
        fst (getRecentSpeed clock w') = v)).
Proof.
  split; [reflexivity|]. split.
  { intros Hmono env input events c Hrun.
    apply (run_samples_chronological env clock Hmono input events c Hrun). }
  intros w Hchrono now window v.
  assert (Hrun : forall w0, chronological (speedSamples w0) ->
            fst (getRecentSpeed clock w0)
            = fst (recentSpeed (clock (ticks w0)) (speedSamples w0)) /\
            speedSamples (snd (getRecentSpeed clock w0))
            = snd (recentSpeed (clock (ticks w0)) (speedSamples w0))).
  { intros w0 _. split; reflexivity. }
  assert (Hwin : forall w0, chronological (speedSamples w0) ->
            recentSpeed (clock (ticks w0)) (speedSamples w0)
            = match List.filter (in_window (clock (ticks w0))) (speedSamples w0) with
              | [] => (0%Q, [])
              | oldest :: rest =>
                  (if Qlt_le_dec 0 (inject_Z (clock (ticks w0) - time oldest) / 1000)
                   then (inject_Z (sumBytes (oldest :: rest)) /
                         (inject_Z (clock (ticks w0) - time oldest) / 1000))%Q
                   else 0%Q, oldest :: rest)
              end).
  { intros w0 H0. apply recentSpeed_of_window. exact H0. }
  destruct (Hrun w Hchrono) as [Hv Hkept]. subst v. rewrite Hv, Hkept.
  rewrite (Hwin w Hchrono). fold now. fold window. clear Hv Hkept.
  split; [destruct window; reflexivity|].
  split.
  { subst window. apply Forall_forall. intros s Hs.
    apply list_elem_of_In, filter_In in Hs. destruct Hs as [_ Hs].
    unfold in_window in Hs. apply Z.leb_le in Hs. exact Hs. }
  split.
  { intros s Hs Hnew. subst window. apply list_elem_of_In, filter_In. split.
    - apply list_elem_of_In. exact Hs.
    - unfold in_window. apply Z.leb_le. exact Hnew. }
  split; [intros ->; reflexivity|]. split.
  - intros oldest rest ->. cbn [fst]. split.
    + intros Hlt. destruct (Qlt_le_dec 0 (inject_Z (now - time oldest) / 1000)) as [_|Hle].
      * reflexivity.
      * exfalso. eapply Qlt_not_le; [|exact Hle]. apply elapsed_positive. lia.
    + intros Hge. destruct (Qlt_le_dec 0 (inject_Z (now - time oldest) / 1000)) as [Hlt|_].
      * exfalso. eapply Qlt_not_le; [exact Hlt|]. apply elapsed_not_positive. lia.
      * reflexivity.
  - intros w' Hchrono' Hnow Hsame. destruct (Hrun w' Hchrono') as [-> _].
    rewrite (Hwin w' Hchrono'), Hnow, Hsame. reflexivity.
Qed.

(** Three samples at 1 s, 50 s and 90 s, read at 100 s: the first one is too
    old, the other two make 2000 bytes in 50 seconds. *)
Lemma getRecentSpeed_trailing_window_witness :
  chronological (speedSamples Sample_inputs.sampled_world) /\
  speedSamples (snd (getRecentSpeed Sample_inputs.clock Sample_inputs.sampled_world))
  = [ {| time := 50000; bytes := 500 |}; {| time := 90000; bytes := 1500 |} ] /\
  (fst (getRecentSpeed Sample_inputs.clock Sample_inputs.sampled_world) == 40)%Q.
Proof.
  assert (Hchrono : chronological (speedSamples Sample_inputs.sampled_world)).
  { simpl. repeat constructor; simpl; lia. }
  split; [exact Hchrono|].
  destruct (getRecentSpeed_trailing_window Sample_inputs.clock) as (_ & _ & Hwindow).
  destruct (Hwindow Sample_inputs.sampled_world Hchrono) as (Hkept & _ & _ & _ & Hv & _).
  split.
  - rewrite Hkept. reflexivity.
  - destruct (Hv {| time := 50000; bytes := 500 |} [ {| time := 90000; bytes := 1500 |} ]
                eq_refl) as [Hq _].
    rewrite Hq; [reflexivity | vm_compute; reflexivity].
Defined.

(** * Further properties *)

(** ** The counters of the status document *)

Lemma count_status_app (s : FileStatus.t) (l k : list FileResult.t) :
  count_status s (l ++ k) = (count_status s l + count_status s k)%nat.
Proof. unfold count_status. rewrite filter_app, length_app. reflexivity. Qed.

Lemma count_status_partition (rs : list FileResult.t) :
  (count_status FileStatus.success rs + count_status FileStatus.failed rs
   + count_status FileStatus.skipped rs)%nat = length rs.
Proof.
  unfold count_status. induction rs as [|r rs IH]; [reflexivity|].
  rewrite !filter_cons.
  destruct (FileResult.status r); repeat case_decide;
    cbn [FileStatus.eqb] in *; try discriminate; try congruence; cbn [length]; lia.
Qed.

Lemma count_skipped_all (rs : list FileResult.t) :
  Forall is_skipped rs -> count_status FileStatus.skipped rs = length rs.
Proof.
  unfold count_status, is_skipped. induction 1 as [|r rs Hr _ IH]; [reflexivity|].
  rewrite filter_cons, Hr. case_decide; [|contradiction]. cbn [length]. lia.
Qed.

Lemma count_skipped_none (rs : list FileResult.t) :
  Forall (fun r => ~ is_skipped r) rs -> count_status FileStatus.skipped rs = 0%nat.
Proof.
  unfold count_status, is_skipped. induction 1 as [|r rs Hr _ IH]; [reflexivity|].
  rewrite filter_cons. case_decide as Hs; [|exact IH].
  exfalso. apply Hr. destruct (FileResult.status r); simpl in Hs; congruence.
Qed.

Lemma skippedResults_length (env : Env) (probed : list (Model * (Z * Fs.t))) :
  length (skippedResults env probed) = length (skippedEntries env probed).
Proof.
  rewrite <- (length_map FileResult.file), skippedResults_files, length_map.
  reflexivity.
Qed.

(** What [ResultsInv] says of the counters. *)
Lemma ResultsInv_counts (env : Env) (R : relation (list string))
      (probed : list (Model * (Z * Fs.t))) (done : list ModelWithSize)
      (st : StatusInternal) :
  ResultsInv env R probed done st ->
  exists rd,
    R (map FileResult.file rd) (map destOf done) /\
    skipped (serializeStatus st) = length (skippedEntries env probed) /\
    (success (serializeStatus st) + failed (serializeStatus st))%nat = length rd.
Proof.
  intros (rd & Hres & HR & Hrd). exists rd. split; [exact HR|].
  pose proof (count_status_partition (results st)) as Hpart.
  assert (Hsk : count_status FileStatus.skipped (results st)
                = length (skippedEntries env probed)).
  { rewrite Hres, count_status_app, (count_skipped_none rd) by exact Hrd.
    rewrite count_skipped_all by apply skippedResults_skipped.
    rewrite skippedResults_length. lia. }
  split; [exact Hsk|]. cbn [success failed serializeStatus].
  rewrite Hres, length_app, skippedResults_length in Hpart.
  rewrite Hres in Hsk |- *. lia.
Qed.

(** While an activation is running, fewer downloads have returned than
    there are entries to download. *)
Lemma unfinished_terminated (mws : list ModelWithSize) (queues : list Queue) :
  QueuesInv mws queues -> (length (terminatedEntries queues) < length mws)%nat.
Proof.
  intros ((groups & (_ & _ & _ & Hperm) & Hentries) & _ & Hlive).
  rewrite <- Hperm, <- Hentries. unfold terminatedEntries. clear Hperm Hentries.
  induction Hlive as [q queues Hq|q queues _ IH]; cbn [map concat];
    rewrite !length_app; unfold entries at 1; rewrite !length_app.
  - pose proof (submseteq_length _ _ (visited_within_entries queues)) as Hle.
    unfold terminatedEntries in Hle.
    unfold inFlight. destruct (current q) as [[m a]|]; [|contradiction].
    cbn [length]. lia.
  - lia.
Qed.

(** X1.  The three counters of the status document partition the result
    list.  At every point of a run over a job list [skipped] is the number
    of entries classified as skipped so far; in the download phase
    [success + failed] is the number of downloads that have returned, which
    is less than the number of entries to download; once [main] has
    returned it is the number of entries that had to be downloaded, and the
    three counters add up to [totalFiles], the length of the job list. *)
Theorem serializeStatus_counts
        (env : Env) (clock : nat -> Z) (models : list Model)
        (events : list Event) (c : Config) :
  run env clock (initial (Jobs models)) events = Some c ->
  let st := status (world c) in
  let d := serializeStatus st in
  let probed := zip models (probesOf events) in
  (success d + failed d + skipped d)%nat = length (results st) /\
  skipped d = length (skippedEntries env probed) /\
  (forall mws queues, main c = Downloading mws queues ->
     (success d + failed d)%nat = length (terminatedEntries queues) /\
     (success d + failed d < length mws)%nat) /\
  (main c = Exited ->
     (success d + failed d)%nat = length (classify env probed) /\
     Z.of_nat (success d + failed d + skipped d) = totalFiles st /\
     (success d + failed d + skipped d)%nat = length models).
Proof.
  intros Hrun st d probed. apply (Inv_run env clock) in Hrun.
  pose proof (Inv_totalFiles env models events c Hrun) as Htot.
  destruct Hrun as (_ & HInv).
  split; [apply count_status_partition|].
  subst d probed. fold st in HInv.
  destruct (main c) as [i|seen todo mws|mws queues| |] eqn:Hmain.
  - destruct HInv as (_ & Hw & ->). subst st. rewrite Hw.
    cbn [probesOf flat_map]. rewrite zip_nil_r.
    split; [reflexivity|]. split; [discriminate | discriminate].
  - destruct HInv as (models' & Hin & -> & _ & Hlen & _ & Hres & _).
    injection Hin as ->. rewrite zip_longer by exact Hlen.
    split; [|split; discriminate].
    cbn [skipped serializeStatus]. rewrite Hres.
    rewrite count_skipped_all by apply skippedResults_skipped.
    apply skippedResults_length.
  - destruct HInv as (models' & Hin & Hlen & _ & _ & HR & _ & _ & _ & HQ).
    injection Hin as <-.
    destruct (ResultsInv_counts _ _ _ _ _ HR) as (rd & Hperm & Hsk & Hsf).
    split; [exact Hsk|]. split; [|discriminate].
    intros mws' queues' Heq. injection Heq as <- <-.
    assert (Hn : (success (serializeStatus st) + failed (serializeStatus st))%nat
                 = length (terminatedEntries queues)).
    { rewrite Hsf, <- (length_map FileResult.file), Hperm, length_map. reflexivity. }
    split; [exact Hn|]. rewrite Hn. apply unfinished_terminated, HQ.
  - destruct HInv as [(Hin & _)|(models' & Hin & Hlen & HR & _)]; [discriminate|].
    injection Hin as <-.
    destruct (ResultsInv_counts _ _ _ _ _ HR) as (rd & Hperm & Hsk & Hsf).
    split; [exact Hsk|]. split; [discriminate|]. intros _.
    assert (Hn : (success (serializeStatus st) + failed (serializeStatus st))%nat
                 = length (classify env (zip models (probesOf events)))).
    { rewrite Hsf, <- (length_map FileResult.file), Hperm, length_map. reflexivity. }
    split; [exact Hn|].
    assert (Hall : (success (serializeStatus st) + failed (serializeStatus st)
                    + skipped (serializeStatus st))%nat = length models).
    { rewrite Hn, Hsk.
      pose proof (classification_partition env (zip models (probesOf events))) as Hp.
      apply Permutation_length in Hp.
      rewrite length_app, !length_map, length_zip in Hp. lia. }
    split; [|exact Hall]. rewrite Hall. symmetry.
    destruct Htot as [(i & Hi)|Htot]; [discriminate | exact Htot].
  - destruct HInv as [(Hin & _)|(models' & Hin & Hlen & _ & HR & _)]; [discriminate|].
    injection Hin as <-.
    destruct (ResultsInv_counts _ _ _ _ _ HR) as (rd & _ & Hsk & _).
    split; [exact Hsk|]. split; discriminate.
Qed.

Lemma serializeStatus_counts_witness :
  option_map (fun c => let d := serializeStatus (status (world c)) in
                       (success d + failed d + skipped d)%nat)
             (run Sample_inputs.env Sample_inputs.clock (initial (Jobs Sample_inputs.jobs))
                  Sample_inputs.to_the_end)
  = Some 3%nat.
Proof.
  destruct (run Sample_inputs.env Sample_inputs.clock (initial (Jobs Sample_inputs.jobs))
                Sample_inputs.to_the_end) as [c|] eqn:Hrun.
  - destruct (serializeStatus_counts _ _ _ _ _ Hrun) as (_ & _ & _ & Hexit).
    assert (Hmain : main c = Exited)
      by (vm_compute in Hrun; injection Hrun as <-; reflexivity).
    destruct (Hexit Hmain) as (_ & _ & Hall). cbn [option_map]. cbv zeta.
    rewrite Hall. reflexivity.
  - vm_compute in Hrun. discriminate.
Defined.

(** ** The files shown as current *)

Lemma Set_add_elem (x y : string) (s : list string) :
  y ∈ Set_add x s <-> y = x \/ y ∈ s.
Proof.
  unfold Set_add. destruct (decide (x ∈ s)) as [Hin|Hout].
  - split; [auto|]. intros [->|H]; assumption.
  - rewrite elem_of_app, list_elem_of_singleton. tauto.
Qed.

Lemma Set_add_NoDup (x : string) (s : list string) : NoDup s -> NoDup (Set_add x s).
Proof.
  intros Hs. unfold Set_add. destruct (decide (x ∈ s)) as [Hin|Hout]; [exact Hs|].
  apply NoDup_app. split; [exact Hs|]. split.
  - intros y Hy Hy'. apply list_elem_of_singleton in Hy'. subst y. contradiction.
  - apply NoDup_singleton.
Qed.

Lemma Set_delete_elem (x y : string) (s : list string) :
  y ∈ Set_delete x s <-> y ∈ s /\ y <> x.
Proof. unfold Set_delete. rewrite list_elem_of_filter. tauto. Qed.

Lemma Set_delete_NoDup (x : string) (s : list string) : NoDup s -> NoDup (Set_delete x s).
Proof. apply NoDup_filter. Qed.

Section Files_facts.
Variable env : Env.
Variable clock : nat -> Z.

Lemma updateStatus_files (files : list string) (w : World) :
  currentFiles (status (updateStatus clock files w)) = files /\
  activeFiles (updateStatus clock files w) = activeFiles w.
Proof. split; reflexivity. Qed.

Lemma onProgress_files (n : Z) (w : World) :
  currentFiles (status (onProgress clock n w)) = activeFiles w /\
  activeFiles (onProgress clock n w) = activeFiles w.
Proof. split; reflexivity. Qed.

Lemma enterLoop_files (q : Queue) (w : World) :
  currentFiles (status w) = activeFiles w ->
  let r := enterLoop clock q w in
  currentFiles (status (snd r)) = activeFiles (snd r) /\
  activeFiles (snd r)
  = match remaining q with
    | [] => activeFiles w
    | m :: _ => Set_add (dest m) (activeFiles w)
    end /\
  inFlight (fst r) = match remaining q with [] => [] | m :: _ => [m] end.
Proof.
  intros Hw. unfold enterLoop. destruct (remaining q) as [|m rest]; cbn [fst snd].
  - repeat split; assumption.
  - repeat split; reflexivity.
Qed.

Lemma recordResult_files (m : ModelWithSize) (result : DownloadResult.t)
      (q : Queue) (w : World) :
  let r := recordResult clock m result q w in
  currentFiles (status (snd r)) = activeFiles (snd r) /\
  activeFiles (snd r)
  = match remaining q with
    | [] => Set_delete (dest m) (activeFiles w)
    | m' :: _ => Set_add (dest m') (Set_delete (dest m) (activeFiles w))
    end /\
  inFlight (fst r) = match remaining q with [] => [] | m' :: _ => [m'] end.
Proof.
  unfold recordResult.
  match goal with
  | |- context [enterLoop clock ?q' ?w'] =>
      pose proof (enterLoop_files q' w' eq_refl) as H
  end.
  cbn [remaining] in H. exact H.
Qed.

Lemma startQueues_files (groups : list (list ModelWithSize)) (w : World) :
  currentFiles (status w) = activeFiles w -> NoDup (activeFiles w) ->
  let r := startQueues clock groups w in
  currentFiles (status (snd r)) = activeFiles (snd r) /\
  NoDup (activeFiles (snd r)) /\
  forall y, y ∈ activeFiles (snd r)
            <-> y ∈ activeFiles w \/ y ∈ map destOf (activeEntries (fst r)).
Proof.
  revert w. induction groups as [|g groups IH]; intros w Hcur Hnd; cbn [startQueues fst snd].
  - split; [exact Hcur|]. split; [exact Hnd|]. intros y. cbn. rewrite elem_of_nil. tauto.
  - destruct (enterLoop_files {| visited := []; current := None; remaining := g |} w Hcur)
      as (Hcur1 & Hact1 & Hfl1).
    cbn [remaining] in Hact1, Hfl1.
    set (first := enterLoop clock {| visited := []; current := None; remaining := g |} w) in *.
    assert (Hnd1 : NoDup (activeFiles (snd first))).
    { rewrite Hact1. destruct g; [exact Hnd | apply Set_add_NoDup, Hnd]. }
    destruct (IH (snd first) Hcur1 Hnd1) as (Hcur2 & Hnd2 & Hel2).
    split; [exact Hcur2|]. split; [exact Hnd2|]. intros y. rewrite Hel2.
    unfold activeEntries. cbn [map concat]. fold (activeEntries (fst (startQueues clock groups (snd first)))).
    rewrite map_app, elem_of_app, Hfl1, Hact1.
    destruct g as [|m g]; cbn [map].
    + rewrite elem_of_nil. tauto.
    + rewrite Set_add_elem, list_elem_of_singleton. unfold destOf. tauto.
Qed.

Lemma activeEntries_insert (queues : list Queue) (i : nat) (q q' : Queue) :
  queues !! i = Some q ->
  activeEntries queues
  = activeEntries (take i queues) ++ inFlight q ++ activeEntries (drop (S i) queues) /\
  activeEntries (<[i := q']> queues)
  = activeEntries (take i queues) ++ inFlight q' ++ activeEntries (drop (S i) queues).
Proof.
  intros Hq. unfold activeEntries.
  assert (Hi : (i < length queues)%nat) by (eapply lookup_lt_Some; eauto).
  rewrite insert_take_drop by exact Hi.
  rewrite <- (take_drop_middle queues i q Hq) at 1.
  rewrite !map_app, !concat_app. split; reflexivity.
Qed.

Lemma activeEntries_within (queues : list Queue) :
  activeEntries queues ⊆+ concat (map entries queues).
Proof.
  unfold activeEntries. induction queues as [|q queues IH]; simpl; [reflexivity|].
  apply submseteq_app; [|exact IH].
  unfold entries. apply submseteq_inserts_l, submseteq_inserts_r. reflexivity.
Qed.

Lemma activeEntries_none (queues : list Queue) :
  forallb queueDone queues = true -> activeEntries queues = [].
Proof.
  intros Hdone. apply forallb_queueDone in Hdone. unfold activeEntries.
  induction Hdone as [|q queues Hq _ IH]; [reflexivity|].
  simpl. unfold inFlight at 1. rewrite Hq, IH. reflexivity.
Qed.

(** The destinations of the entries to download are pairwise distinct when
    those of the job list are. *)
Lemma classify_dests_NoDup (models : list Model) (probes : list (Z * Fs.t)) :
  NoDup (map dest models) -> NoDup (map destOf (classify env (zip models probes))).
Proof.
  intros Hnd. eapply submseteq_NoDup; [|exact Hnd].
  transitivity (map dest (map fst (zip models probes)));
    [|apply fmap_submseteq, zip_prefix_within].
  rewrite <- classification_partition. apply submseteq_inserts_l. reflexivity.
Qed.

Lemma Inv_active_NoDup (models : list Model) (evs : list Event) (c : Config)
      (mws : list ModelWithSize) (queues : list Queue) :
  NoDup (map dest models) -> Inv env (Jobs models) evs c ->
  main c = Downloading mws queues ->
  NoDup (map destOf (activeEntries queues)).
Proof.
  intros Hnd (_ & HInv) Hmain. rewrite Hmain in HInv.
  destruct HInv as (models' & Hin & _ & -> & _ & _ & _ & _ & _ & HQ).
  injection Hin as <-.
  destruct HQ as ((groups & (_ & _ & _ & Hperm) & Hentries) & _ & _).
  eapply submseteq_NoDup; [|apply classify_dests_NoDup, Hnd].
  apply fmap_submseteq. rewrite <- Hperm, <- Hentries. apply activeEntries_within.
Qed.

Lemma FilesInv_joinAll (mws : list ModelWithSize) (queues : list Queue) (w : World) :
  currentFiles (status w) = activeFiles w -> NoDup (activeFiles w) ->
  (forall y, y ∈ activeFiles w <-> y ∈ map destOf (activeEntries queues)) ->
  FilesInv (joinAll clock mws queues w).
Proof.
  intros Hcur Hnd Hel. unfold joinAll.
  destruct (forallb queueDone queues) eqn:Hdone.
  - unfold epilogue, FilesInv. cbn. split; [exact Hcur|]. split; [exact Hnd|].
    rewrite (activeEntries_none queues Hdone) in Hel.
    destruct (activeFiles w) as [|y l]; [reflexivity|].
    exfalso. specialize (Hel y). cbn in Hel. rewrite elem_of_nil in Hel.
    apply Hel. left.
  - unfold FilesInv. cbn [world main]. auto.
Qed.

Lemma FilesInv_afterPreflight (mws : list ModelWithSize) (w : World) :
  currentFiles (status w) = [] -> activeFiles w = [] ->
  FilesInv (afterPreflight clock mws w).
Proof.
  intros Hcur Hact. unfold afterPreflight. destruct mws as [|m mws].
  - unfold FilesInv. cbn. rewrite Hcur, Hact. repeat split. constructor.
  - cbn [Date_now].
    destruct (groupBy _ _) as [byDomain|].
    + match goal with
      | |- context [startQueues clock ?g ?w'] =>
          destruct (startQueues_files g w') as (Hcur' & Hnd' & Hel')
      end.
      { cbn. exact Hcur. }
      { cbn. constructor. }
      apply FilesInv_joinAll; [exact Hcur' | exact Hnd'|].
      intros y. rewrite Hel'. cbn. rewrite elem_of_nil. tauto.
    + unfold FilesInv. cbn. rewrite Hcur, Hact. repeat split. constructor.
Qed.

Lemma FilesInv_step (models : list Model) (evs : list Event) (c : Config)
      (e : Event) (c' : Config) :
  NoDup (map dest models) ->
  Inv env (Jobs models) evs c -> FilesInv c ->
  step env clock c e = Some c' -> FilesInv c'.
Proof.
  intros Hnodup HInv (Hcur & Hnd & Hfiles) Hstep.
  destruct c as [w mn]. unfold step in Hstep. cbn [main world] in *.
  destruct mn as [input|seen todo mws|mws queues| |].
  - destruct e; try discriminate. injection Hstep as <-.
    destruct input as [| |models']; unfold boot.
    + unfold FilesInv. cbn. auto.
    + unfold FilesInv. cbn. auto.
    + unfold continuePreflight. destruct models'.
      * apply FilesInv_afterPreflight; cbn; congruence.
      * unfold FilesInv. cbn. auto.
  - destruct todo as [|m todo]; [discriminate|].
    destruct e as [|size fs|]; try discriminate. injection Hstep as <-.
    assert (Hbody : currentFiles (status (snd (preflightBody env m size fs mws w))) = [] /\
                    activeFiles (snd (preflightBody env m size fs mws w)) = []).
    { unfold preflightBody. destruct (skip _); cbn; split; congruence. }
    destruct Hbody as [Hc Ha].
    unfold continuePreflight. destruct todo.
    + apply FilesInv_afterPreflight; assumption.
    + unfold FilesInv. cbn [world main]. rewrite Hc, Ha. repeat split. constructor.
  - destruct e as [| |i s]; try discriminate. unfold resumeQueue in Hstep.
    pose proof (Inv_active_NoDup models evs _ mws queues Hnodup HInv eq_refl) as Hdist.
    destruct (queues !! i) as [q|] eqn:Hq; [|discriminate].
    destruct (current q) as [[m a]|] eqn:Hcq; [|discriminate].
    assert (Hfl : inFlight q = [m]) by (unfold inFlight; rewrite Hcq; reflexivity).
    destruct (downloadModel m a s) as [[a' progress|result|]|]; [| | |discriminate];
      injection Hstep as <-.
    + unfold FilesInv. cbn [world main].
      match goal with
      | |- context [<[i := ?q']> queues] =>
          destruct (activeEntries_insert queues i q q' Hq) as (Hold & Hnew)
      end.
      assert (Hsame : forall w', activeFiles w' = activeFiles w ->
                forall y, y ∈ activeFiles w' <->
                  y ∈ map destOf (activeEntries
                    (<[i := {| visited := visited q; current := Some (m, a');
                               remaining := remaining q |}]> queues))).
      { intros w' Hw' y. rewrite Hw', Hfiles, Hold, Hnew, Hfl. reflexivity. }
      destruct progress as [n|].
      * destruct (onProgress_files n w) as (Hc' & Ha').
        rewrite Hc', Ha'. split; [reflexivity|]. split; [exact Hnd|].
        apply Hsame, Ha'.
      * split; [exact Hcur|]. split; [exact Hnd|]. apply Hsame. reflexivity.
    + destruct (recordResult_files m result q w) as (Hc' & Ha' & Hfl').
      set (r := recordResult clock m result q w) in *.
      destruct (activeEntries_insert queues i q (fst r) Hq) as (Hold & Hnew).
      rewrite Hold, Hfl, !map_app in Hdist. cbn [map app] in Hdist.
      apply NoDup_app in Hdist as (Hd1 & Hd12 & Hd2).
      apply NoDup_cons in Hd2 as (Hd2 & Hd3).
      assert (Hother : forall y,
                y ∈ map destOf (activeEntries (take i queues)) \/
                y ∈ map destOf (activeEntries (drop (S i) queues)) -> y <> destOf m).
      { intros y [Hy|Hy] ->; [|contradiction].
        apply (Hd12 _ Hy). left. }
      apply FilesInv_joinAll; [exact Hc'| |].
      * rewrite Ha'. destruct (remaining q);
          [|apply Set_add_NoDup]; apply Set_delete_NoDup, Hnd.
      * intros y. rewrite Hnew, Hfl', Ha', !map_app, !elem_of_app.
        assert (Hdel : y ∈ Set_delete (dest m) (activeFiles w) <->
                       y ∈ map destOf (activeEntries (take i queues)) \/
                       y ∈ map destOf (activeEntries (drop (S i) queues))).
        { rewrite Set_delete_elem, Hfiles, Hold, Hfl, !map_app, !elem_of_app.
          cbn [map]. rewrite list_elem_of_singleton.
          specialize (Hother y). unfold destOf in *. tauto. }
        destruct (remaining q) as [|m' rest]; cbn [map].
        -- rewrite Hdel, elem_of_nil. tauto.
        -- rewrite Set_add_elem, Hdel, list_elem_of_singleton. unfold destOf. tauto.
    + unfold FilesInv. cbn [world main]. auto.
  - destruct e; discriminate.
  - destruct e; discriminate.
Qed.

Lemma FilesInv_run (models : list Model) (events : list Event) (c : Config) :
  NoDup (map dest models) ->
  run env clock (initial (Jobs models)) events = Some c -> FilesInv c.
Proof.
  intros Hnodup Hrun.
  apply (run_invariant env clock
           (fun evs c => Inv env (Jobs models) evs c /\ FilesInv c)
           (initial (Jobs models))) in Hrun; [apply Hrun| |].
  - split; [apply Inv_initial|]. unfold FilesInv. cbn. repeat split. constructor.
  - intros evs c1 e c2 [HInv HF] Hstep. split.
    + eapply Inv_step; eauto.
    + eapply FilesInv_step; eauto.
Qed.
End Files_facts.

(** X2.  For a job list with pairwise distinct destinations,
    [status.currentFiles] is at every point of a run the content of the set
    [activeFiles] and has no repetition; in the download phase it holds
    exactly the destinations of the downloads in flight, and in every other
    phase it is empty.  The destinations have to be distinct: with one
    destination used by two hosts, the first download to return removes
    the destination while the other download is still in flight. *)
Theorem currentFiles_are_active
        (env : Env) (clock : nat -> Z) (models : list Model)
        (events : list Event) (c : Config) :
  NoDup (map dest models) ->
  run env clock (initial (Jobs models)) events = Some c ->
  let st := status (world c) in
  currentFiles st = activeFiles (world c) /\
  NoDup (currentFiles st) /\
  (forall mws queues, main c = Downloading mws queues ->
     currentFiles st ≡ₚ map destOf (activeEntries queues)) /\
  (phase st <> Phase.downloading -> currentFiles st = []) /\
  (exists c' mws queues,
     run Sample_inputs.env Sample_inputs.clock
         (initial (Jobs [Further_inputs.twin_a; Further_inputs.twin_b]))
         Further_inputs.first_twin_fails = Some c' /\
     main c' = Downloading mws queues /\
     map destOf (activeEntries queues) = ["x.bin"] /\
     currentFiles (status (world c')) = []).
Proof.
  intros Hnodup Hrun st.
  pose proof (FilesInv_run env clock models events c Hnodup Hrun) as (Hcur & Hnd & Hfiles).
  pose proof (Inv_run env clock _ _ _ Hrun) as HInv.
  subst st. rewrite Hcur. split; [reflexivity|]. split; [exact Hnd|].
  split; [|split].
  - intros mws queues Hmain. rewrite Hmain in Hfiles.
    apply NoDup_Permutation; [exact Hnd| |exact Hfiles].
    eapply Inv_active_NoDup; eauto.
  - intros Hph. destruct HInv as (_ & HInv).
    destruct (main c) as [i|seen todo mws|mws queues| |]; try exact Hfiles.
    + destruct HInv as (models' & _ & _ & _ & _ & _ & Hd & _). contradiction.
    + destruct HInv as [(Hin & _)|(models' & _ & _ & _ & _ & Hd & _)];
        [discriminate | contradiction].
  - destruct (run Sample_inputs.env Sample_inputs.clock
                  (initial (Jobs [Further_inputs.twin_a; Further_inputs.twin_b]))
                  Further_inputs.first_twin_fails) as [c'|] eqn:Htwins;
      vm_compute in Htwins; [|discriminate].
    injection Htwins as <-. eexists _, _, _. repeat split.
Qed.

Lemma currentFiles_are_active_witness :
  NoDup (map dest Sample_inputs.jobs) /\
  option_map (fun c => currentFiles (status (world c)))
             (run Sample_inputs.env Sample_inputs.clock (initial (Jobs Sample_inputs.jobs))
                  Sample_inputs.both_streaming)
  = Some ["m1.bin"; "m3.bin"].
Proof.
  assert (Hnodup : NoDup (map dest Sample_inputs.jobs)).
  { apply NoDup_ListNoDup. repeat constructor; simpl; intuition discriminate. }
  split; [exact Hnodup|].
  destruct (run Sample_inputs.env Sample_inputs.clock (initial (Jobs Sample_inputs.jobs))
                Sample_inputs.both_streaming) as [c|] eqn:Hrun.
  - destruct (currentFiles_are_active _ _ _ _ _ Hnodup Hrun) as (Hcur & _).
    cbn [option_map]. rewrite Hcur.
    vm_compute in Hrun. injection Hrun as <-. reflexivity.
  - vm_compute in Hrun. discriminate.
Defined.

(** ** The speed shown *)

Lemma shiftExpired_Forall (P : Sample -> Prop) (cutoff : Z) (samples : list Sample) :
  Forall P samples -> Forall P (shiftExpired cutoff samples).
Proof.
  induction 1 as [|s rest Hs Hrest IH]; simpl; [constructor|].
  destruct (time s <? cutoff); [exact IH | constructor; assumption].
Qed.

Lemma sumBytes_nonneg (samples : list Sample) :
  Forall (fun s => 0 <= bytes s) samples -> 0 <= sumBytes samples.
Proof.
  unfold sumBytes. intros H.
  assert (Hgen : forall acc, 0 <= acc ->
            0 <= fold_left (fun sum s => sum + bytes s) samples acc).
  { induction H as [|s rest Hs _ IH]; intros acc Hacc; simpl; [exact Hacc|].
    apply IH. lia. }
  apply Hgen. lia.
Qed.

Lemma recentSpeed_nonneg (now : Z) (samples : list Sample) :
  Forall (fun s => 0 <= bytes s) samples ->
  (0 <= fst (recentSpeed now samples))%Q /\
  Forall (fun s => 0 <= bytes s) (snd (recentSpeed now samples)).
Proof.
  intros H. unfold recentSpeed.
  pose proof (shiftExpired_Forall _ (now - SPEED_WINDOW_MS) samples H) as Hkept.
  destruct (shiftExpired (now - SPEED_WINDOW_MS) samples) as [|oldest kept] eqn:Hk;
    cbn [fst snd].
  - split; [apply Qle_refl | constructor].
  - split; [|exact Hkept].
    destruct (Qlt_le_dec 0 (inject_Z (now - time oldest) / 1000)) as [Hpos|_];
      [|apply Qle_refl].
    apply Qle_shift_div_l; [exact Hpos|]. rewrite Qmult_0_l.
    change 0%Q with (inject_Z 0). rewrite <- Zle_Qle.
    apply sumBytes_nonneg, Hkept.
Qed.

Section Speed_facts.
Variable env : Env.
Variable clock : nat -> Z.

Lemma SpeedInv_updateStatus (files : list string) (w : World) :
  Forall (fun s => 0 <= bytes s) (speedSamples w) ->
  SpeedInv (updateStatus clock files w).
Proof.
  intros H. unfold updateStatus, getRecentSpeed, Date_now, SpeedInv. cbn.
  destruct (recentSpeed_nonneg (clock (ticks w)) (speedSamples w) H) as [Hv Hs].
  split; assumption.
Qed.

Lemma SpeedInv_onProgress (n : Z) (w : World) :
  0 <= n -> SpeedInv w -> SpeedInv (onProgress clock n w).
Proof.
  intros Hn [Hs _]. unfold onProgress. apply SpeedInv_updateStatus.
  unfold recordBytes, Date_now. cbn. apply Forall_app. split; [exact Hs|].
  constructor; [exact Hn | constructor].
Qed.

Lemma SpeedInv_enterLoop (q : Queue) (w : World) :
  SpeedInv w -> SpeedInv (snd (enterLoop clock q w)).
Proof.
  intros HInv. unfold enterLoop. destruct (remaining q); [exact HInv|].
  cbn [snd]. apply SpeedInv_updateStatus. apply HInv.
Qed.

Lemma SpeedInv_recordResult (m : ModelWithSize) (result : DownloadResult.t)
      (q : Queue) (w : World) :
  SpeedInv w -> SpeedInv (snd (recordResult clock m result q w)).
Proof.
  intros [Hs _]. unfold recordResult. apply SpeedInv_enterLoop.
  apply SpeedInv_updateStatus. exact Hs.
Qed.

Lemma SpeedInv_startQueues (groups : list (list ModelWithSize)) (w : World) :
  SpeedInv w -> SpeedInv (snd (startQueues clock groups w)).
Proof.
  revert w. induction groups as [|g groups IH]; intros w HInv; simpl; [exact HInv|].
  apply IH, SpeedInv_enterLoop, HInv.
Qed.

Lemma SpeedInv_joinAll (mws : list ModelWithSize) (queues : list Queue) (w : World) :
  SpeedInv w -> SpeedInv (world (joinAll clock mws queues w)).
Proof.
  intros HInv. unfold joinAll. destruct (forallb queueDone queues); exact HInv.
Qed.

Lemma SpeedInv_afterPreflight (mws : list ModelWithSize) (w : World) :
  SpeedInv w -> SpeedInv (world (afterPreflight clock mws w)).
Proof.
  intros HInv. unfold afterPreflight. destruct mws as [|m mws]; [exact HInv|].
  cbn [Date_now]. destruct (groupBy _ _) as [groups|]; [|exact HInv].
  apply SpeedInv_joinAll, SpeedInv_startQueues. exact HInv.
Qed.

Lemma SpeedInv_step (c : Config) (e : Event) (c' : Config) :
  (forall q len, e = Settled q (Chunk len) -> 0 <= len) ->
  SpeedInv (world c) -> step env clock c e = Some c' -> SpeedInv (world c').
Proof.
  intros Hlen HInv Hstep. destruct c as [w mn]. unfold step in Hstep.
  cbn [main world] in *.
  destruct mn as [input|seen todo mws|mws queues| |].
  - destruct e; try discriminate. injection Hstep as <-.
    destruct input as [| |models]; unfold boot; [exact HInv..|].
    unfold continuePreflight. destruct models; [|exact HInv].
    apply SpeedInv_afterPreflight. exact HInv.
  - destruct todo as [|m todo]; [discriminate|].
    destruct e as [|size fs|]; try discriminate. injection Hstep as <-.
    assert (Hbody : SpeedInv (snd (preflightBody env m size fs mws w))).
    { unfold preflightBody. destruct (skip _); exact HInv. }
    unfold continuePreflight. destruct todo; [|exact Hbody].
    apply SpeedInv_afterPreflight. exact Hbody.
  - destruct e as [| |i s]; try discriminate. unfold resumeQueue in Hstep.
    destruct (queues !! i) as [q|]; [|discriminate].
    destruct (current q) as [[m a]|]; [|discriminate].
    destruct (downloadModel m a s) as [[a' progress|result|]|] eqn:Hdl;
      [| | |discriminate]; injection Hstep as <-; cbn [world].
    + destruct progress as [n|]; [|exact HInv].
      apply SpeedInv_onProgress; [|exact HInv].
      pose proof (downloadModel_progress m a a' s _ Hdl) as Hp.
      destruct s; try discriminate. injection Hp as <-.
      eapply Hlen. reflexivity.
    + apply SpeedInv_joinAll, SpeedInv_recordResult. exact HInv.
    + exact HInv.
  - destruct e; discriminate.
  - destruct e; discriminate.
Qed.
End Speed_facts.

(** X3.  Whatever the clock answers, the speed the status shows is never
    negative and no sample counts a negative number of bytes, at every
    point of every run whose chunks have a length that is not negative. *)
Theorem speed_never_negative
        (env : Env) (clock : nat -> Z) (input : JobInput)
        (events : list Event) (c : Config) :
  chunksHaveLength events ->
  run env clock (initial input) events = Some c ->
  (0 <= speed (status (world c)))%Q /\
  Forall (fun s => 0 <= bytes s) (speedSamples (world c)).
Proof.
  intros Hlen Hrun.
  enough (H : chunksHaveLength events -> SpeedInv (world c)).
  { destruct (H Hlen) as [Hs Hv]. split; assumption. }
  clear Hlen. revert events c Hrun.
  apply (run_invariant env clock
           (fun evs c => chunksHaveLength evs -> SpeedInv (world c))).
  - intros _. split; [constructor | apply Qle_refl].
  - intros evs c1 e c2 IH Hstep Hlen.
    eapply SpeedInv_step; [|apply IH|exact Hstep].
    + intros q len ->. apply (Hlen q len). apply elem_of_app. right. left.
    + intros q len Hin. apply (Hlen q len). apply elem_of_app. left. exact Hin.
Qed.

Lemma speed_never_negative_witness :
  chunksHaveLength Sample_inputs.both_streaming /\
  option_map (fun c => Qle_bool 0 (speed (status (world c))))
             (run Sample_inputs.env Sample_inputs.clock (initial (Jobs Sample_inputs.jobs))
                  Sample_inputs.both_streaming)
  = Some true.
Proof.
  assert (Hlen : chunksHaveLength Sample_inputs.both_streaming).
  { intros q len Hin.
    unfold Sample_inputs.both_streaming, Sample_inputs.preflight_events in Hin.
    cbn [app] in Hin.
    repeat (apply elem_of_cons in Hin as [Hin|Hin];
            [try discriminate Hin; injection Hin as -> ->; lia|]).
    apply elem_of_nil in Hin. contradiction. }
  split; [exact Hlen|].
  destruct (run Sample_inputs.env Sample_inputs.clock (initial (Jobs Sample_inputs.jobs))
                Sample_inputs.both_streaming) as [c|] eqn:Hrun.
  - destruct (speed_never_negative _ _ _ _ _ Hlen Hrun) as (Hspeed & _).
    cbn [option_map]. f_equal. apply Qle_bool_iff, Hspeed.
  - vm_compute in Hrun. discriminate.
Defined.

(** ** A download and the next run *)

Lemma written_to_lookup (env : Env) (m : Model) (written : Z) (digest : string)
      (fs : Fs.t) :
  written_to env m written digest fs (destPathOf env m)
  = Some {| Fs.size := written; Fs.sha256 := digest |}.
Proof. unfold written_to, Fs.add. rewrite String.eqb_refl. reflexivity. Qed.

(** X4.  A complete transfer and the check of the next run, for the file
    the transfer leaves behind.  If the download succeeded, the check with
    the same probed size skips the entry, and with a hash configured it
    skips it for every probed size, with reason "hash match".  If the
    download failed with "hash mismatch", the check asks for the download
    again, whatever the probed size.  If it failed with no hash configured
    (the size differed), the check with the same probed size asks for the
    download again. *)
Theorem download_then_recheck
        (env : Env) (m : ModelWithSize) (res : Http.Response) (lens : list Z)
        (digest : string) (fs : Fs.t) :
  Http.ok res = true -> Http.hasBody res = true ->
  let written := totalLength lens in
  let fs' := written_to env m written digest fs in
  exists result,
    runDownload m AwaitFetch (transfer res lens ++ verification m written digest)
    = Returned result /\
    (DownloadResult.status result = DownloadStatus.success ->
       skip (checkNeedsDownload env fs' m (size m)) = true /\
       (truthy_opt (sha256 m) = true ->
          forall size', checkNeedsDownload env fs' m size' = skipBecause "hash match")) /\
    (result = DownloadResult.fail "hash mismatch" ->
       forall size', checkNeedsDownload env fs' m size' = mustDownload) /\
    (DownloadResult.status result = DownloadStatus.failed ->
       truthy_opt (sha256 m) = false ->
       checkNeedsDownload env fs' m (size m) = mustDownload).
Proof.
  intros Hok Hbody written fs'.
  rewrite runDownload_transfer by assumption.
  unfold checkNeedsDownload. subst fs'. rewrite written_to_lookup. cbn [Fs.size Fs.sha256].
  unfold verification. cbn [runDownload downloadModel]. fold written.
  destruct ((0 <? size m) && negb (written =? size m)) eqn:Hmis.
  - eexists. split; [reflexivity|]. cbn [DownloadResult.status DownloadResult.fail].
    split; [discriminate|]. split.
    + intros Heq. exfalso. unfold DownloadResult.fail in Heq.
      inversion Heq.
    + intros _ Hcfg. rewrite Hcfg.
      apply andb_true_iff in Hmis as [Hpos Hne]. rewrite Hpos.
      apply negb_true_iff in Hne. rewrite Hne. reflexivity.
  - destruct (truthy_opt (sha256 m)) eqn:Hcfg; cbn [runDownload downloadModel].
    + destruct (opt_string_eqb (Some digest) (sha256 m)) eqn:Hhash; cbn [negb].
      * eexists. split; [reflexivity|]. split; [|split; discriminate].
        intros _. split; [reflexivity|]. intros _ size'. reflexivity.
      * eexists. split; [reflexivity|]. split; [discriminate|].
        split; [|discriminate]. intros _ size'. reflexivity.
    + eexists. split; [reflexivity|]. split; [|split; discriminate].
      intros _. split; [|discriminate].
      apply andb_false_iff in Hmis as [Hpos|Heq].
      * rewrite Hpos. reflexivity.
      * apply negb_false_iff in Heq. rewrite Heq.
        destruct (0 <? size m); reflexivity.
Qed.

(** 900 bytes arrive for an entry probed at 900 bytes, with no hash
    configured: the next run finds the sizes equal. *)
Lemma download_then_recheck_witness :
  Http.ok Sample_inputs.ok200 = true /\ Http.hasBody Sample_inputs.ok200 = true /\
  skip (checkNeedsDownload Sample_inputs.env
          (written_to Sample_inputs.env Sample_inputs.m2 900 "" Fs.empty)
          Sample_inputs.m2 900) = true.
Proof.
  split; [reflexivity|]. split; [reflexivity|].
  destruct (download_then_recheck Sample_inputs.env
              (Sample_inputs.sized Sample_inputs.m2 900) Sample_inputs.ok200
              [400; 500] "" Fs.empty eq_refl eq_refl)
    as (result & Hrun & Hsucc & _).
  vm_compute in Hrun. injection Hrun as <-.
  destruct (Hsucc eq_refl) as (Hskip & _). exact Hskip.
Defined.

Ltac eval_digit :=
  match goal with
  | |- context [is_digit ?c] =>
      change (is_digit c) with true;
      let v := eval vm_compute in (digit_value c) in
      change (digit_value c) with v
  end.

Lemma digits_of_uint_acc (d : Decimal.uint) (acc : positive) (rest : string) :
  starts_with_digit rest = false ->
  digits (Z.pos acc) (NilEmpty.string_of_uint d +:+ rest)
  = Z.pos (Pos.of_uint_acc d acc).
Proof.
  intros Hrest. revert acc.
  induction d; intros acc; cbn [NilEmpty.string_of_uint Pos.of_uint_acc];
    rewrite ?append_nil, ?append_cons; cbn [digits];
    try (eval_digit; cbv iota; rewrite <- IHd; f_equal; lia).
  destruct rest as [|c rest]; [reflexivity|].
  cbn [starts_with_digit] in Hrest. cbn [digits]. rewrite Hrest. reflexivity.
Qed.

Lemma digits_of_uint (d : Decimal.uint) (rest : string) :
  starts_with_digit rest = false ->
  digits 0 (NilEmpty.string_of_uint d +:+ rest) = Z.of_N (Pos.of_uint d).
Proof.
  intros Hrest.
  induction d; cbn [NilEmpty.string_of_uint Pos.of_uint];
    rewrite ?append_nil, ?append_cons; cbn [digits];
    try (eval_digit; cbv iota; cbn [Z.mul Z.add];
         first [exact IHd | apply (digits_of_uint_acc d _ rest Hrest)]).
  destruct rest as [|c rest]; [reflexivity|].
  cbn [starts_with_digit] in Hrest. cbn [digits]. rewrite Hrest. reflexivity.
Qed.

Lemma string_of_uint_digit (d : Decimal.uint) :
  d <> Decimal.Nil -> starts_with_digit (NilEmpty.string_of_uint d) = true.
Proof. destruct d; intros H; [contradiction|..]; reflexivity. Qed.

(** The decimal rendering of a number that is not negative: its digits. *)
Lemma show_nonneg (n : Z) :
  0 <= n ->
  exists d, d <> Decimal.Nil /\ show n = NilEmpty.string_of_uint d /\
            Z.of_N (Pos.of_uint d) = n.
Proof.
  intros Hn. unfold show. destruct n as [|p|p]; [| |lia].
  - exists (Decimal.D0 Decimal.Nil). repeat split. discriminate.
  - exists (Pos.to_uint p). split; [|split].
    + intros Hnil. pose proof (DecimalPos.Unsigned.of_to p) as Hof.
      rewrite Hnil in Hof. discriminate.
    + cbn [Z.to_int NilZero.string_of_int]. unfold NilZero.string_of_uint.
      destruct (Pos.to_uint p) eqn:Hp; try reflexivity.
      pose proof (DecimalPos.Unsigned.of_to p) as Hof. rewrite Hp in Hof. discriminate.
    + rewrite DecimalPos.Unsigned.of_to. reflexivity.
Qed.

(** Reading back what [show] printed. *)
Lemma digits_show (n : Z) (rest : string) :
  0 <= n -> starts_with_digit rest = false ->
  digits 0 (show n +:+ rest) = n /\ starts_with_digit (show n +:+ rest) = true /\
  digit_prefix (show n +:+ rest) = show n.
Proof.
  intros Hn Hrest. destruct (show_nonneg n Hn) as (d & Hd & -> & Hval).
  split; [rewrite digits_of_uint by exact Hrest; exact Hval|].
  split.
  - destruct d; try contradiction; reflexivity.
  - clear Hd Hval. induction d; cbn [NilEmpty.string_of_uint];
      rewrite ?append_nil, ?append_cons; cbn [digit_prefix];
      try (change (is_digit _) with true; cbv iota; rewrite IHd; reflexivity).
    destruct rest as [|c rest]; [reflexivity|].
    cbn [starts_with_digit] in Hrest. cbn [digit_prefix]. rewrite Hrest. reflexivity.
Qed.

Lemma trimStart_digit (s : string) : starts_with_digit s = true -> trimStart s = s.
Proof.
  destruct s as [|c s]; [reflexivity|]. cbn [starts_with_digit trimStart].
  intros Hc. replace (is_space c) with false; [reflexivity|].
  unfold is_digit, is_space in *. destruct (nat_of_ascii c) as [|n]; [discriminate|].
  symmetry. apply orb_false_iff. split.
  - apply Nat.eqb_neq. intros Heq. rewrite Heq in Hc. discriminate.
  - apply andb_true_iff in Hc as [Hlo Hhi]. apply Nat.leb_le in Hlo.
    apply andb_false_iff. right. apply Nat.leb_gt. lia.
Qed.

Lemma parseInt_digits (s : string) :
  starts_with_digit s = true -> parseInt s = Int (digits 0 s).
Proof.
  intros Hs. unfold parseInt. rewrite (trimStart_digit s Hs).
  destruct s as [|c s]; [discriminate|].
  cbn [starts_with_digit] in Hs.
  destruct (Ascii.eqb_spec c "-") as [->|Hm]; [discriminate|].
  destruct (Ascii.eqb_spec c "+") as [->|Hp]; [discriminate|].
  destruct c as [[] [] [] [] [] [] [] []]; try reflexivity; try congruence;
    vm_compute in Hs; discriminate.
Qed.

(** Round trip: [parseInt] reads back the number a template literal
    printed, whatever follows it that is not a digit. *)
Lemma parseInt_show (n : Z) (rest : string) :
  0 <= n -> starts_with_digit rest = false -> parseInt (show n +:+ rest) = Int n.
Proof.
  intros Hn Hrest. destruct (digits_show n rest Hn Hrest) as (Hval & Hstart & _).
  rewrite parseInt_digits by exact Hstart. rewrite Hval. reflexivity.
Qed.

(** ** The size probe *)

Lemma append_empty_r (s : string) : s +:+ "" = s.
Proof. induction s as [|c s IH]; [reflexivity|]. rewrite append_cons, IH. reflexivity. Qed.

Lemma digit_value_nonneg (c : ascii) : is_digit c = true -> 0 <= digit_value c.
Proof.
  unfold is_digit, digit_value. intros H. apply andb_true_iff in H as [Hlo _].
  apply Nat.leb_le in Hlo. lia.
Qed.

Lemma digits_nonneg (acc : Z) (s : string) : 0 <= acc -> 0 <= digits acc s.
Proof.
  revert acc. induction s as [|c s IH]; intros acc Hacc; cbn [digits]; [exact Hacc|].
  destruct (is_digit c) eqn:Hc; [|exact Hacc].
  apply IH. pose proof (digit_value_nonneg c Hc). lia.
Qed.

Lemma digit_prefix_start (s : string) :
  starts_with_digit s = true -> starts_with_digit (digit_prefix s) = true.
Proof.
  destruct s as [|c s]; [discriminate|]. cbn [starts_with_digit digit_prefix].
  intros Hc. rewrite Hc. exact Hc.
Qed.

(** What the pattern captures is a numeral, and [parseInt] reads it as a
    number that is not negative. *)
Lemma matchTotal_number (s captured : string) :
  matchTotal s = Some captured -> exists n, 0 <= n /\ parseInt captured = Int n.
Proof.
  induction s as [|c s IH]; cbn [matchTotal]; [discriminate|].
  destruct (Ascii.eqb c "/" && starts_with_digit s) eqn:Htest; [|exact IH].
  intros Heq. injection Heq as <-.
  apply andb_true_iff in Htest as [_ Hstart].
  exists (digits 0 (digit_prefix s)). split; [apply digits_nonneg; lia|].
  apply parseInt_digits, digit_prefix_start, Hstart.
Qed.

Lemma includes_head (c : ascii) (s : string) :
  includes (String c s) "/" = false -> Ascii.eqb c "/" = false /\ includes s "/" = false.
Proof.
  cbn [includes]. intros H. apply orb_false_iff in H as [Hpre Hrest].
  split; [|exact Hrest].
  destruct (Ascii.eqb_spec c "/") as [->|Hne]; [|reflexivity].
  destruct s; discriminate.
Qed.

(** The first [/] of the text is the one the pattern tries first. *)
Lemma matchTotal_first_slash (pre rest : string) :
  includes pre "/" = false -> starts_with_digit rest = true ->
  matchTotal (pre +:+ "/" +:+ rest) = Some (digit_prefix rest).
Proof.
  intros Hpre Hrest. induction pre as [|c pre IH].
  - rewrite append_nil, append_cons, append_nil. cbn [matchTotal].
    rewrite Hrest. reflexivity.
  - apply includes_head in Hpre as [Hc Hpre]. rewrite append_cons. cbn [matchTotal].
    rewrite Hc. cbn [andb]. apply IH, Hpre.
Qed.

Lemma truthy_append_slash (pre rest : string) : truthy (pre +:+ "/" +:+ rest) = true.
Proof. destruct pre; [rewrite append_nil, append_cons | rewrite append_cons]; reflexivity. Qed.

(** X5.  [fetchFileSize] never throws: a rejected [fetch] and an answer
    that is not ok give 0.  A 206 answer whose [content-range] has a total
    after its first [/] gives that total, whatever [content-length] says,
    and what is read from [content-range] is never negative and never NaN.
    An ok answer without such a total gives the [content-length] as
    [parseInt] reads it: the number the header states, 0 when the header is
    absent or empty. *)
Theorem fetchFileSize_reads_total :
  (forall message, fetchFileSize (Probe.Rejects message) = Int 0) /\
  (forall res, Probe.ok res = false -> fetchFileSize (Probe.Responds res) = Int 0) /\
  (forall res pre n post,
     Probe.status res = 206 -> 0 <= n ->
     includes pre "/" = false -> starts_with_digit post = false ->
     Probe.contentRange res = Some (pre +:+ "/" +:+ show n +:+ post) ->
     fetchFileSize (Probe.Responds res) = Int n) /\
  (forall res,
     Probe.status res = 206 ->
     match Probe.contentRange res with
     | Some contentRange => matchTotal contentRange <> None
     | None => False
     end ->
     exists n, 0 <= n /\ fetchFileSize (Probe.Responds res) = Int n) /\
  (forall res,
     Probe.ok res = true -> totalOfRange res = None ->
     fetchFileSize (Probe.Responds res) = parseInt (or_zero (Probe.contentLength res)) /\
     (forall n, 0 <= n -> Probe.contentLength res = Some (show n) ->
        fetchFileSize (Probe.Responds res) = Int n) /\
     (Probe.contentLength res = None \/ Probe.contentLength res = Some "" ->
        fetchFileSize (Probe.Responds res) = Int 0)).
Proof.
  split; [reflexivity|]. split; [|split; [|split]].
  - intros res Hok. unfold fetchFileSize, totalOfRange.
    assert (H206 : (Probe.status res =? 206) = false).
    { unfold Probe.ok in Hok. apply Z.eqb_neq. intros Heq. rewrite Heq in Hok.
      discriminate. }
    rewrite H206, Hok. reflexivity.
  - intros res pre n post H206 Hn Hpre Hpost Hcr.
    unfold fetchFileSize, totalOfRange. rewrite H206, Hcr. cbn [Z.eqb Pos.eqb].
    rewrite truthy_append_slash.
    destruct (digits_show n post Hn Hpost) as (_ & Hstart & Hprefix).
    rewrite (matchTotal_first_slash pre (show n +:+ post) Hpre Hstart), Hprefix.
    rewrite <- (append_empty_r (show n)). apply parseInt_show; [exact Hn | reflexivity].
  - intros res H206 Hcr. unfold fetchFileSize, totalOfRange. rewrite H206.
    cbn [Z.eqb Pos.eqb].
    destruct (Probe.contentRange res) as [contentRange|]; [|contradiction].
    destruct (matchTotal contentRange) as [captured|] eqn:Hm; [|contradiction].
    assert (Ht : truthy contentRange = true).
    { destruct contentRange; [discriminate | reflexivity]. }
    rewrite Ht. eapply matchTotal_number. exact Hm.
  - intros res Hok Hnone. unfold fetchFileSize. rewrite Hnone, Hok. cbn [orb].
    split; [reflexivity|]. split.
    + intros n Hn Hcl. rewrite Hcl. unfold or_zero.
      assert (Ht : truthy (show n) = true).
      { destruct (digits_show n "" Hn eq_refl) as (_ & Hstart & _).
        rewrite append_empty_r in Hstart. destruct (show n); [discriminate | reflexivity]. }
      rewrite Ht, <- (append_empty_r (show n)).
      apply parseInt_show; [exact Hn | reflexivity].
    + intros [Hcl|Hcl]; rewrite Hcl; reflexivity.
Qed.

(** A ranged answer for a file of 1234 bytes: the part has one byte, the
    total is read from [content-range]. *)
Lemma fetchFileSize_reads_total_witness :
  fetchFileSize (Probe.Responds {| Probe.status := 206;
                                   Probe.contentRange := Some "bytes 0-0/1234";
                                   Probe.contentLength := Some "1" |})
  = Int 1234.
Proof.
  destruct fetchFileSize_reads_total as (_ & _ & Hrange & _).
  apply (Hrange _ "bytes 0-0" 1234 ""); [reflexivity | lia | reflexivity..].
Defined.

(** ** An entry whose size the probe did not learn *)

Lemma probeFailed_zero (answer : Probe.Answer) :
  probeFailed answer -> fetchFileSize answer = Int 0.
Proof.
  destruct answer as [res|message]; [|reflexivity]. cbn [probeFailed]. intros Hok.
  unfold fetchFileSize, totalOfRange.
  assert (H206 : (Probe.status res =? 206) = false).
  { unfold Probe.ok in Hok. apply Z.eqb_neq. intros Heq. rewrite Heq in Hok. discriminate. }
  rewrite H206, Hok. reflexivity.
Qed.

(** X6.  When the probe fails the size is 0, and with no hash configured
    neither size check is made: a file found at the destination is kept
    ("file exists") whatever its size, a missing file is downloaded, and
    the download succeeds whatever number of bytes arrives. *)
Theorem failed_probe_disables_size_checks
        (env : Env) (answer : Probe.Answer) (m : Model) (probed : Z) (fs : Fs.t)
        (res : Http.Response) (lens : list Z) :
  probeFailed answer -> fetchFileSize answer = Int probed ->
  truthy_opt (sha256 m) = false ->
  probed = 0 /\
  (forall st, fs (destPathOf env m) = Some st ->
     checkNeedsDownload env fs m probed = skipBecause "file exists") /\
  (fs (destPathOf env m) = None -> checkNeedsDownload env fs m probed = mustDownload) /\
  (Http.ok res = true -> Http.hasBody res = true ->
   runDownload {| model := m; size := probed |} AwaitFetch (transfer res lens)
   = Returned DownloadResult.ok).
Proof.
  intros Hfailed Hsize Hcfg. rewrite (probeFailed_zero answer Hfailed) in Hsize.
  injection Hsize as <-. split; [reflexivity|]. split; [|split].
  - intros st Hst. unfold checkNeedsDownload. rewrite Hst, Hcfg. reflexivity.
  - intros Hnone. unfold checkNeedsDownload. rewrite Hnone. reflexivity.
  - intros Hok Hbody. rewrite <- (app_nil_r (transfer res lens)).
    rewrite runDownload_transfer by assumption.
    cbn [runDownload downloadModel size model]. rewrite Hcfg. reflexivity.
Qed.

(** The remote answers 404 to the probe and 200 to the download. *)
Lemma failed_probe_disables_size_checks_witness :
  runDownload (Sample_inputs.sized Sample_inputs.m2 0) AwaitFetch
              (transfer Sample_inputs.ok200 [400; 500])
  = Returned DownloadResult.ok.
Proof.
  destruct (failed_probe_disables_size_checks Sample_inputs.env
              (Probe.Responds {| Probe.status := 404; Probe.contentRange := None;
                                 Probe.contentLength := None |})
              Sample_inputs.m2 0 Fs.empty Sample_inputs.ok200 [400; 500]
              eq_refl eq_refl eq_refl) as (_ & _ & _ & Hok).
  apply Hok; reflexivity.
Defined.

(** ** The estimate *)

Lemma plus_zero_r (a : Num) : Estimate.plus a (Int 0) = a.
Proof. destruct a as [|x]; [reflexivity|]. cbn. f_equal. lia. Qed.

(** Where the estimate's probe returns, the worker's returns the same; where
    it throws, the worker's returns 0. *)
Lemma fetchFileSize_agree (answer : Probe.Answer) :
  match Estimate.fetchFileSize answer with
  | Estimate.Size n => fetchFileSize answer = n
  | Estimate.Throws _ => fetchFileSize answer = Int 0
  end.
Proof.
  destruct answer as [res|message]; [|reflexivity].
  unfold Estimate.fetchFileSize, fetchFileSize.
  destruct (totalOfRange res); [reflexivity|].
  destruct (Probe.ok res || (Probe.status res =? 206)); reflexivity.
Qed.

Lemma probeOne_total (probe : Model -> Probe.Answer) (models : list Model)
      (acc : list Estimate.Line.t * Num) :
  snd (fold_left (Estimate.probeOne probe) models acc)
  = fold_left (fun a m => Estimate.plus a (fetchFileSize (probe m))) models (snd acc) /\
  map Estimate.Line.dest (fst (fold_left (Estimate.probeOne probe) models acc))
  = map Estimate.Line.dest (fst acc) ++ map dest models.
Proof.
  revert acc. induction models as [|m models IH]; intros acc; cbn [fold_left map].
  - rewrite app_nil_r. split; reflexivity.
  - destruct (IH (Estimate.probeOne probe acc m)) as (-> & ->).
    pose proof (fetchFileSize_agree (probe m)) as Hagree.
    unfold Estimate.probeOne.
    destruct (Estimate.fetchFileSize (probe m)) as [n|message]; cbn [fst snd];
      rewrite Hagree, ?plus_zero_r, map_app, <- app_assoc; split; reflexivity.
Qed.

(** The recommended size leaves five units of 2^30 bytes free, and less
    than six. *)
Lemma recommend_bounds (b r : Z) :
  Estimate.recommend (Int b) = Int r ->
  b + 5 * Estimate.GiB <= r * Estimate.GiB /\ r * Estimate.GiB < b + 6 * Estimate.GiB.
Proof.
  unfold Estimate.recommend. intros Heq. injection Heq as <-.
  set (q := (inject_Z b / inject_Z Estimate.GiB + 5)%Q).
  pose proof (Qle_ceiling q) as Hle. pose proof (Qceiling_lt q) as Hlt.
  subst q. revert Hle Hlt. generalize (Qceiling (inject_Z b / inject_Z Estimate.GiB + 5)).
  intros r. unfold Estimate.GiB. change (1024 * 1024 * 1024) with 1073741824.
  unfold Qle, Qlt, Qdiv, Qmult, Qplus, Qinv, inject_Z. cbn. lia.
Qed.

(** The worker's first loop accepts a probe for every entry. *)
Lemma run_probes (env : Env) (clock : nat -> Z) (answers : Model -> Z * Fs.t)
      (seen todo : list Model) (mws : list ModelWithSize) (w : World) :
  todo <> [] ->
  exists c',
    run env clock {| world := w; main := PreflightLoop seen todo mws |}
        (map (fun m => Probed (fst (answers m)) (snd (answers m))) todo) = Some c'.
Proof.
  revert seen mws w. induction todo as [|m todo IH]; intros seen mws w Hne;
    [contradiction|].
  cbn [map run step main world].
  destruct todo as [|m' todo].
  - eexists. reflexivity.
  - unfold continuePreflight. apply IH. discriminate.
Qed.

Lemma probesOf_probes (answers : Model -> Z * Fs.t) (models : list Model) :
  probesOf (map (fun m => Probed (fst (answers m)) (snd (answers m))) models)
  = map answers models.
Proof.
  unfold probesOf. induction models as [|m models IH]; [reflexivity|].
  cbn [map flat_map app]. rewrite IH. destruct (answers m). reflexivity.
Qed.

Lemma classify_empty_volume (env : Env) (sizeOf : Model -> Z) (models : list Model) :
  sumSizes (classify env (zip models (map (fun m => (sizeOf m, Fs.empty)) models)))
  = fold_right (fun m acc => sizeOf m + acc) 0 models.
Proof.
  induction models as [|m models IH]; [reflexivity|].
  cbn [map zip zip_with classify flat_map]. unfold decisionOf at 1.
  cbn [fst snd checkNeedsDownload Fs.empty skip]. rewrite sumSizes_app.
  fold (classify env (zip models (map (fun m => (sizeOf m, Fs.empty)) models))).
  rewrite IH. cbn. lia.
Qed.

Lemma probedTotal_sizes (probe : Model -> Probe.Answer) (sizeOf : Model -> Z)
      (models : list Model) :
  (forall m, m ∈ models -> fetchFileSize (probe m) = Int (sizeOf m)) ->
  probedTotal models probe = Int (fold_right (fun m acc => sizeOf m + acc) 0 models).
Proof.
  unfold probedTotal. intros Hall.
  assert (Hgen : forall acc,
            fold_left (fun a m => Estimate.plus a (fetchFileSize (probe m))) models (Int acc)
            = Int (acc + fold_right (fun m a => sizeOf m + a) 0 models)).
  { induction models as [|m models IH]; intros acc; cbn [fold_left fold_right].
    - f_equal. lia.
    - rewrite (Hall m) by left. cbn [Estimate.plus]. rewrite IH.
      + f_equal. lia.
      + intros m' Hm'. apply Hall. right. exact Hm'. }
  rewrite Hgen. f_equal.
Qed.

(** X7.  The [estimate] command and the worker.  [estimate] attaches the
    authorization the worker attaches, lists the entries in the order of
    the configuration, and its total is the sum of what the worker's probe
    returns for the same answers: a probe that throws counts 0 and does not
    stop the loop.  The recommended size, in units of 2^30 bytes, leaves at
    least five units free and less than six.  When every probe learns a
    size, the total is the [overallTotalBytes] of a worker that starts on
    an empty volume. *)
Theorem estimate_predicts_worker
        (env : Env) (clock : nat -> Z) (models : list Model)
        (probe : Model -> Probe.Answer) (report : Estimate.Report) :
  Estimate.estimate models probe = Some report ->
  (forall url,
     Estimate.getAuthHeaders url (HF_TOKEN env) (CIVITAI_TOKEN env)
     = getAuthHeaders env url) /\
  map Estimate.Line.dest (Estimate.results report) = map dest models /\
  Estimate.totalBytes report = probedTotal models probe /\
  (forall b r,
     Estimate.totalBytes report = Int b -> Estimate.recommended report = Int r ->
     b + 5 * Estimate.GiB <= r * Estimate.GiB < b + 6 * Estimate.GiB) /\
  (forall sizeOf,
     (forall m, m ∈ models -> fetchFileSize (probe m) = Int (sizeOf m)) ->
     exists c,
       run env clock (initial (Jobs models))
           (Listening :: map (fun m => Probed (sizeOf m) Fs.empty) models) = Some c /\
       Estimate.totalBytes report = Int (overallTotalBytes (status (world c)))).
Proof.
  intros Hest. split; [reflexivity|].
  unfold Estimate.estimate in Hest. destruct models as [|m0 models]; [discriminate|].
  injection Hest as <-. cbn [Estimate.results Estimate.totalBytes Estimate.recommended].
  destruct (probeOne_total probe (m0 :: models) ([], Int 0)) as (Htotal & Hdests).
  cbn [fst snd app] in Htotal, Hdests.
  split; [exact Hdests|]. split; [exact Htotal|]. split.
  - intros b r Hb Hr. rewrite Hb in Hr. apply recommend_bounds in Hr. lia.
  - intros sizeOf Hsizes.
    destruct (run_probes env clock (fun m => (sizeOf m, Fs.empty)) [] (m0 :: models) []
                (with_status (set_totalFiles (Z.of_nat (length (m0 :: models)))) world0))
      as (c & Hrun); [discriminate|].
    exists c. split; [exact Hrun|].
    assert (Hrun' : run env clock (initial (Jobs (m0 :: models)))
                        (Listening :: map (fun m => Probed (sizeOf m) Fs.empty)
                                          (m0 :: models)) = Some c) by exact Hrun.
    apply (Inv_run env clock) in Hrun'. apply Inv_total in Hrun'.
    rewrite Hrun'. cbn [probesOf flat_map app].
    fold (probesOf (map (fun m => Probed (sizeOf m) Fs.empty) (m0 :: models))).
    rewrite (probesOf_probes (fun m => (sizeOf m, Fs.empty))).
    rewrite classify_empty_volume.
    transitivity (probedTotal (m0 :: models) probe);
      [exact Htotal | apply probedTotal_sizes, Hsizes].
Qed.

Lemma estimate_predicts_worker_witness :
  option_map Estimate.totalBytes
             (Estimate.estimate Sample_inputs.jobs Further_inputs.ten_each)
  = Some (Int 30).
Proof.
  destruct (Estimate.estimate Sample_inputs.jobs Further_inputs.ten_each)
    as [report|] eqn:Hest; [|discriminate].
  destruct (estimate_predicts_worker Sample_inputs.env Sample_inputs.clock _ _ _ Hest)
    as (_ & _ & Htotal & _).
  cbn [option_map]. rewrite Htotal. reflexivity.
Defined.

(** ** Durations as text *)

Lemma append_inv_head (p s t : string) : p +:+ s = p +:+ t -> s = t.
Proof.
  induction p as [|c p IH]; [rewrite !append_nil; auto|].
  rewrite !append_cons. intros H. injection H as H. apply IH, H.
Qed.

(** A number printed before a character that is not a digit can be read
    back, and so can the rest. *)
Lemma show_sep_inj (x y : Z) (c d : ascii) (r r' : string) :
  0 <= x -> 0 <= y -> is_digit c = false -> is_digit d = false ->
  show x +:+ String c r = show y +:+ String d r' -> x = y /\ c = d /\ r = r'.
Proof.
  intros Hx Hy Hc Hd Heq.
  destruct (digits_show x (String c r) Hx Hc) as (Hvx & _).
  destruct (digits_show y (String d r') Hy Hd) as (Hvy & _).
  assert (Hxy : x = y) by (rewrite <- Hvx, <- Hvy, Heq; reflexivity).
  subst y. apply append_inv_head in Heq. injection Heq as -> ->. auto.
Qed.

Lemma formatDuration_cases (ms : Q) :
  let seconds := Qfloor (ms / 1000) in
  (seconds < 60 /\ formatDuration ms = show seconds +:+ String "s" "") \/
  (60 <= seconds < 3600 /\
   formatDuration ms
   = show (seconds / 60) +:+ String "m" (show (seconds mod 60) +:+ String "s" "")) \/
  (3600 <= seconds /\
   formatDuration ms
   = show (seconds / 3600) +:+ String "h" (show (seconds / 60 mod 60) +:+ String "m" "")).
Proof.
  intros seconds. unfold formatDuration. fold seconds.
  destruct (seconds <? 60) eqn:H60.
  - left. apply Z.ltb_lt in H60. split; [exact H60 | reflexivity].
  - apply Z.ltb_ge in H60. right.
    destruct (seconds / 60 <? 60) eqn:H3600.
    + left. apply Z.ltb_lt in H3600. split.
      * revert H3600. Z.div_mod_to_equations. lia.
      * rewrite Z.rem_mod_nonneg by lia. reflexivity.
    + right. apply Z.ltb_ge in H3600. split.
      * revert H3600. Z.div_mod_to_equations. lia.
      * rewrite Z.rem_mod_nonneg by lia.
        rewrite Z.div_div by lia. reflexivity.
Qed.

Lemma Qfloor_seconds_nonneg (ms : Q) : (0 <= ms)%Q -> 0 <= Qfloor (ms / 1000).
Proof.
  intros Hms. change 0 with (Qfloor 0). apply Qfloor_resp_le.
  apply Qle_shift_div_l; [reflexivity|]. rewrite Qmult_0_l. exact Hms.
Qed.

(** X8.  Two durations that are not negative are printed alike exactly
    when they agree in what the text shows: the whole seconds below one
    hour, the whole minutes from one hour on, where the seconds are dropped.
    For a whole number of milliseconds the seconds are the quotient by
    1000. *)
Theorem formatDuration_resolution (a b : Q) :
  (0 <= a)%Q -> (0 <= b)%Q ->
  let sa := Qfloor (a / 1000) in
  let sb := Qfloor (b / 1000) in
  (formatDuration a = formatDuration b <-> shownSeconds sa = shownSeconds sb) /\
  shownSeconds sa <= sa < shownSeconds sa + 60 /\
  (sa < 3600 -> shownSeconds sa = sa) /\
  (forall t : Z, Qfloor (inject_Z t / 1000) = t / 1000).
Proof.
  intros Ha Hb sa sb.
  pose proof (Qfloor_seconds_nonneg a Ha) as Hsa.
  pose proof (Qfloor_seconds_nonneg b Hb) as Hsb.
  fold sa in Hsa. fold sb in Hsb.
  split; [|split; [|split]].
  - pose proof (formatDuration_cases a) as Hca.
    pose proof (formatDuration_cases b) as Hcb.
    cbv zeta in Hca, Hcb. fold sa in Hca. fold sb in Hcb.
    assert (Hdiv : forall s, 0 <= s -> 0 <= s / 60 /\ 0 <= s mod 60 /\ 0 <= s / 3600 /\
                                       0 <= s / 60 mod 60).
    { intros s Hs. Z.div_mod_to_equations. lia. }
    destruct (Hdiv sa Hsa) as (Ha1 & Ha2 & Ha3 & Ha4).
    destruct (Hdiv sb Hsb) as (Hb1 & Hb2 & Hb3 & Hb4).
    unfold shownSeconds.
    destruct Hca as [(Hra & ->)|[(Hra & ->)|(Hra & ->)]];
      destruct Hcb as [(Hrb & ->)|[(Hrb & ->)|(Hrb & ->)]];
      (destruct (sa <? 3600) eqn:Hta; [apply Z.ltb_lt in Hta | apply Z.ltb_ge in Hta];
       try lia);
      (destruct (sb <? 3600) eqn:Htb; [apply Z.ltb_lt in Htb | apply Z.ltb_ge in Htb];
       try lia);
      split; intros Heq;
      try (apply show_sep_inj in Heq as (H1 & H2 & H3); try reflexivity; try lia;
           try discriminate H2);
      try (apply show_sep_inj in H3 as (H4 & _ & _); try reflexivity; try lia).
    all: try (exfalso; revert Heq; Z.div_mod_to_equations; lia).
    all: try (revert H1 H4; Z.div_mod_to_equations; lia).
    all: try (rewrite Heq; reflexivity).
    all: assert (Hm : sa / 60 = sb / 60) by lia.
    all: change 3600 with (60 * 60).
    all: rewrite <- (Z.div_div sa 60 60), <- (Z.div_div sb 60 60), Hm by lia.
    all: reflexivity.
  - unfold shownSeconds. destruct (sa <? 3600); [lia|]. Z.div_mod_to_equations. lia.
  - intros Hlt. unfold shownSeconds. apply Z.ltb_lt in Hlt. rewrite Hlt. reflexivity.
  - intros t. symmetry. apply (Zdiv_Qdiv t 1000).
Qed.

(** 65 s and 65.999 s both read "1m5s". *)
Lemma formatDuration_resolution_witness :
  (0 <= 65000)%Q /\ (0 <= 65999)%Q /\
  formatDuration 65000 = formatDuration 65999 /\ formatDuration 65000 = "1m5s".
Proof.
  assert (Ha : (0 <= 65000)%Q) by (apply Qle_bool_iff; reflexivity).
  assert (Hb : (0 <= 65999)%Q) by (apply Qle_bool_iff; reflexivity).
  split; [exact Ha|]. split; [exact Hb|].
  destruct (formatDuration_resolution 65000 65999 Ha Hb) as (Hiff & _).
  split; [apply Hiff; reflexivity | reflexivity].
Defined.

(** ** Byte counts as text *)

Lemma append_assoc (a b c : string) : (a +:+ b) +:+ c = a +:+ (b +:+ c).
Proof.
  induction a as [|x a IH]; [rewrite !append_nil; reflexivity|].
  rewrite !append_cons, IH. reflexivity.
Qed.

Lemma toFixed_nearest (bytes unit : Z) (f : nat) :
  0 < unit ->
  Qfloor (inject_Z bytes / inject_Z unit * inject_Z (10 ^ Z.of_nat f) + (1 # 2))
  = nearest (10 ^ Z.of_nat f) bytes unit.
Proof.
  intros Hunit. unfold nearest. rewrite Zdiv_Qdiv. apply Qfloor_comp.
  rewrite !inject_Z_plus, !inject_Z_mult. field.
  intros H. apply (inject_Z_injective unit 0) in H. lia.
Qed.

Lemma nearest_bounds (parts bytes unit : Z) :
  0 < unit ->
  let n := nearest parts bytes unit in
  unit * (2 * n - 1) <= 2 * parts * bytes < unit * (2 * n + 1).
Proof.
  intros Hunit n. subst n. unfold nearest.
  pose proof (Z.div_mod (2 * parts * bytes + unit) (2 * unit) ltac:(lia)) as Hdm.
  pose proof (Z.mod_pos_bound (2 * parts * bytes + unit) (2 * unit) ltac:(lia)) as Hb.
  nia.
Qed.

Lemma pad_digit (d : Z) : 0 <= d < 10 -> padZeros 1 (show d) = show d.
Proof.
  intros Hd.
  assert (H : d = 0 \/ d = 1 \/ d = 2 \/ d = 3 \/ d = 4 \/ d = 5 \/ d = 6 \/ d = 7 \/
              d = 8 \/ d = 9) by lia.
  repeat (destruct H as [->|H]; [reflexivity|]). subst d. reflexivity.
Qed.

(** X9.  [formatBytes] on a whole number of bytes: below 1024 the number
    itself; below 1024 KB the nearest tenth of a KB, below 1024 MB the
    nearest tenth of a MB, above that the nearest hundredth of a GB, ties
    rounded up.  The unit is chosen before the rounding: the last 51 byte
    counts below 1024 KB read "1024.0 KB", and the counts from 1073689396
    to one below 1024 MB read "1024.0 MB". *)
Theorem formatBytes_rounds (bytes : Z) :
  (bytes < 1024 -> formatBytes bytes = show bytes +:+ " B") /\
  (1024 <= bytes < 1024 * 1024 ->
   let n := nearest 10 bytes 1024 in
   formatBytes bytes = show (n / 10) +:+ "." +:+ show (n mod 10) +:+ " KB" /\
   1024 * (2 * n - 1) <= 20 * bytes < 1024 * (2 * n + 1)) /\
  (1024 * 1024 <= bytes < 1024 * 1024 * 1024 ->
   let n := nearest 10 bytes (1024 * 1024) in
   formatBytes bytes = show (n / 10) +:+ "." +:+ show (n mod 10) +:+ " MB" /\
   1024 * 1024 * (2 * n - 1) <= 20 * bytes < 1024 * 1024 * (2 * n + 1)) /\
  (1024 * 1024 * 1024 <= bytes ->
   let n := nearest 100 bytes (1024 * 1024 * 1024) in
   formatBytes bytes
   = show (n / 100) +:+ "." +:+ padZeros 2 (show (n mod 100)) +:+ " GB" /\
   1024 * 1024 * 1024 * (2 * n - 1) <= 200 * bytes < 1024 * 1024 * 1024 * (2 * n + 1)) /\
  (1048525 <= bytes < 1024 * 1024 -> formatBytes bytes = "1024.0 KB") /\
  (1073689396 <= bytes < 1024 * 1024 * 1024 -> formatBytes bytes = "1024.0 MB").
Proof.
  assert (HKB : 1024 <= bytes < 1024 * 1024 ->
                formatBytes bytes
                = show (nearest 10 bytes 1024 / 10) +:+ "." +:+
                  show (nearest 10 bytes 1024 mod 10) +:+ " KB").
  { intros Hr. unfold formatBytes.
    replace (bytes <? 1024) with false by (symmetry; apply Z.ltb_ge; lia).
    replace (bytes <? 1024 * 1024) with true by (symmetry; apply Z.ltb_lt; lia).
    unfold toFixed. rewrite (toFixed_nearest bytes 1024 1) by lia.
    change (10 ^ Z.of_nat 1) with 10.
    rewrite pad_digit by (apply Z.mod_pos_bound; lia).
    rewrite !append_assoc. reflexivity. }
  assert (HMB : 1024 * 1024 <= bytes < 1024 * 1024 * 1024 ->
                formatBytes bytes
                = show (nearest 10 bytes (1024 * 1024) / 10) +:+ "." +:+
                  show (nearest 10 bytes (1024 * 1024) mod 10) +:+ " MB").
  { intros Hr. unfold formatBytes.
    replace (bytes <? 1024) with false by (symmetry; apply Z.ltb_ge; lia).
    replace (bytes <? 1024 * 1024) with false by (symmetry; apply Z.ltb_ge; lia).
    replace (bytes <? 1024 * 1024 * 1024) with true by (symmetry; apply Z.ltb_lt; lia).
    unfold toFixed. rewrite (toFixed_nearest bytes (1024 * 1024) 1) by lia.
    change (10 ^ Z.of_nat 1) with 10.
    rewrite pad_digit by (apply Z.mod_pos_bound; lia).
    rewrite !append_assoc. reflexivity. }
  split; [|split; [|split; [|split; [|split]]]].
  - intros Hlt. unfold formatBytes. apply Z.ltb_lt in Hlt. rewrite Hlt. reflexivity.
  - intros Hr n. split; [apply HKB, Hr|].
    pose proof (nearest_bounds 10 bytes 1024 ltac:(lia)) as Hb. cbv zeta in Hb. lia.
  - intros Hr n. split; [apply HMB, Hr|].
    pose proof (nearest_bounds 10 bytes (1024 * 1024) ltac:(lia)) as Hb.
    cbv zeta in Hb. lia.
  - intros Hr n. split.
    + unfold formatBytes.
      replace (bytes <? 1024) with false by (symmetry; apply Z.ltb_ge; lia).
      replace (bytes <? 1024 * 1024) with false by (symmetry; apply Z.ltb_ge; lia).
      replace (bytes <? 1024 * 1024 * 1024) with false by (symmetry; apply Z.ltb_ge; lia).
      unfold toFixed. rewrite (toFixed_nearest bytes (1024 * 1024 * 1024) 2) by lia.
      change (10 ^ Z.of_nat 2) with 100. rewrite !append_assoc. reflexivity.
    + pose proof (nearest_bounds 100 bytes (1024 * 1024 * 1024) ltac:(lia)) as Hb.
      cbv zeta in Hb. lia.
  - intros Hr. rewrite HKB by lia.
    replace (nearest 10 bytes 1024) with 10240; [reflexivity|].
    unfold nearest. Z.div_mod_to_equations. lia.
  - intros Hr. rewrite HMB by lia.
    replace (nearest 10 bytes (1024 * 1024)) with 10240; [reflexivity|].
    unfold nearest. Z.div_mod_to_equations. lia.
Qed.

(** One byte less than 1024 KB reads "1024.0 KB". *)
Lemma formatBytes_rounds_witness :
  1048525 <= 1048575 < 1024 * 1024 /\ formatBytes 1048575 = "1024.0 KB".
Proof.
  split; [lia|].
  destruct (formatBytes_rounds 1048575) as (_ & _ & _ & _ & Hedge & _).
  apply Hedge. lia.
Defined.

(** ** How the polling ends *)

Lemma pollLoop_terminal (T last : Z) (polls : list Poller.Poll) (st : Poller.DownloadStatus) :
  Poller.pollLoop T last polls = Some (Poller.Terminal st) <->
  exists before p after,
    polls = before ++ p :: after /\
    Poller.pollLoop T last before = None /\
    Poller.answer p = Some st /\ Phase.terminal (Poller.phase st) = true.
Proof.
  split.
  - revert last. induction polls as [|p polls IH]; intros last Hrun; simpl in Hrun.
    + discriminate.
    + destruct (Poller.answer p) as [st'|] eqn:Hans.
      * destruct (Phase.terminal (Poller.phase st')) eqn:Hterm.
        -- injection Hrun as <-. exists [], p, polls. auto.
        -- destruct (IH _ Hrun) as (before & q & after & -> & Hnone & Hq & Ht).
           exists (p :: before), q, after. simpl. rewrite Hans, Hterm. auto.
      * destruct (T <=? Poller.at_ p - last) eqn:Hle; [discriminate|].
        destruct (IH _ Hrun) as (before & q & after & -> & Hnone & Hq & Ht).
        exists (p :: before), q, after. simpl. rewrite Hans, Hle. auto.
  - intros (before & p & after & -> & Hnone & Hans & Hterm).
    rewrite pollLoop_app by exact Hnone. simpl. rewrite Hans, Hterm. reflexivity.
Qed.

(** Rounds that all fail, the first read [d] after [last] or later: the
    [n]-th round after it is read [n] gaps later still, and the loop has
    ended by then if that reaches the threshold. *)
Lemma pollLoop_silent (T gap last d : Z) (polls : list Poller.Poll) (n : nat) :
  0 <= gap ->
  Forall (fun p => Poller.answer p = None) polls ->
  paced Poller.at_ gap polls ->
  (forall p, head polls = Some p -> last + d <= Poller.at_ p) ->
  T <= d + Z.of_nat n * gap -> (n < length polls)%nat ->
  Poller.pollLoop T last (take (S n) polls) = Some Poller.Unresponsive.
Proof.
  intros Hgap Hfail. revert d n.
  induction Hfail as [|p polls Hp _ IH]; intros d n Hpaced Hfirst HT Hn;
    [simpl in Hn; lia|].
  cbn [take Poller.pollLoop]. rewrite Hp.
  destruct (Z.leb_spec T (Poller.at_ p - last)) as [Hle|Hlt]; [reflexivity|].
  specialize (Hfirst p eq_refl).
  destruct n as [|n]; [simpl in HT; lia|].
  destruct Hpaced as [Hnext Hpaced]. cbn [length] in Hn.
  apply (IH (d + gap)); [exact Hpaced| |lia|lia].
  intros p' Hhead. destruct polls as [|q polls]; [discriminate|].
  injection Hhead as <-. lia.
Qed.

Lemma paced_map {A : Type} (at_ : A -> Z) (gap : Z) (f : nat -> A) (a n : nat) :
  (forall k, at_ (f k) + gap <= at_ (f (S k))) -> paced at_ gap (map f (seq a n)).
Proof.
  intros Hstep. revert a. induction n as [|n IH]; intros a; cbn [seq map paced]; [exact I|].
  split; [|apply IH]. destruct n; cbn [seq map]; [exact I | apply Hstep].
Qed.

(** X10.  [pollDownloadProgress] returns a status exactly when a poll is
    answered with a terminal phase, the polling not having ended before;
    it is the first such answer.  Polls three seconds apart that all fail
    do not go on for ever: the polling is given up at the sixty-first of
    them at the latest, counted from the start or from the last answered
    poll. *)
Theorem pollDownloadProgress_ends (started : Z) (polls : list Poller.Poll) :
  (forall st,
     Poller.pollDownloadProgress started polls = Some (Poller.Terminal st) <->
     exists before p after,
       polls = before ++ p :: after /\
       Poller.pollDownloadProgress started before = None /\
       Poller.answer p = Some st /\ Phase.terminal (Poller.phase st) = true) /\
  (forall last silent,
     Forall (fun p => Poller.answer p = None) silent ->
     paced Poller.at_ POLL_INTERVAL_MS silent ->
     (forall p, head silent = Some p -> last <= Poller.at_ p) ->
     (60 < length silent)%nat ->
     Poller.pollLoop Poller.UNRESPONSIVE_TIMEOUT_MS last (take 61 silent)
     = Some Poller.Unresponsive) /\
  (forall before silent,
     Poller.pollDownloadProgress started before = None ->
     Forall (fun p => Poller.answer p = None) silent ->
     paced Poller.at_ POLL_INTERVAL_MS silent ->
     (forall p, head silent = Some p -> Poller.lastSuccess started before <= Poller.at_ p) ->
     (60 < length silent)%nat ->
     Poller.pollDownloadProgress started (before ++ take 61 silent)
     = Some Poller.Unresponsive).
Proof.
  assert (Hsilent : forall last silent,
            Forall (fun p => Poller.answer p = None) silent ->
            paced Poller.at_ POLL_INTERVAL_MS silent ->
            (forall p, head silent = Some p -> last <= Poller.at_ p) ->
            (60 < length silent)%nat ->
            Poller.pollLoop Poller.UNRESPONSIVE_TIMEOUT_MS last (take 61 silent)
            = Some Poller.Unresponsive).
  { intros last silent Hfail Hpaced Hfirst Hlen.
    apply (pollLoop_silent _ POLL_INTERVAL_MS last 0 silent 60);
      try assumption; unfold POLL_INTERVAL_MS, Poller.UNRESPONSIVE_TIMEOUT_MS; try lia.
    intros p Hp. specialize (Hfirst p Hp). lia. }
  split; [|split].
  - intros st. apply pollLoop_terminal.
  - exact Hsilent.
  - intros before silent Hnone Hfail Hpaced Hfirst Hlen.
    unfold Poller.pollDownloadProgress in *.
    rewrite pollLoop_app by exact Hnone. apply Hsilent; assumption.
Qed.

(** Sixty-one polls, three seconds apart, none answered: the polling has
    been given up by the last. *)
Lemma pollDownloadProgress_ends_witness :
  Poller.pollDownloadProgress 0 Further_inputs.silence = Some Poller.Unresponsive.
Proof.
  destruct (pollDownloadProgress_ends 0 Further_inputs.silence) as (_ & _ & Hbound).
  apply (Hbound [] Further_inputs.silence eq_refl).
  - apply Forall_forall. intros p Hp.
    apply list_elem_of_fmap in Hp as (k & -> & _). reflexivity.
  - apply paced_map. intros k. unfold POLL_INTERVAL_MS. cbn. lia.
  - intros p Hp. injection Hp as <-. cbn. lia.
  - cbn. lia.
Defined.

(** ** Waiting for a host to run *)

Lemma waitLoop_true (T start : Z) (rounds : list Wait.Round) :
  Wait.waitLoop T start rounds = Some true <->
  exists before r after,
    rounds = before ++ r :: after /\
    Forall (fun q => Wait.now q - start < T /\ Wait.isRunning q = false) before /\
    Wait.now r - start < T /\ Wait.isRunning r = true.
Proof.
  split.
  - induction rounds as [|q rounds IH]; cbn [Wait.waitLoop]; [discriminate|].
    destruct (Z.ltb_spec (Wait.now q - start) T) as [Hlt|Hge]; [|discriminate].
    destruct (Wait.isRunning q) eqn:Hq.
    + intros _. exists [], q, rounds. repeat split; [constructor|assumption..].
    + intros Hrun. destruct (IH Hrun) as (before & r & after & -> & Hb & Hr).
      exists (q :: before), r, after. repeat split; [constructor; auto|apply Hr..].
  - intros (before & r & after & -> & Hb & Hlt & Hr).
    induction Hb as [|q before [Hq1 Hq2] _ IH]; cbn [app Wait.waitLoop].
    + apply Z.ltb_lt in Hlt. rewrite Hlt, Hr. reflexivity.
    + apply Z.ltb_lt in Hq1. rewrite Hq1, Hq2. exact IH.
Qed.

Lemma waitLoop_false (T start : Z) (rounds : list Wait.Round) :
  Wait.waitLoop T start rounds = Some false <->
  exists before r after,
    rounds = before ++ r :: after /\
    Forall (fun q => Wait.now q - start < T /\ Wait.isRunning q = false) before /\
    T <= Wait.now r - start.
Proof.
  split.
  - induction rounds as [|q rounds IH]; cbn [Wait.waitLoop]; [discriminate|].
    destruct (Z.ltb_spec (Wait.now q - start) T) as [Hlt|Hge].
    + destruct (Wait.isRunning q) eqn:Hq; [discriminate|].
      intros Hrun. destruct (IH Hrun) as (before & r & after & -> & Hb & Hr).
      exists (q :: before), r, after. repeat split; [constructor; auto|apply Hr].
    + intros _. exists [], q, rounds. repeat split; [constructor|assumption].
  - intros (before & r & after & -> & Hb & Hge).
    induction Hb as [|q before [Hq1 Hq2] _ IH]; cbn [app Wait.waitLoop].
    + apply Z.ltb_ge in Hge. rewrite Hge. reflexivity.
    + apply Z.ltb_lt in Hq1. rewrite Hq1, Hq2. exact IH.
Qed.

(** Rounds [gap] apart, the first read [d] after [start] or later: the
    loop has ended by the round that is read past the timeout. *)
Lemma waitLoop_bounded (T gap start d : Z) (rounds : list Wait.Round) (n : nat) :
  0 <= gap ->
  paced Wait.now gap rounds ->
  (forall r, head rounds = Some r -> start + d <= Wait.now r) ->
  T <= d + Z.of_nat n * gap -> (n < length rounds)%nat ->
  exists result, Wait.waitLoop T start (take (S n) rounds) = Some result.
Proof.
  intros Hgap. revert d n.
  induction rounds as [|q rounds IH]; intros d n Hpaced Hfirst HT Hn;
    [simpl in Hn; lia|].
  cbn [take Wait.waitLoop].
  destruct (Z.ltb_spec (Wait.now q - start) T) as [Hlt|Hge]; [|eauto].
  destruct (Wait.isRunning q); [eauto|].
  specialize (Hfirst q eq_refl).
  destruct n as [|n]; [simpl in HT; lia|].
  destruct Hpaced as [Hnext Hpaced]. cbn [length] in Hn.
  apply (IH (d + gap)); [exact Hpaced| |lia|lia].
  intros r Hhead. destruct rounds as [|q' rounds]; [discriminate|].
  injection Hhead as <-. lia.
Qed.

(** X11.  [waitForPodRunning] returns true exactly when a round sees the
    host RUNNING, every round up to it having started before the timeout
    of 180 seconds and seen another status; it returns false exactly when
    a round starts at or after the timeout.  With rounds five seconds apart
    it has returned by the thirty-seventh reading of the clock.  Whatever
    this wait accepts, the wait of the [start] command, whose timeout is
    300 seconds, accepts as well. *)
Theorem waitForPodRunning_ends (start : Z) (rounds : list Wait.Round) :
  (Wait.waitForPodRunning start rounds = Some true <->
   exists before r after,
     rounds = before ++ r :: after /\
     Forall (fun q => Wait.now q - start < 180000 /\ Wait.isRunning q = false) before /\
     Wait.now r - start < 180000 /\ Wait.desiredStatus r = "RUNNING") /\
  (Wait.waitForPodRunning start rounds = Some false <->
   exists before r after,
     rounds = before ++ r :: after /\
     Forall (fun q => Wait.now q - start < 180000 /\ Wait.isRunning q = false) before /\
     180000 <= Wait.now r - start) /\
  (paced Wait.now Wait.INTERVAL_MS rounds ->
   (forall r, head rounds = Some r -> start <= Wait.now r) ->
   (36 < length rounds)%nat ->
   exists result, Wait.waitForPodRunning start (take 37 rounds) = Some result) /\
  (forall result,
     Wait.waitForPodRunning start rounds = Some result ->
     Wait.waitForPodRunning_start start rounds = Some true \/ result = false).
Proof.
  unfold Wait.waitForPodRunning. split; [|split; [|split]].
  - rewrite waitLoop_true. unfold Wait.isRunning at 2.
    split; intros (before & r & after & H1 & H2 & H3 & H4);
      exists before, r, after; repeat split; try assumption.
    + apply String.eqb_eq, H4.
    + apply String.eqb_eq, H4.
  - apply waitLoop_false.
  - intros Hpaced Hfirst Hlen.
    apply (waitLoop_bounded _ Wait.INTERVAL_MS start 0 rounds 36);
      try assumption; unfold Wait.INTERVAL_MS; try lia.
    intros r Hr. specialize (Hfirst r Hr). lia.
  - intros [|] Hrun; [left | right; reflexivity].
    apply waitLoop_true in Hrun as (before & r & after & -> & Hb & Hlt & Hr).
    apply waitLoop_true. exists before, r, after.
    repeat split; [|lia|exact Hr].
    eapply Forall_impl; [exact Hb|]. intros q [H1 H2]. split; [lia | exact H2].
Qed.

(** A host that stays pending is given up at the thirty-seventh reading of
    the clock. *)
Lemma waitForPodRunning_ends_witness :
  Wait.waitForPodRunning 0 Further_inputs.pending = Some false.
Proof.
  destruct (waitForPodRunning_ends 0 Further_inputs.pending) as (_ & _ & Hbound & _).
  destruct Hbound as (result & Hresult).
  - apply paced_map. intros k. unfold Wait.INTERVAL_MS. cbn. lia.
  - intros r Hr. injection Hr as <-. cbn. lia.
  - cbn. lia.
  - pose proof Hresult as Hvalue. vm_compute in Hvalue. injection Hvalue as <-.
    exact Hresult.
Defined.

(** ** Creating a host *)

Lemma givesUp_false (start : Z) (r : CreatePod.Round) :
  truthy_opt (CreatePod.dataId r) = false ->
  (CreatePod.givesUp CreatePod.RETRY_TIMEOUT_MS start r = false <-> CreatePod.retried start r).
Proof.
  intros Hid. unfold CreatePod.givesUp, CreatePod.retried.
  rewrite !orb_false_iff, !Z.eqb_neq, Z.leb_gt. tauto.
Qed.

Lemma createLoop_retried (start : Z) (before rest : list CreatePod.Round) :
  Forall (CreatePod.retried start) before ->
  CreatePod.createLoop CreatePod.RETRY_TIMEOUT_MS start (before ++ rest)
  = CreatePod.createLoop CreatePod.RETRY_TIMEOUT_MS start rest.
Proof.
  induction 1 as [|r before Hr _ IH]; [reflexivity|].
  cbn [app CreatePod.createLoop]. pose proof Hr as (Hid & _).
  rewrite Hid. apply (givesUp_false start r Hid) in Hr. rewrite Hr. exact IH.
Qed.

Lemma createLoop_ends (start : Z) (rounds : list CreatePod.Round) (result : CreatePod.Result) :
  CreatePod.createLoop CreatePod.RETRY_TIMEOUT_MS start rounds = Some result ->
  exists before r after,
    rounds = before ++ r :: after /\ Forall (CreatePod.retried start) before /\
    CreatePod.createLoop CreatePod.RETRY_TIMEOUT_MS start [r] = Some result.
Proof.
  induction rounds as [|q rounds IH]; cbn [CreatePod.createLoop]; [discriminate|].
  destruct (truthy_opt (CreatePod.dataId q)) eqn:Hid.
  - intros Heq. exists [], q, rounds. repeat split; [constructor|].
    cbn [CreatePod.createLoop]. rewrite Hid. exact Heq.
  - destruct (CreatePod.givesUp CreatePod.RETRY_TIMEOUT_MS start q) eqn:Hgive.
    + intros Heq. exists [], q, rounds. repeat split; [constructor|].
      cbn [CreatePod.createLoop]. rewrite Hid, Hgive. exact Heq.
    + intros Hrun. destruct (IH Hrun) as (before & r & after & -> & Hb & Hr).
      exists (q :: before), r, after. repeat split; [|exact Hr].
      constructor; [|exact Hb]. apply givesUp_false; assumption.
Qed.

Lemma createLoop_bounded (gap start d : Z) (rounds : list CreatePod.Round) (n : nat) :
  0 <= gap ->
  paced CreatePod.now gap rounds ->
  (forall r, head rounds = Some r -> start + d <= CreatePod.now r) ->
  CreatePod.RETRY_TIMEOUT_MS <= d + Z.of_nat n * gap -> (n < length rounds)%nat ->
  exists result,
    CreatePod.createLoop CreatePod.RETRY_TIMEOUT_MS start (take (S n) rounds) = Some result.
Proof.
  intros Hgap. revert d n.
  induction rounds as [|q rounds IH]; intros d n Hpaced Hfirst HT Hn;
    [simpl in Hn; lia|].
  cbn [take CreatePod.createLoop].
  destruct (truthy_opt (CreatePod.dataId q)) eqn:Hid; [eauto|].
  destruct (CreatePod.givesUp CreatePod.RETRY_TIMEOUT_MS start q) eqn:Hgive; [eauto|].
  apply givesUp_false in Hgive as (_ & _ & _ & Hlt); [|exact Hid].
  specialize (Hfirst q eq_refl).
  destruct n as [|n]; [simpl in HT; lia|].
  destruct Hpaced as [Hnext Hpaced]. cbn [length] in Hn.
  apply (IH (d + gap)); [exact Hpaced| |lia|lia].
  intros r Hhead. destruct rounds as [|q' rounds]; [discriminate|].
  injection Hhead as <-. lia.
Qed.

(** X12.  [createPod] returns the first pod the service creates, every
    request before it having been retried; a request is retried only if it
    created nothing, was not answered 401 or 403, and the 30 minutes since
    the first request are not over.  It throws exactly when such a request
    is answered 401 or 403 or comes after the 30 minutes.  With requests
    thirty seconds apart it has ended by the sixty-first. *)
Theorem createPod_retries (start : Z) (rounds : list CreatePod.Round) :
  (forall id,
     CreatePod.createPod start rounds = Some (CreatePod.Created id) <->
     exists before r after,
       rounds = before ++ r :: after /\ Forall (CreatePod.retried start) before /\
       CreatePod.dataId r = Some id /\ id <> "") /\
  (CreatePod.createPod start rounds = Some CreatePod.Fails <->
   exists before r after,
     rounds = before ++ r :: after /\ Forall (CreatePod.retried start) before /\
     truthy_opt (CreatePod.dataId r) = false /\
     (CreatePod.status r = 401 \/ CreatePod.status r = 403 \/
      CreatePod.RETRY_TIMEOUT_MS <= CreatePod.now r - start)) /\
  (paced CreatePod.now CreatePod.RETRY_INTERVAL_MS rounds ->
   (forall r, head rounds = Some r -> start <= CreatePod.now r) ->
   (60 < length rounds)%nat ->
   exists result, CreatePod.createPod start (take 61 rounds) = Some result).
Proof.
  unfold CreatePod.createPod. split; [|split].
  - intros id. split.
    + intros Hrun. apply createLoop_ends in Hrun as (before & r & after & -> & Hb & Hr).
      exists before, r, after. split; [reflexivity|]. split; [exact Hb|].
      cbn [CreatePod.createLoop] in Hr.
      destruct (CreatePod.dataId r) as [i|] eqn:Hid; cbn [truthy_opt] in Hr.
      * destruct (truthy i) eqn:Ht.
        -- injection Hr as <-. cbn [default]. split; [reflexivity|].
           apply truthy_true, Ht.
        -- destruct (CreatePod.givesUp _ _ _); discriminate.
      * destruct (CreatePod.givesUp _ _ _); discriminate.
    + intros (before & r & after & -> & Hb & Hid & Hne).
      rewrite createLoop_retried by exact Hb. cbn [CreatePod.createLoop].
      rewrite Hid. cbn [truthy_opt default]. apply truthy_true in Hne. rewrite Hne.
      reflexivity.
  - split.
    + intros Hrun. apply createLoop_ends in Hrun as (before & r & after & -> & Hb & Hr).
      exists before, r, after. split; [reflexivity|]. split; [exact Hb|].
      cbn [CreatePod.createLoop] in Hr.
      destruct (truthy_opt (CreatePod.dataId r)); [discriminate|].
      split; [reflexivity|].
      destruct (CreatePod.givesUp CreatePod.RETRY_TIMEOUT_MS start r) eqn:Hgive;
        [|discriminate].
      unfold CreatePod.givesUp in Hgive.
      rewrite !orb_true_iff, !Z.eqb_eq, Z.leb_le in Hgive. tauto.
    + intros (before & r & after & -> & Hb & Hid & Hgive).
      rewrite createLoop_retried by exact Hb. cbn [CreatePod.createLoop].
      rewrite Hid. replace (CreatePod.givesUp _ _ _) with true; [reflexivity|].
      symmetry. unfold CreatePod.givesUp.
      rewrite !orb_true_iff, !Z.eqb_eq, Z.leb_le. tauto.
  - intros Hpaced Hfirst Hlen.
    apply (createLoop_bounded CreatePod.RETRY_INTERVAL_MS start 0 rounds 60);
      try assumption;
      unfold CreatePod.RETRY_INTERVAL_MS, CreatePod.RETRY_TIMEOUT_MS; try lia.
    intros r Hr. specialize (Hfirst r Hr). lia.
Qed.

(** Sixty-one requests thirty seconds apart, all answered 500: the last
    one is not retried. *)
Lemma createPod_retries_witness :
  CreatePod.createPod 0 Further_inputs.refused = Some CreatePod.Fails.
Proof.
  destruct (createPod_retries 0 Further_inputs.refused) as (_ & _ & Hbound).
  destruct Hbound as (result & Hresult).
  - apply paced_map. intros k. unfold CreatePod.RETRY_INTERVAL_MS. cbn. lia.
  - intros r Hr. injection Hr as <-. cbn. lia.
  - cbn. lia.
  - pose proof Hresult as Hvalue. vm_compute in Hvalue. injection Hvalue as <-.
    exact Hresult.
Defined.

(** ** The hosts [setup] uses *)








(** ** The poller's view of the worker *)

Lemma bearer_inj (a b : string) : "Bearer " +:+ a = "Bearer " +:+ b -> a = b.
Proof. intros H. repeat (rewrite !append_cons in H; injection H as H). exact H. Qed.

Lemma pollWorker_cases (env : Env) (st : StatusInternal) (token : string) :
  (STATUS_TOKEN env = "" \/ token = STATUS_TOKEN env ->
   pollWorker env st token = Some (pollerView (serializeStatus st))) /\
  (STATUS_TOKEN env <> "" -> token <> STATUS_TOKEN env -> pollWorker env st token = None).
Proof.
  unfold pollWorker, statusListener, statusRequest. cbn [Http.authorization Http.url].
  split.
  - intros [Hempty| ->].
    + apply truthy_false in Hempty. rewrite Hempty. reflexivity.
    + replace (opt_string_eqb _ _) with true
        by (symmetry; apply opt_string_eqb_eq; reflexivity).
      rewrite andb_false_r. reflexivity.
  - intros Hset Hne. apply truthy_true in Hset. rewrite Hset.
    replace (opt_string_eqb _ _) with false; [reflexivity|].
    symmetry. apply opt_string_eqb_neq. intros Heq.
    apply Hne, bearer_inj. congruence.
Qed.

Lemma freshAttempt_run (k : nat) (token podId : string) (view : Poller.DownloadStatus)
      (started t : Z) :
  Phase.terminal (Poller.phase view) = true ->
  Poller.runAttempt k (freshAttempt token podId (Some view) started t)
  = ([Poller.CreatePod token podId; Poller.WaitForPodRunning podId;
      Poller.PollStatus podId token; Poller.DeletePod podId], Poller.Break view).
Proof.
  intros Hterm.
  unfold Poller.runAttempt, freshAttempt, Poller.liveExisting.
  cbn [Poller.existingPod]. unfold Poller.createAndUse, Poller.useHost, Poller.prepend.
  cbn [Poller.running Poller.pollStarted Poller.polls Poller.createdId Poller.randomToken
       negb fst snd app].
  unfold Poller.pollDownloadProgress. cbn [Poller.pollLoop Poller.answer].
  rewrite Hterm. reflexivity.
Qed.

(** X14.  The worker and the poller, end to end.  A poll with the status
    token the worker was given is answered with the worker's status
    document; a poll with another token is a failed poll.  When [main] has
    returned, the first poll ends the polling: [setup] creates the host,
    waits, polls and deletes it, and it completes if a job list was given
    and no entry failed; otherwise it throws the failure message with the
    number of failed entries and the worker's error. *)
Theorem worker_exit_ends_setup
        (env : Env) (clock : nat -> Z) (input : JobInput)
        (events : list Event) (c : Config) (podId : string) (started t : Z) :
  run env clock (initial input) events = Some c ->
  main c = Exited ->
  let st := status (world c) in
  let token := STATUS_TOKEN env in
  let view := pollerView (serializeStatus st) in
  let meets := fun _ : nat => freshAttempt token podId (pollWorker env st token) started t in
  pollWorker env st token = Some view /\
  (forall other, token <> "" -> other <> token -> pollWorker env st other = None) /\
  fst (Poller.setup meets)
  = [Poller.CreatePod token podId; Poller.WaitForPodRunning podId;
     Poller.PollStatus podId token; Poller.DeletePod podId] /\
  ((input <> Unset /\ failed (serializeStatus st) = 0%nat /\
    snd (Poller.setup meets) = Poller.Complete view) \/
   ((input = Unset \/ (0 < failed (serializeStatus st))%nat) /\
    snd (Poller.setup meets)
    = Poller.Thrown ("Download failed: " +:+ show (Z.of_nat (failed (serializeStatus st))) +:+
                     " file(s) failed. " +:+ default "" (error st)))).
Proof.
  intros Hrun Hmain st token view meets.
  destruct (pollWorker_cases env st token) as (Hsame & _).
  specialize (Hsame (or_intror eq_refl)). fold view in Hsame.
  split; [exact Hsame|]. split.
  { intros other Hset Hne. apply pollWorker_cases; assumption. }
  apply (Inv_run env clock) in Hrun. destruct Hrun as (_ & HInv).
  rewrite Hmain in HInv. fold st in HInv.
  assert (Hterm : Phase.terminal (phase st) = true).
  { destruct HInv as [(_ & Hled)|(models & _ & _ & _ & [(Hph & _)|(Hph & _)] & _)].
    - apply ledger_fields in Hled as (Hph & _). subst st. rewrite Hph. reflexivity.
    - rewrite Hph. reflexivity.
    - rewrite Hph. reflexivity. }
  assert (Hsetup : Poller.setup meets
                   = ([Poller.CreatePod token podId; Poller.WaitForPodRunning podId;
                       Poller.PollStatus podId token; Poller.DeletePod podId],
                      match phase st with
                      | Phase.failed => Poller.Thrown (Poller.failedMessage view)
                      | _ => Poller.Complete view
                      end)).
  { unfold Poller.setup, Poller.maxAttempts. cbn [Poller.retryLoop].
    unfold meets. rewrite Hsame.
    rewrite (freshAttempt_run 1 token podId view started t)
      by (change (Poller.phase view) with (phase st); exact Hterm).
    reflexivity. }
  rewrite Hsetup. cbn [fst snd]. split; [reflexivity|].
  unfold Poller.failedMessage, Poller.show_opt.
  change (Poller.failed view) with (Some (Z.of_nat (failed (serializeStatus st)))).
  change (Poller.error view) with (error st).
  destruct HInv as [(Hin & Hled)|(models & Hin & _ & _ & [(Hph & Hex)|(Hph & Hex)] & _)].
  - apply ledger_fields in Hled as (Hph & _). fold st in Hph. rewrite Hph.
    right. split; [left; exact Hin|]. destruct (error st); reflexivity.
  - rewrite Hph. right. split.
    + right. apply count_failed_positive in Hex. apply Nat.ltb_lt in Hex. exact Hex.
    + destruct (error st); reflexivity.
  - rewrite Hph. left. split; [rewrite Hin; discriminate|]. split; [|reflexivity].
    destruct (failed (serializeStatus st)) as [|n] eqn:Hn; [reflexivity|].
    exfalso. apply Hex. apply count_failed_positive.
    cbn [failed serializeStatus] in Hn. rewrite Hn. reflexivity.
Qed.

Lemma worker_exit_ends_setup_witness :
  option_map (fun c =>
                snd (Poller.setup
                       (fun _ => freshAttempt "0123abcd" "pod-1"
                                   (pollWorker Sample_inputs.env (status (world c)) "0123abcd")
                                   0 3000)))
             (run Sample_inputs.env Sample_inputs.clock (initial (Jobs Sample_inputs.jobs))
                  Sample_inputs.to_the_end)
  = Some (Poller.Thrown "Download failed: 1 file(s) failed. ").
Proof.
  destruct (run Sample_inputs.env Sample_inputs.clock (initial (Jobs Sample_inputs.jobs))
                Sample_inputs.to_the_end) as [c|] eqn:Hrun.
  - assert (Hmain : main c = Exited)
      by (vm_compute in Hrun; injection Hrun as <-; reflexivity).
    destruct (worker_exit_ends_setup _ _ _ _ _ "pod-1" 0 3000 Hrun Hmain)
      as (_ & _ & _ & [(_ & Hnone & _)|(_ & Hthrown)]).
    + exfalso. vm_compute in Hrun. injection Hrun as <-. discriminate Hnone.
    + cbn [option_map]. f_equal. etransitivity; [exact Hthrown|].
      vm_compute in Hrun. injection Hrun as <-. reflexivity.
  - vm_compute in Hrun. discriminate.
Defined.
